(** * The annotation tool's storage layer, embedded and verified

    The development follows the JavaScript sources:
    - [src/utils/helpers.js]           ([convertAnnotationsToCSV], [truncateText]),
    - [src/utils/indexedDBStorage.js]  (the Local Engine, module [IndexedDBStorage]),
    - [src/utils/firebaseStorage.js]   (the Remote Engine, module [remoteStorage]),
    - [src/utils/storageService.js]    (the Storage Facade, module [storageService]).

    JavaScript values are a small inductive type, objects are finite maps from
    property names to values, and asynchronous functions are state-passing
    computations over a [World] that holds both engines, the authentication
    state, the clock and the outcome of every upcoming I/O request. *)

From Stdlib Require Import Ascii.
From stdpp Require Import gmap strings list fin_maps pretty sorting.

Set Warnings "-register-all".

(** ** JavaScript values *)

Module Js.

(** Numbers are restricted to the safe integers (of magnitude below 2^53):
    the code only counts, indexes and compares lengths.  Objects map property
    names to values; the enumeration order of properties is not
    represented. *)
Inductive Value :=
| VUndef
| VNull
| VBool (b : bool)
| VNum (n : Z)
| VStr (s : string)
| VArr (xs : list Value)
| VObj (fs : gmap string Value).

Definition dquote : ascii := "034"%char.
Definition newline : string := String "010"%char EmptyString.

(** ToBoolean. *)
Definition truthy (v : Value) : bool :=
  match v with
  | VUndef | VNull => false
  | VBool b => b
  | VNum n => negb (n =? 0)%Z
  | VStr s => negb (String.eqb s EmptyString)
  | VArr _ | VObj _ => true
  end.

(** [a || b] *)
Definition js_or (a b : Value) : Value := if truthy a then a else b.

Definition nullish (v : Value) : bool :=
  match v with VUndef | VNull => true | _ => false end.

(** [Array.isArray(v)] *)
Definition isArray (v : Value) : bool :=
  match v with VArr _ => true | _ => false end.

(** [typeof v === 'object'] (true of [null], arrays and objects). *)
Definition typeof_object (v : Value) : bool :=
  match v with VNull | VArr _ | VObj _ => true | _ => false end.

(** [v.k] for a named (non-index, non-length) property [k] of a value that is
    not null or undefined: only objects carry such properties. *)
Definition get (k : string) (v : Value) : Value :=
  match v with
  | VObj fs => default VUndef (fs !! k)
  | _ => VUndef
  end.

(** [v.length === 0], for a value that is not null or undefined: the length
    of an array or of a string, the own property [length] of an object, and
    undefined for a boolean or a number. *)
Definition length_is_zero (v : Value) : bool :=
  match v with
  | VArr xs => bool_decide (xs = [])
  | VStr s => String.eqb s EmptyString
  | VObj fs => match fs !! "length" with Some (VNum 0) => true | _ => false end
  | _ => false
  end.

(** [v === s] for a string [s]. *)
Definition is_str (s : string) (v : Value) : bool :=
  match v with VStr s' => String.eqb s' s | _ => false end.

(** ToString, as used by template literals and by [Array.prototype.join].
    A safe integer prints as its decimal numeral. *)
Fixpoint to_str (v : Value) : string :=
  match v with
  | VUndef => "undefined"
  | VNull => "null"
  | VBool b => if b then "true" else "false"
  | VNum n => pretty n
  | VStr s => s
  | VArr xs =>
      String.concat ","
        ((fix cells (l : list Value) : list string :=
            match l with
            | [] => []
            | x :: l' =>
                (match x with VUndef | VNull => EmptyString | _ => to_str x end)
                  :: cells l'
            end) xs)
  | VObj _ => "[object Object]"
  end.

(** One element of [join]: null and undefined print as the empty string. *)
Definition cell (v : Value) : string :=
  if nullish v then EmptyString else to_str v.

(** [xs.join(sep)] *)
Definition join (sep : string) (xs : list Value) : string :=
  String.concat sep (cell <$> xs).

(** [notes.replace] with the global double-quote pattern: every double quote
    character is doubled. *)
Fixpoint replace_quotes (s : string) : string :=
  match s with
  | EmptyString => EmptyString
  | String c r =>
      if Ascii.eqb c dquote
      then String dquote (String dquote (replace_quotes r))
      else String c (replace_quotes r)
  end.

(** The number of double quotes in a string. *)
Fixpoint count_quotes (s : string) : nat :=
  match s with
  | EmptyString => 0
  | String c r => (if Ascii.eqb c dquote then 1 else 0) + count_quotes r
  end.

(** The characters of a string, as one-character strings. *)
Fixpoint chars (s : string) : list Value :=
  match s with
  | EmptyString => []
  | String c r => VStr (String c EmptyString) :: chars r
  end.

(** The own enumerable properties copied by an object spread [{...v}]:
    the fields of an object, the indexed elements of an array or string,
    nothing for the other primitives. *)
Definition indexed (xs : list Value) : gmap string Value :=
  list_to_map (imap (λ i x, (pretty i, x)) xs).

Definition own_props (v : Value) : gmap string Value :=
  match v with
  | VObj fs => fs
  | VArr xs => indexed xs
  | VStr s => indexed (chars s)
  | _ => ∅
  end.

(** [{...a, ...b}]: the properties of [b] override those of [a]. *)
Definition spread (a b : Value) : gmap string Value :=
  own_props b ∪ own_props a.

(** [xs.splice(start, 1)] as far as the array left behind is concerned:
    a negative [start] counts from the end, and both ends are clamped. *)
Definition splice1 (start : Z) (xs : list Value) : list Value :=
  let len := Z.of_nat (length xs) in
  let from := if (start <? 0)%Z then Z.max (len + start) 0 else Z.min start len in
  delete (Z.to_nat from) xs.

(** Errors thrown by the code or delivered by the I/O layers. *)
Inductive Error :=
| TypeError                      (* property read on null/undefined, call of a non-function *)
| NotAuthenticated               (* Error('User not authenticated') *)
| ThreadNotFound (id : string)   (* Error(`Thread ${id} not found`), facade *)
| RemoteThreadNotFound           (* Error('Thread not found'), remote engine *)
| OpenError                      (* indexedDB.open failed or IndexedDB is missing *)
| RequestError                   (* an IndexedDB request failed *)
| TransactionError               (* an IndexedDB transaction failed *)
| ConstraintError                (* store.add on a key that is already present *)
| DataError                      (* store.add of a record without a usable key *)
| InvalidDocumentReference       (* doc() rejected the document id *)
| NetworkError.                  (* a Firestore request was rejected *)

(** The outcome of a call: a value, or a thrown error (for an asynchronous
    function: a resolved or a rejected promise). *)
Inductive Result (A : Type) :=
| Ok (a : A)
| Err (e : Error).
Global Arguments Ok {A} a.
Global Arguments Err {A} e.

Global Instance Result_ret : MRet Result := λ A a, Ok a.
Global Instance Result_bind : MBind Result := λ A B f m,
  match m with Ok a => f a | Err e => Err e end.

(** [v.k] where [v] may be null or undefined. *)
Definition prop (k : string) (v : Value) : Result Value :=
  if nullish v then Err TypeError else Ok (get k v).

End Js.
Export Js.

(** ** helpers.js *)

Module helpers.

Definition headers : list Value :=
  [VStr "Thread ID"; VStr "Thread Title"; VStr "Annotation Index";
   VStr "Rating"; VStr "Notes"; VStr "Tags"; VStr "Timestamp"].

(** The array pushed onto [rows] for one annotation. *)
Definition annotation_row (thread : Value) (index : nat) (annotation : Value)
  : Result (list Value) :=
  rating ← prop "rating" annotation;
  let notes := get "notes" annotation in
  notes_cell ←
    (if truthy notes then
       match notes with
       | VStr s => Ok (VStr (String dquote (replace_quotes s +:+ String dquote EmptyString)))
       | _ => Err TypeError
       end
     else Ok (VStr EmptyString));
  let tags := get "tags" annotation in
  tags_cell ←
    (if truthy tags then
       match tags with
       | VArr ts => Ok (VStr (join ";" ts))
       | _ => Err TypeError
       end
     else Ok (VStr EmptyString));
  Ok [ get "id" thread;
       js_or (get "title" thread) (VStr ("Thread " +:+ to_str (get "id" thread)));
       VNum (Z.of_nat index);
       js_or rating (VStr EmptyString);
       notes_cell;
       tags_cell;
       js_or (get "timestamp" annotation) (VStr EmptyString) ].

(** [annotations.forEach((annotation, index) => rows.push([...]))],
    from position [index] on. *)
Fixpoint push_rows (thread : Value) (annotations : list Value) (index : nat)
    (rows : list (list Value)) : Result (list (list Value)) :=
  match annotations with
  | [] => Ok rows
  | annotation :: rest =>
      row ← annotation_row thread index annotation;
      push_rows thread rest (S index) (rows ++ [row])
  end.

(** [threads.forEach(thread => ...)] with the accumulator [rows]. *)
Fixpoint forEach_thread (threads : list Value) (rows : list (list Value))
  : Result (list (list Value)) :=
  match threads with
  | [] => Ok rows
  | thread :: rest =>
      anns ← prop "annotations" thread;
      if negb (truthy anns) || length_is_zero anns then forEach_thread rest rows
      else
        let annotations := match anns with VArr xs => xs | _ => [anns] end in
        rows' ← push_rows thread annotations 0 rows;
        forEach_thread rest rows'
  end.

Definition convertAnnotationsToCSV (threads : list Value) : Result string :=
  rows ← forEach_thread threads [];
  Ok (String.concat newline (join "," headers :: (join "," <$> rows))).

(** The annotations [forEach] runs over for a thread: none when the thread
    is skipped, the array, or the bare value as a one-element array. *)
Definition iterated (thread : Value) : list Value :=
  let anns := get "annotations" thread in
  if negb (truthy anns) || length_is_zero anns then []
  else match anns with VArr xs => xs | _ => [anns] end.

(** The values the body of the loop can work on: an annotation that is not
    null or undefined, whose notes are falsy or a string and whose tags are
    falsy or an array. *)
Definition annotation_shaped (a : Value) : bool :=
  negb (nullish a)
  && (negb (truthy (get "notes" a)) || match get "notes" a with VStr _ => true | _ => false end)
  && (negb (truthy (get "tags" a)) || isArray (get "tags" a)).

End helpers.

(** *** The export contract in the words of the specification

    These definitions do not follow the code and use none of the functions
    above.  They state the CSV layout over threads and annotations typed as in
    the data model, and are compared with [convertAnnotationsToCSV] below. *)

Module contract.

Record Annotation := {
  rating : string;
  notes : option string;
  tags : list string;
  timestamp : string
}.

Record Thread := {
  id : string;
  title : option string;
  annotations : list Annotation
}.

Definition header_line : string :=
  "Thread ID,Thread Title,Annotation Index,Rating,Notes,Tags,Timestamp".

(** Internal quotes doubled: every double quote twice, every other character
    once. *)
Definition doubled (text : string) : string :=
  String.string_of_list_ascii
    (flat_map (λ c, if Ascii.eqb c dquote then [dquote; dquote] else [c])
              (String.list_ascii_of_string text)).

(** Notes: the empty field when there are none (or they are empty), the text
    between double quotes with the internal quotes doubled otherwise. *)
Definition notes_field (a : Annotation) : string :=
  match notes a with
  | None | Some EmptyString => EmptyString
  | Some text => String dquote (doubled text +:+ String dquote EmptyString)
  end.

(** Tags: joined with semicolons. *)
Definition tags_field (a : Annotation) : string := String.concat ";" (tags a).

(** The title, or the id after the word Thread when there is none. *)
Definition title_field (t : Thread) : string :=
  match title t with
  | None | Some EmptyString => "Thread " +:+ id t
  | Some text => text
  end.

(** The row of one (thread, annotation) pair: seven fields joined with commas. *)
Definition row (t : Thread) (index : nat) (a : Annotation) : string :=
  String.concat ","
    [ id t; title_field t; pretty index; rating a; notes_field a; tags_field a;
      timestamp a ].

(** One row per (thread, annotation) pair, thread by thread. *)
Definition rows (threads : list Thread) : list string :=
  t ← threads; imap (row t) (annotations t).

Definition csv_of (threads : list Thread) : string :=
  String.concat newline (header_line :: rows threads).

(** How the data model appears as JavaScript values.  An optional text is
    absent (undefined or null) or a string; a rating or a timestamp that is
    absent counts as the empty text, absent tags as no tags. *)
Definition optional_text (field : option Value) : option (option string) :=
  match field with
  | None | Some VUndef | Some VNull => Some None
  | Some (VStr text) => Some (Some text)
  | _ => None
  end.

Definition text (field : option Value) : option string :=
  default EmptyString <$> optional_text field.

Definition texts (field : option Value) : option (list string) :=
  match field with
  | None | Some VUndef | Some VNull => Some []
  | Some (VArr xs) =>
      mapM (λ x, match x with VStr text => Some text | _ => None end) xs
  | _ => None
  end.

Definition decode_annotation (v : Value) : option Annotation :=
  match v with
  | VObj fs =>
      rating ← text (fs !! "rating");
      notes ← optional_text (fs !! "notes");
      tags ← texts (fs !! "tags");
      timestamp ← text (fs !! "timestamp");
      Some {| rating := rating; notes := notes; tags := tags;
              timestamp := timestamp |}
  | _ => None
  end.

(** The annotations of a thread: absent, a sequence, or (the legacy shape) a
    single annotation object, which counts as a one-element sequence.  An
    annotation of the data model has no [length] field, so a single object
    with one is not decoded (the code reads [length] from whatever
    [annotations] holds and would take the object for an empty sequence when
    it is 0). *)
Definition decode_annotations (field : option Value) : option (list Annotation) :=
  match field with
  | None | Some VUndef | Some VNull => Some []
  | Some (VArr xs) => mapM decode_annotation xs
  | Some (VObj fs) =>
      match fs !! "length" with
      | None => a ← decode_annotation (VObj fs); Some [a]
      | Some _ => None
      end
  | _ => None
  end.

Definition decode_thread (v : Value) : option Thread :=
  match v with
  | VObj fs =>
      id ← match fs !! "id" with Some (VStr text) => Some text | _ => None end;
      title ← optional_text (fs !! "title");
      annotations ← decode_annotations (fs !! "annotations");
      Some {| id := id; title := title; annotations := annotations |}
  | _ => None
  end.

End contract.



(** ** The world the asynchronous code runs in *)

Module Env.

(** [auth.currentUser] *)
Record User := { email : string; uid : string }.

(** The two values the module variable [currentStorage] takes. *)
Inductive Backend := UseIndexedDB | UseRemote.

(** A collection of records under their primary key.  Thread ids are strings
    throughout the repository, so keys are strings; the other kinds of key
    IndexedDB admits (numbers, dates, arrays) are not represented. *)
Abbreviation Collection := (gmap string Value).

Record World := {
  db_handle : bool;              (* [IndexedDBStorage.db] is set *)
  idb_threads : Collection;      (* object store [threads], key path [id] *)
  currentUser : option User;     (* [auth.currentUser] *)
  currentStorage : Backend;      (* the facade's engine pointer *)
  remote_threads : Collection;   (* Firestore collection [threads] *)
  network_calls : nat;           (* Firestore requests issued so far *)
  faults : list bool;            (* one flag per upcoming I/O step: [true] = it fails *)
  now : string;                  (* [new Date().toISOString()] *)
  server_now : string            (* what [serverTimestamp()] resolves to *)
}.

Definition set_db_handle (b : bool) (w : World) : World :=
  {| db_handle := b; idb_threads := idb_threads w; currentUser := currentUser w;
     currentStorage := currentStorage w; remote_threads := remote_threads w;
     network_calls := network_calls w; faults := faults w; now := now w;
     server_now := server_now w |}.

Definition set_idb_threads (m : Collection) (w : World) : World :=
  {| db_handle := db_handle w; idb_threads := m; currentUser := currentUser w;
     currentStorage := currentStorage w; remote_threads := remote_threads w;
     network_calls := network_calls w; faults := faults w; now := now w;
     server_now := server_now w |}.

Definition set_remote_threads (m : Collection) (w : World) : World :=
  {| db_handle := db_handle w; idb_threads := idb_threads w; currentUser := currentUser w;
     currentStorage := currentStorage w; remote_threads := m;
     network_calls := network_calls w; faults := faults w; now := now w;
     server_now := server_now w |}.

Definition set_network_calls (n : nat) (w : World) : World :=
  {| db_handle := db_handle w; idb_threads := idb_threads w; currentUser := currentUser w;
     currentStorage := currentStorage w; remote_threads := remote_threads w;
     network_calls := n; faults := faults w; now := now w;
     server_now := server_now w |}.

Definition set_faults (fs : list bool) (w : World) : World :=
  {| db_handle := db_handle w; idb_threads := idb_threads w; currentUser := currentUser w;
     currentStorage := currentStorage w; remote_threads := remote_threads w;
     network_calls := network_calls w; faults := fs; now := now w;
     server_now := server_now w |}.

Definition set_auth (u : option User) (b : Backend) (w : World) : World :=
  {| db_handle := db_handle w; idb_threads := idb_threads w; currentUser := u;
     currentStorage := b; remote_threads := remote_threads w;
     network_calls := network_calls w; faults := faults w; now := now w;
     server_now := server_now w |}.

(** An asynchronous computation: it runs from a world to an outcome and the
    world it leaves behind (also when it is rejected). *)
Definition M (A : Type) : Type := World → Result A * World.

Definition ret {A} (a : A) : M A := λ w, (Ok a, w).

Definition bind {A B} (m : M A) (k : A → M B) : M B := λ w,
  match m w with
  | (Ok a, w') => k a w'
  | (Err e, w') => (Err e, w')
  end.

(** [throw new Error(...)] *)
Definition throw {A} (e : Error) : M A := λ w, (Err e, w).

(** [try { body } catch (error) { handler }] around awaited code. *)
Definition try_catch {A} (body : M A) (handler : Error → M A) : M A := λ w,
  match body w with
  | (Ok a, w') => (Ok a, w')
  | (Err e, w') => handler e w'
  end.

(** An asynchronous function that returns a promise hands it to its caller:
    the promise settles outside every [try] of the function that made it. *)
Definition adopt {A} (m : M (M A)) : M A := bind m (λ promise, promise).

(** A synchronous step that may throw. *)
Definition lift {A} (r : Result A) : M A := λ w, (r, w).

Definition gets {A} (f : World → A) : M A := λ w, (Ok (f w), w).
Definition modify (f : World → World) : M unit := λ w, (Ok (), f w).

(** One I/O step (opening the database, a request, a transaction, a call to
    Firestore): it consumes the next fault flag and is rejected with [e] when
    the flag is set, whatever makes the step fail (the device, the network,
    the service refusing the data).  Without flags left every step succeeds. *)
Definition io (e : Error) : M unit := λ w,
  match faults w with
  | [] => (Ok (), w)
  | failed :: fs =>
      if failed : bool then (Err e, set_faults fs w) else (Ok (), set_faults fs w)
  end.

Global Instance M_ret : MRet M := @ret.
Global Instance M_bind : MBind M := λ A B k m, bind m k.

End Env.
Export Env.

(** ** indexedDBStorage.js: the Local Engine *)

Module IndexedDBStorage.

(** The primary key at key path [id]. *)
Definition key_of (record : Value) : option string :=
  match get "id" record with
  | VStr k => Some k
  | _ => None
  end.

Definition key_le (a b : string * Value) : Prop := String.leb a.1 b.1 = true.

Global Instance key_le_dec a b : Decision (key_le a b).
Proof. unfold key_le. apply _. Defined.

(** [store.getAll()]: every record, in the order of the keys. *)
Definition getAll (store : Collection) : list Value :=
  (merge_sort key_le (map_to_list store)).*2.

(** [store.add(record)]: refused when the record has no key in the key
    domain above, or when its key is taken. *)
Definition add (store : Collection) (record : Value) : Result Collection :=
  match key_of record with
  | None => Err DataError
  | Some k =>
      match store !! k with
      | Some _ => Err ConstraintError
      | None => Ok (<[k := record]> store)
      end
  end.

(** [records.forEach(record => store.add(record))] *)
Fixpoint add_all (store : Collection) (records : list Value) : Result Collection :=
  match records with
  | [] => Ok store
  | record :: rest => store' ← add store record; add_all store' rest
  end.

(** A readwrite transaction on the thread store.  A failed request aborts it
    and nothing is written; [oncomplete] comes with the commit. *)
Definition readwrite (body : Collection → Result Collection) : M unit := λ w,
  match body (idb_threads w) with
  | Err e => (Err e, w)
  | Ok store' => (io TransactionError ;; modify (set_idb_threads store')) w
  end.

(** A request in a readonly transaction on the thread store. *)
Definition readonly {A} (request : Collection → A) : M A :=
  io RequestError ;; gets (λ w, request (idb_threads w)).

Definition init : M unit :=
  opened ← gets db_handle;
  if opened : bool then ret ()
  else io OpenError ;; modify (set_db_handle true).

Definition getThreads : M (list Value) :=
  adopt (try_catch
           (init ;; ret (readonly getAll))
           (λ error, ret (ret []))).

(** The test of [threads.filter(...)] in [saveThreads]. *)
Definition storable (thread : Value) : bool :=
  truthy thread && typeof_object thread && truthy (get "id" thread).

Definition saveThreads (threads : Value) : M bool :=
  match threads with
  | VArr ts =>
      adopt (try_catch
               (init ;;
                let cleanedThreads := filter (λ thread, storable thread = true) ts in
                ret (readwrite (λ _, add_all ∅ cleanedThreads) ;; ret true))
               (λ error, ret (ret false)))
  | _ => ret false
  end.

Definition getThreadById (threadId : string) : M Value :=
  adopt (try_catch
           (init ;;
            ret (readonly (λ store, js_or (default VUndef (store !! threadId)) VNull)))
           (λ error, ret (ret VNull))).

(** The shape of the thread store: every record sits under the key found at
    its key path, and no key is empty (each write path of the engine refuses a
    record whose [id] is falsy). *)
Definition store_wf (store : Collection) : bool :=
  forallb (λ kv, bool_decide (key_of kv.2 = Some kv.1 ∧ kv.1 ≠ EmptyString))
          (map_to_list store).

End IndexedDBStorage.

(** ** firebaseStorage.js: the Remote Engine *)

Module remoteStorage.

(** [doc(db, THREADS_COLLECTION, id)]: the reference of a document of the
    collection.  An id that is not a string makes the client fail with a type
    error; the empty string gives a path with an odd number of segments and
    is refused as an invalid document reference.  The ids of the application
    are single path segments ([thread_<uuid>] or the ids of a CSV file), and
    only those are references into the collection here: an id with a slash
    is refused as well, although the client refuses it only when the path
    has an odd number of segments and otherwise addresses a document of a
    nested collection, which the flat collection of this model does not
    hold. *)
Fixpoint has_slash (s : string) : bool :=
  match s with
  | EmptyString => false
  | String c r => Ascii.eqb c "/"%char || has_slash r
  end.

Definition valid_doc_id (s : string) : bool :=
  negb (String.eqb s EmptyString) && negb (has_slash s).

Definition doc (id : Value) : M string :=
  match id with
  | VStr s => if valid_doc_id s then ret s else throw InvalidDocumentReference
  | _ => throw TypeError
  end.

(** Every Firestore call is one network request, which may be rejected. *)
Definition request : M unit :=
  modify (λ w, set_network_calls (S (network_calls w)) w);;
  io NetworkError.

(** [serverTimestamp()]: the sentinel of the SDK, an object that stands in a
    written document for the time of the server. *)
Definition serverTimestamp : Value :=
  VObj {[ "_methodName" := VStr "serverTimestamp" ]}.

(** An object the code builds with [serverTimestamp()] in it, as a function
    of what stands at the places of the sentinel: the sentinel itself in the
    object the client holds, the time of the server in the document stored. *)
Definition Stamped : Type := Value → Collection.

(** [setDoc(ref, data)]: create or replace the whole document; the server
    puts its time at the places of the sentinel. *)
Definition setDoc (ref : string) (data : Stamped) : M unit :=
  request;;
  modify (λ w, set_remote_threads
                 (<[ref := VObj (data (VStr (server_now w)))]> (remote_threads w)) w).

(** [getDoc(ref)]: the snapshot; [None] when the document does not exist. *)
Definition getDoc (ref : string) : M (option Value) :=
  request;;
  gets (λ w, remote_threads w !! ref).

(** [updateDoc(ref, data)]: merge the fields into an existing document; the
    server puts its time at the places of the sentinel. *)
Definition updateDoc (ref : string) (data : Stamped) : M unit :=
  request;;
  existing ← gets (λ w, remote_threads w !! ref);
  match existing with
  | None => throw NetworkError
  | Some d =>
      modify (λ w, set_remote_threads
                     (<[ref := VObj (data (VStr (server_now w)) ∪ own_props d)]>
                        (remote_threads w)) w)
  end.

(** [deleteDoc(ref)] *)
Definition deleteDoc (ref : string) : M unit :=
  request;;
  modify (λ w, set_remote_threads (delete ref (remote_threads w)) w).

(** The order of [orderBy('updatedAt', 'desc')] on time stamps. *)
Definition newer_first (a b : Value) : Prop :=
  String.leb (to_str (get "updatedAt" b)) (to_str (get "updatedAt" a)) = true.

Global Instance newer_first_dec a b : Decision (newer_first a b).
Proof. unfold newer_first. apply _. Defined.

(** [getDocs(query(collection, orderBy('updatedAt', 'desc')))] followed by
    [snapshot.docs.map(doc => doc.data())]: the documents that carry the
    field, most recently updated first. *)
Definition getDocs_by_updatedAt : M (list Value) :=
  request;;
  gets (λ w, merge_sort newer_first
               (filter (λ d, nullish (get "updatedAt" d) = false)
                       (map_to_list (remote_threads w)).*2)).

(** The guard at the head of every operation. *)
Definition authenticated : M User :=
  user ← gets currentUser;
  match user with
  | None => throw NotAuthenticated
  | Some u => ret u
  end.

Definition saveThread (thread : Value) : M Value :=
  user ← authenticated;
  try_catch
    (id ← lift (prop "id" thread);
     threadRef ← doc id;
     let threadWithMeta : Stamped := λ stamp,
       <["createdAt" := js_or (get "createdAt" thread) stamp]>
       (<["updatedAt" := stamp]>
       (<["lastModifiedByUid" := VStr (uid user)]>
       (<["lastModifiedBy" := VStr (email user)]> (own_props thread)))) in
     setDoc threadRef threadWithMeta;;
     ret (VObj (threadWithMeta serverTimestamp)))
    (λ error, throw error).

Definition getThreads : M (list Value) :=
  user ← authenticated;
  try_catch getDocs_by_updatedAt (λ error, throw error).

Definition getThread (threadId : string) : M Value :=
  user ← authenticated;
  try_catch
    (threadRef ← doc (VStr threadId);
     threadSnap ← getDoc threadRef;
     match threadSnap with
     | None => ret VNull
     | Some threadData => ret threadData
     end)
    (λ error, throw error).

Definition updateThread (threadId : string) (updates : Value) : M bool :=
  user ← authenticated;
  try_catch
    (threadRef ← doc (VStr threadId);
     threadSnap ← getDoc threadRef;
     match threadSnap with
     | None => throw RemoteThreadNotFound
     | Some _ =>
         let updateData : Stamped := λ stamp,
           <["updatedAt" := stamp]>
           (<["lastModifiedByUid" := VStr (uid user)]>
           (<["lastModifiedBy" := VStr (email user)]> (own_props updates))) in
         updateDoc threadRef updateData;;
         ret true
     end)
    (λ error, throw error).

Definition deleteThread (threadId : string) : M bool :=
  user ← authenticated;
  try_catch
    (threadRef ← doc (VStr threadId);
     threadSnap ← getDoc threadRef;
     match threadSnap with
     | None => throw RemoteThreadNotFound
     | Some _ => deleteDoc threadRef;; ret true
     end)
    (λ error, throw error).

(** The body of [for (const thread of threads)] with the accumulator [results]. *)
Fixpoint import_loop (user : User) (threads : list Value) (results : list Value)
  : M (list Value) :=
  match threads with
  | [] => ret results
  | thread :: rest =>
      createdAt ← lift (prop "createdAt" thread);
      let threadWithMeta : Stamped := λ stamp,
        <["createdAt" := js_or createdAt stamp]>
        (<["updatedAt" := stamp]>
        (<["importedByUid" := VStr (uid user)]>
        (<["importedBy" := VStr (email user)]> (own_props thread)))) in
      threadRef ← doc (get "id" thread);
      setDoc threadRef threadWithMeta;;
      import_loop user rest (results ++ [VObj (threadWithMeta serverTimestamp)])
  end.

Definition importThreads (threads : list Value) : M (list Value) :=
  user ← authenticated;
  try_catch (import_loop user threads []) (λ error, throw error).

End remoteStorage.

(** ** storageService.js: the Storage Facade *)

Module storageService.

(** The callback [initStorage] registers with [auth.onAuthStateChanged]. *)
Definition onAuthStateChanged (user : option User) (w : World) : World :=
  match user with
  | Some u => set_auth (Some u) UseRemote w
  | None => set_auth None UseIndexedDB w
  end.

Definition isAuthenticated : M bool :=
  gets (λ w, bool_decide (currentUser w ≠ None)).

(** [threads.findIndex(t => t.id === id)] *)
Fixpoint findIndex (id : string) (threads : list Value) : option nat :=
  match threads with
  | [] => None
  | t :: rest =>
      if is_str id (get "id" t) then Some 0 else S <$> findIndex id rest
  end.

(** [Array.isArray(a) ? a : a ? [a] : []] *)
Definition as_array (annotations : Value) : list Value :=
  match annotations with
  | VArr xs => xs
  | a => if truthy a then [a] else []
  end.

Definition getThreads : M (list Value) :=
  try_catch
    (storage ← gets currentStorage;
     match storage with
     | UseIndexedDB => IndexedDBStorage.getThreads
     | UseRemote => remoteStorage.getThreads
     end)
    (λ error, throw error).

Definition getThread (threadId : string) : M Value :=
  try_catch
    (storage ← gets currentStorage;
     match storage with
     | UseIndexedDB => IndexedDBStorage.getThreadById threadId
     | UseRemote => remoteStorage.getThread threadId
     end)
    (λ error, throw error).

(** [threads[index] = thread] when the index was found, [threads.push(thread)]
    otherwise. *)
Definition put_at (index : option nat) (thread : Value) (threads : list Value)
  : list Value :=
  match index with
  | Some i => <[i := thread]> threads
  | None => threads ++ [thread]
  end.

Definition updateThread (threadId : string) (updates : Value) : M bool :=
  try_catch
    (storage ← gets currentStorage;
     match storage with
     | UseIndexedDB =>
         thread ← IndexedDBStorage.getThreadById threadId;
         if negb (truthy thread) then throw (ThreadNotFound threadId)
         else
           let updatedThread := VObj (spread thread updates) in
           threads ← IndexedDBStorage.getThreads;
           let index := findIndex threadId threads in
           IndexedDBStorage.saveThreads (VArr (put_at index updatedThread threads));;
           ret true
     | UseRemote => remoteStorage.updateThread threadId updates
     end)
    (λ error, throw error).

Definition deleteThread (threadId : string) : M bool :=
  try_catch
    (storage ← gets currentStorage;
     match storage with
     | UseIndexedDB =>
         threads ← IndexedDBStorage.getThreads;
         let filteredThreads :=
           filter (λ t, is_str threadId (get "id" t) = false) threads in
         if bool_decide (length filteredThreads = length threads) then ret false
         else IndexedDBStorage.saveThreads (VArr filteredThreads);; ret true
     | UseRemote => remoteStorage.deleteThread threadId
     end)
    (λ error, throw error).

Definition importThreads (threads : list Value) : M (list Value) :=
  try_catch
    (storage ← gets currentStorage;
     match storage with
     | UseIndexedDB =>
         existingThreads ← IndexedDBStorage.getThreads;
         IndexedDBStorage.saveThreads (VArr (existingThreads ++ threads));;
         ret threads
     | UseRemote => remoteStorage.importThreads threads
     end)
    (λ error, throw error).

Definition updateAnnotation (threadId : string) (annotationData : Value) : M bool :=
  try_catch
    (thread ← getThread threadId;
     if negb (truthy thread) then throw (ThreadNotFound threadId)
     else
       let existingAnnotations := as_array (get "annotations" thread) in
       timestamp ← gets (λ w, VStr (now w));
       let updatedThread :=
         <["annotations" :=
             VArr (existingAnnotations ++
                   [VObj (<["timestamp" := timestamp]> (own_props annotationData))])]>
         (<["isAnnotated" := VBool true]> (own_props thread)) in
       updateThread threadId (VObj updatedThread))
    (λ error, throw error).

Definition deleteAnnotation (threadId : string) (annotationIndex : Z) : M bool :=
  try_catch
    (thread ← getThread threadId;
     if negb (truthy thread) then throw (ThreadNotFound threadId)
     else
       let annotations := as_array (get "annotations" thread) in
       let updatedAnnotations :=
         if bool_decide (annotationIndex < Z.of_nat (length annotations))%Z
         then splice1 annotationIndex annotations
         else annotations in
       let updatedThread :=
         <["isAnnotated" := VBool (bool_decide (0 < length updatedAnnotations))]>
         (<["annotations" := VArr updatedAnnotations]> (own_props thread)) in
       updateThread threadId (VObj updatedThread))
    (λ error, throw error).

Definition syncToRemote : M nat :=
  authed ← isAuthenticated;
  if negb authed then throw NotAuthenticated
  else
    try_catch
      (localThreads ← IndexedDBStorage.getThreads;
       (if bool_decide (0 < length localThreads)
        then remoteStorage.importThreads localThreads;; ret ()
        else ret ());;
       ret (length localThreads))
      (λ error, throw error).

End storageService.

(** ** Notions used in the statements below *)

Module notions.
Import IndexedDBStorage storageService.

(** What no operation changes: the session, the engine pointer and the clocks.
    An opened database handle stays cached, and I/O that cannot fail stays so. *)
Definition evolves (w w' : World) : Prop :=
  currentUser w' = currentUser w ∧ currentStorage w' = currentStorage w
  ∧ now w' = now w ∧ server_now w' = server_now w
  ∧ (db_handle w = true → db_handle w' = true)
  ∧ (faults w = [] → faults w' = []).

(** A step that leaves both collections alone. *)
Definition reads (w w' : World) : Prop :=
  evolves w w' ∧ idb_threads w' = idb_threads w
  ∧ remote_threads w' = remote_threads w.

(** A record with the key it is stored under. *)
Definition entry (record : Value) : string * Value :=
  (default EmptyString (key_of record), record).

(** What a local lookup delivers to the facade. *)
Definition found (store : Collection) (threadId : string) : Value :=
  js_or (default VUndef (store !! threadId)) VNull.

(** The collection [updateThread] hands to [saveThreads]. *)
Definition rewritten (store : Collection) (threadId : string) (updates : Value)
  : list Value :=
  put_at (findIndex threadId (getAll store))
         (VObj (spread (found store threadId) updates)) (getAll store).

(** The thread [updateAnnotation] writes. *)
Definition appended (time : string) (annotationData thread : Value) : Value :=
  VObj (<["annotations" :=
            VArr (as_array (get "annotations" thread)
                  ++ [VObj (<["timestamp" := VStr time]> (own_props annotationData))])]>
        (<["isAnnotated" := VBool true]> (own_props thread))).

(** The thread [deleteAnnotation] writes. *)
Definition removed (annotationIndex : Z) (thread : Value) : Value :=
  let annotations := as_array (get "annotations" thread) in
  let updatedAnnotations :=
    if bool_decide (annotationIndex < Z.of_nat (length annotations))%Z
    then splice1 annotationIndex annotations else annotations in
  VObj (<["isAnnotated" := VBool (bool_decide (0 < length updatedAnnotations))]>
        (<["annotations" := VArr updatedAnnotations]> (own_props thread))).

(** The fields [updateThread] of the Remote Engine sends to [updateDoc]. *)
Definition stamped (user : User) (time : string) (updates : Value) : Collection :=
  <["updatedAt" := VStr time]>
  (<["lastModifiedByUid" := VStr (uid user)]>
  (<["lastModifiedBy" := VStr (email user)]> (own_props updates))).

(** The document [importThreads] of the Remote Engine writes for a thread. *)
Definition imported (user : User) (time : string) (thread : Value) : Value :=
  VObj (<["createdAt" := js_or (get "createdAt" thread) (VStr time)]>
        (<["updatedAt" := VStr time]>
        (<["importedByUid" := VStr (uid user)]>
        (<["importedBy" := VStr (email user)]> (own_props thread))))).

(** The records [saveThreads] keeps all carry a string id. *)
Definition string_ids (threads : list Value) : bool :=
  forallb (λ v, negb (storable v) || bool_decide (is_Some (key_of v))) threads.

(** The records [saveThreads] keeps carry pairwise distinct ids. *)
Definition distinct_ids (threads : list Value) : bool :=
  bool_decide (NoDup (key_of <$> filter (λ v, storable v = true) threads)).

(** Every key of the store is an id the Remote Engine accepts. *)
Definition syncable (store : Collection) : bool :=
  forallb (λ kv, remoteStorage.valid_doc_id kv.1) (map_to_list store).

Definition is_object (v : Value) : bool :=
  match v with VObj _ => true | _ => false end.

(** The collection of the engine the facade currently points at. *)
Definition active_threads (w : World) : Collection :=
  match currentStorage w with
  | UseIndexedDB => idb_threads w
  | UseRemote => remote_threads w
  end.

(** The two annotation mutations of the facade, as data. *)
Inductive AnnotationOp :=
| AppendAnnotation (threadId : string) (annotationData : Value)
| DeleteAnnotation (threadId : string) (annotationIndex : Z).

Definition op_thread (op : AnnotationOp) : string :=
  match op with
  | AppendAnnotation threadId _ => threadId
  | DeleteAnnotation threadId _ => threadId
  end.

Definition run_op (op : AnnotationOp) : M bool :=
  match op with
  | AppendAnnotation threadId annotationData => updateAnnotation threadId annotationData
  | DeleteAnnotation threadId annotationIndex => deleteAnnotation threadId annotationIndex
  end.

(** Running a sequence of mutations, each awaited before the next: the
    outcome of every call and the world it leaves. *)
Fixpoint run_ops (ops : list AnnotationOp) (w : World)
  : list (AnnotationOp * Result bool * World) :=
  match ops with
  | [] => []
  | op :: rest => (op, (run_op op w).1, (run_op op w).2) :: run_ops rest (run_op op w).2
  end.

(** [isAnnotated == (annotations.length > 0)] *)
Definition flag_consistent (thread : Value) : Prop :=
  ∃ xs, get "annotations" thread = VArr xs
        ∧ get "isAnnotated" thread = VBool (bool_decide (0 < length xs)).

End notions.
Export notions.

(** ** Sample worlds *)

Module samples.

Definition alice : User := {| email := "alice@example.com"; uid := "uid-alice" |}.

Definition good : Value := VObj {[ "rating" := VStr "good" ]}.
Definition bad : Value := VObj {[ "rating" := VStr "bad" ]}.

(** A thread without annotations, and one with two. *)
Definition t1 : Value :=
  VObj {[ "id" := VStr "t1"; "isAnnotated" := VBool false;
          "messages" := VArr []; "annotations" := VArr [] ]}.

Definition t2 : Value :=
  VObj {[ "id" := VStr "t2"; "isAnnotated" := VBool true;
          "messages" := VArr []; "annotations" := VArr [good; bad] ]}.

(** A thread whose only annotation has notes with double quotes in them, and
    tags. *)
Definition quoted : Value :=
  VObj {[ "id" := VStr "t3"; "title" := VStr "Quotes";
          "annotations" :=
            VArr [VObj {[ "rating" := VStr "bad";
                          "notes" := VStr ("say " +:+ String dquote ("hi" +:+ String dquote EmptyString));
                          "tags" := VArr [VStr "x"; VStr "y"] ]}] ]}.

(** Nobody is signed in; the facade points at IndexedDB, which holds [t1] and
    [t2]; the remote collection is empty and no I/O step fails. *)
Definition local_world : World :=
  {| db_handle := false;
     idb_threads := {[ "t1" := t1; "t2" := t2 ]};
     currentUser := None;
     currentStorage := UseIndexedDB;
     remote_threads := ∅;
     network_calls := 0;
     faults := [];
     now := "2024-05-01T10:00:00.000Z";
     server_now := "2024-05-01T10:00:01.000Z" |}.

(** Alice is signed in; the facade points at the Remote Engine, which holds
    [t1]; IndexedDB still holds [t1] and [t2]. *)
Definition remote_world : World :=
  {| db_handle := false;
     idb_threads := {[ "t1" := t1; "t2" := t2 ]};
     currentUser := Some alice;
     currentStorage := UseRemote;
     remote_threads := {[ "t1" := t1 ]};
     network_calls := 0;
     faults := [];
     now := "2024-05-01T10:00:00.000Z";
     server_now := "2024-05-01T10:00:01.000Z" |}.

(** The same with the network down: the next request is rejected. *)
Definition offline_world : World := set_faults [true] remote_world.

(** Alice is signed in and the remote collection is empty. *)
Definition empty_remote_world : World := set_remote_threads ∅ remote_world.

(** Two different records that carry the same id. *)
Definition first_a : Value := VObj {[ "id" := VStr "a"; "title" := VStr "first" ]}.
Definition second_a : Value := VObj {[ "id" := VStr "a"; "title" := VStr "second" ]}.

End samples.

Ltac unfold_async :=
  unfold adopt, try_catch, mbind, M_bind, bind, ret, throw, gets, modify, lift in *.

(** ** The rest of helpers.js *)

Module helpers_rest.

(** [text.substring(0, maxLength)] on a text longer than [maxLength]: the
    first [maxLength] characters, none when [maxLength] is negative. *)
Definition prefix (maxLength : Z) (text : string) : string :=
  String.substring 0 (Z.to_nat maxLength) text.

(** [truncateText(text, maxLength)].  The text is a string, as the function
    documents; [None] is a missing (undefined or null) argument. *)
Definition truncateText (text : option string) (maxLength : Z) : string :=
  match text with
  | None => EmptyString
  | Some s =>
      if negb (truthy (VStr s)) then EmptyString
      else if (Z.of_nat (String.length s) <=? maxLength)%Z then s
      else prefix maxLength s +:+ "..."
  end.

(** The data [convertAnnotationsToCSV] throws on, written out shape by shape
    (with none of the tests of the embedding above).

    The annotations the loop runs over: the elements of an array; a single
    object unless its own [length] is 0; a single [true], non-zero number or
    non-empty string; none when [annotations] is missing, undefined, null,
    [false], 0 or the empty string, and none for a thread that is not an
    object. *)
Definition looped (thread : Value) : list Value :=
  match thread with
  | VObj fs =>
      match fs !! "annotations" with
      | Some (VArr annotations) => annotations
      | Some (VObj single) =>
          match single !! "length" with
          | Some (VNum 0) => []
          | _ => [VObj single]
          end
      | Some (VBool true) => [VBool true]
      | Some (VNum n) => if (n =? 0)%Z then [] else [VNum n]
      | Some (VStr text) => if String.eqb text EmptyString then [] else [VStr text]
      | _ => []
      end
  | _ => []
  end.

(** Notes that have no [replace]: [true], a non-zero number, an array or an
    object. *)
Definition bad_notes (field : option Value) : bool :=
  match field with
  | Some (VBool true) | Some (VArr _) | Some (VObj _) => true
  | Some (VNum n) => negb (n =? 0)%Z
  | _ => false
  end.

(** Tags that have no [join]: [true], a non-zero number, a non-empty string or
    an object. *)
Definition bad_tags (field : option Value) : bool :=
  match field with
  | Some (VBool true) | Some (VObj _) => true
  | Some (VNum n) => negb (n =? 0)%Z
  | Some (VStr text) => negb (String.eqb text EmptyString)
  | _ => false
  end.

(** An annotation the body of the loop fails on: null or undefined, or an
    object with such notes or tags. *)
Definition bad_annotation (annotation : Value) : bool :=
  match annotation with
  | VUndef | VNull => true
  | VObj fs => bad_notes (fs !! "notes") || bad_tags (fs !! "tags")
  | _ => false
  end.

(** A thread the export fails on: null or undefined, or with such an
    annotation among those the loop runs over. *)
Definition ill_shaped (thread : Value) : bool :=
  match thread with
  | VUndef | VNull => true
  | _ => existsb bad_annotation (looped thread)
  end.

End helpers_rest.

(** ** The rest of indexedDBStorage.js *)

Module IndexedDBStorage_rest.
Import IndexedDBStorage.

(** [store.put(record)]: insert or replace under the record's key. *)
Definition put (store : Collection) (record : Value) : Result Collection :=
  match key_of record with
  | None => Err DataError
  | Some k => Ok (<[k := record]> store)
  end.

(** [IndexedDBStorage.saveThread]: one readwrite transaction that looks the id
    up and then puts or adds the record; the promise settles with the second
    request. *)
Definition saveThread (thread : Value) : M bool :=
  if negb (truthy thread) || negb (truthy (get "id" thread)) then ret false
  else
    adopt (try_catch
             (init;;
              ret (match key_of thread with
                   | None => throw DataError
                   | Some k =>
                       io RequestError;;
                       existingThread ← gets (λ w, idb_threads w !! k);
                       io RequestError;;
                       store ← gets idb_threads;
                       store' ← lift (match existingThread with
                                      | Some _ => put store thread
                                      | None => add store thread
                                      end);
                       modify (set_idb_threads store');;
                       ret true
                   end))
             (λ error, ret (ret false))).

(** [IndexedDBStorage.deleteThread] *)
Definition deleteThread (threadId : string) : M bool :=
  adopt (try_catch
           (init;;
            ret (io RequestError;;
                 modify (λ w, set_idb_threads (delete threadId (idb_threads w)) w);;
                 ret true))
           (λ error, ret (ret false))).

(** What [IndexedDBStorage.testStorage] reports: [error] stands for the
    message of the error, [testData] for what was read back. *)
Record TestResult := {
  isAvailable : bool;
  isWorking : bool;
  testData : option Value;
  error : option Error
}.

(** The probe record; [timestamp] is the reading of [Date.now()]. *)
Definition probe (timestamp : Z) : Value :=
  VObj {[ "id" := VStr "test-item"; "value" := VStr "test-value";
          "timestamp" := VNum timestamp ]}.

(** [!!readData && readData.value === 'test-value'] *)
Definition read_back_ok (readData : Value) : bool :=
  truthy readData && is_str "test-value" (get "value" readData).

(** [IndexedDBStorage.testStorage]: put the probe, read it back, delete it.
    A failed request resolves the promise with a report; the transaction of a
    failed request is aborted, which undoes the put. *)
Definition testStorage (timestamp : Z) : M TestResult :=
  adopt (try_catch
           (init;;
            ret (try_catch
                   (io RequestError;;
                    store ← gets idb_threads;
                    written ← lift (put store (probe timestamp));
                    io RequestError;;
                    let readData := default VUndef (written !! "test-item") in
                    modify (set_idb_threads (delete "test-item" written));;
                    ret {| isAvailable := true;
                           isWorking := read_back_ok readData;
                           testData := Some readData;
                           error := None |})
                   (λ e, ret {| isAvailable := true; isWorking := false;
                                testData := None; error := Some e |})))
           (λ e, ret (ret {| isAvailable := false; isWorking := false;
                             testData := None; error := Some e |}))).

(** What [getStorageInfo] reports: the counted threads with the storage type,
    or the error text. *)
Record StorageInfo := {
  threadCount : option nat;
  isIndexedDB : bool;
  storageType : option string;
  failure : option string
}.

Definition getStorageInfo : M StorageInfo :=
  try_catch
    (init;;
     threads ← getThreads;
     ret {| threadCount := Some (length threads); isIndexedDB := true;
            storageType := Some "IndexedDB"; failure := None |})
    (λ error, ret {| threadCount := None; isIndexedDB := true;
                     storageType := None;
                     failure := Some "Failed to get storage info" |}).

End IndexedDBStorage_rest.

(** ** The rest of storageService.js *)

Module storageService_rest.
Import storageService.

(** [a === b].  Objects and arrays are compared by reference; the records
    read from a store are fresh copies, so no two of them are the same. *)
Definition strict_eq (a b : Value) : bool :=
  match a, b with
  | VUndef, VUndef | VNull, VNull => true
  | VBool x, VBool y => bool_decide (x = y)
  | VNum x, VNum y => bool_decide (x = y)
  | VStr x, VStr y => String.eqb x y
  | _, _ => false
  end.

(** [threads.findIndex(t => test(t))] *)
Fixpoint findIndex_by (test : Value → bool) (threads : list Value) : option nat :=
  match threads with
  | [] => None
  | t :: rest => if test t then Some 0 else S <$> findIndex_by test rest
  end.

(** [threads.findIndex(t => t.id === thread.id)]: the callback reads
    [thread.id] once for each element it is called on. *)
Definition findIndex_of (thread : Value) (threads : list Value) : Result (option nat) :=
  match threads with
  | [] => Ok None
  | _ => id ← prop "id" thread;
         Ok (findIndex_by (λ t, strict_eq (get "id" t) id) threads)
  end.

Definition saveThread (thread : Value) : M Value :=
  try_catch
    (storage ← gets currentStorage;
     match storage with
     | UseIndexedDB =>
         threads ← IndexedDBStorage.getThreads;
         index ← lift (findIndex_of thread threads);
         IndexedDBStorage.saveThreads (VArr (put_at index thread threads));;
         ret thread
     | UseRemote => remoteStorage.saveThread thread
     end)
    (λ error, throw error).

(** [for (const thread of threads) await remoteStorage.saveThread(thread)] *)
Fixpoint save_each (threads : list Value) : M unit :=
  match threads with
  | [] => ret ()
  | thread :: rest => remoteStorage.saveThread thread;; save_each rest
  end.

(** The elements a [for ... of] loop runs over. *)
Definition iterate (v : Value) : Result (list Value) :=
  match v with
  | VArr xs => Ok xs
  | VStr s => Ok (chars s)
  | _ => Err TypeError
  end.

Definition saveThreads (threads : Value) : M bool :=
  try_catch
    (storage ← gets currentStorage;
     match storage with
     | UseIndexedDB => IndexedDBStorage.saveThreads threads
     | UseRemote =>
         elements ← lift (iterate threads);
         save_each elements;;
         ret true
     end)
    (λ error, ret false).

(** [getStorageType] *)
Definition getStorageType : M string :=
  storage ← gets currentStorage;
  ret (match storage with
       | UseIndexedDB => "Local Storage (IndexedDB)"
       | UseRemote => "Remote Storage (Firebase)"
       end).

(** What [testStorage] of the facade reports; [error] stands for the message
    of the error. *)
Record TestReport := {
  isAvailable : bool;
  testPassed : Value;
  isWorking : bool;
  error : option Error
}.

(** The id and the record of the probe; [ms] is the reading of [Date.now()]. *)
Definition testId (ms : Z) : string := "test-" +:+ pretty ms.

Definition testRecord (ms : Z) (time : string) : Value :=
  VObj {[ "id" := VStr (testId ms); "message" := VStr "Test data";
          "timestamp" := VStr time ]}.

(** [a && b] *)
Definition js_and (a b : Value) : Value := if truthy a then b else a.

(** [retrieved && retrieved.id === testId] *)
Definition passed (ms : Z) (retrieved : Value) : Value :=
  js_and retrieved (VBool (is_str (testId ms) (get "id" retrieved))).

(** [threads.find(t => t.id === id)] *)
Definition find_by_id (id : string) (threads : list Value) : Value :=
  default VUndef (head (filter (λ t, is_str id (get "id" t) = true) threads)).

Definition testStorage (ms : Z) : M TestReport :=
  try_catch
    (time ← gets now;
     let testData := testRecord ms time in
     storage ← gets currentStorage;
     match storage with
     | UseIndexedDB =>
         threads ← IndexedDBStorage.getThreads;
         IndexedDBStorage.saveThreads (VArr (threads ++ [testData]));;
         retrievedThreads ← IndexedDBStorage.getThreads;
         let retrieved := find_by_id (testId ms) retrievedThreads in
         let cleanedThreads :=
           filter (λ t, is_str (testId ms) (get "id" t) = false) retrievedThreads in
         IndexedDBStorage.saveThreads (VArr cleanedThreads);;
         ret {| isAvailable := true; testPassed := passed ms retrieved;
                isWorking := true; error := None |}
     | UseRemote =>
         remoteStorage.saveThread testData;;
         retrieved ← remoteStorage.getThread (testId ms);
         remoteStorage.deleteThread (testId ms);;
         ret {| isAvailable := true; testPassed := passed ms retrieved;
                isWorking := true; error := None |}
     end)
    (λ e, ret {| isAvailable := false; testPassed := VBool false;
                 isWorking := false; error := Some e |}).

End storageService_rest.

(** ** Notions used in the further statements *)

Module notions_rest.
Import storageService storageService_rest.

(** The document [saveThread] of the Remote Engine writes for a thread. *)
Definition saved (user : User) (time : string) (thread : Value) : Value :=
  VObj (<["createdAt" := js_or (get "createdAt" thread) (VStr time)]>
        (<["updatedAt" := VStr time]>
        (<["lastModifiedByUid" := VStr (uid user)]>
        (<["lastModifiedBy" := VStr (email user)]> (own_props thread))))).

(** The objects [saveThread] and [importThreads] of the Remote Engine build
    for a thread, with [stamp] at the places of the sentinel: [saved] and
    [imported] are these objects with the time of the server there, as they
    are stored. *)
Definition saved_with (stamp : Value) (user : User) (thread : Value) : Value :=
  VObj (<["createdAt" := js_or (get "createdAt" thread) stamp]>
        (<["updatedAt" := stamp]>
        (<["lastModifiedByUid" := VStr (uid user)]>
        (<["lastModifiedBy" := VStr (email user)]> (own_props thread))))).

Definition imported_with (stamp : Value) (user : User) (thread : Value) : Value :=
  VObj (<["createdAt" := js_or (get "createdAt" thread) stamp]>
        (<["updatedAt" := stamp]>
        (<["importedByUid" := VStr (uid user)]>
        (<["importedBy" := VStr (email user)]> (own_props thread))))).

(** Time passes: the world with the clock of the client at [time]. *)
Definition set_now (time : string) (w : World) : World :=
  {| db_handle := db_handle w; idb_threads := idb_threads w;
     currentUser := currentUser w; currentStorage := currentStorage w;
     remote_threads := remote_threads w; network_calls := network_calls w;
     faults := faults w; now := time; server_now := server_now w |}.

(** A step that stays on the Local Engine: nothing remote is touched and no
    request is sent. *)
Definition local_step (w w' : World) : Prop :=
  evolves w w' ∧ remote_threads w' = remote_threads w
  ∧ network_calls w' = network_calls w.

(** A step that stays on the Remote Engine: the local database is neither
    opened nor written. *)
Definition remote_step (w w' : World) : Prop :=
  evolves w w' ∧ idb_threads w' = idb_threads w ∧ db_handle w' = db_handle w.

(** Computations all of whose runs, started with the facade pointing at
    [engine], are such steps. *)
Definition stays (engine : Backend) (step : World → World → Prop) {A} (m : M A)
  : Prop :=
  ∀ w, currentStorage w = engine → step w (m w).2.

(** The calls of the facade that go to the active engine, as data. *)
Inductive FacadeCall :=
| CallGetThreads
| CallGetThread (threadId : string)
| CallSaveThread (thread : Value)
| CallSaveThreads (threads : Value)
| CallUpdateThread (threadId : string) (updates : Value)
| CallDeleteThread (threadId : string)
| CallImportThreads (threads : list Value)
| CallUpdateAnnotation (threadId : string) (annotationData : Value)
| CallDeleteAnnotation (threadId : string) (annotationIndex : Z)
| CallTestStorage (ms : Z).

(** The world a call leaves, whatever it answers. *)
Definition world_after (call : FacadeCall) (w : World) : World :=
  match call with
  | CallGetThreads => (getThreads w).2
  | CallGetThread threadId => (getThread threadId w).2
  | CallSaveThread thread => (saveThread thread w).2
  | CallSaveThreads threads => (saveThreads threads w).2
  | CallUpdateThread threadId updates => (updateThread threadId updates w).2
  | CallDeleteThread threadId => (deleteThread threadId w).2
  | CallImportThreads threads => (importThreads threads w).2
  | CallUpdateAnnotation threadId annotationData =>
      (updateAnnotation threadId annotationData w).2
  | CallDeleteAnnotation threadId annotationIndex =>
      (deleteAnnotation threadId annotationIndex w).2
  | CallTestStorage ms => (testStorage ms w).2
  end.

End notions_rest.
Export notions_rest.

(** * Facts about the embedding *)

Module helpers_facts.
Import helpers.

Lemma truthy_not_nullish v : truthy v = true → nullish v = false.
Proof. by destruct v. Qed.

Lemma cell_truthy v : truthy v = true → cell v = to_str v.
Proof. intros H. unfold cell. by rewrite truthy_not_nullish. Qed.

(** The replacement the code asks for is the doubling the contract speaks of. *)
Lemma replace_quotes_doubled text : replace_quotes text = contract.doubled text.
Proof.
  unfold contract.doubled. induction text as [|c r IH]; [done|].
  cbn [replace_quotes String.list_ascii_of_string flat_map].
  destruct (Ascii.eqb c dquote); cbn [app String.string_of_list_ascii]; by rewrite IH.
Qed.

Lemma pretty_index (index : nat) : pretty (Z.of_nat index) = pretty index.
Proof. by destruct index. Qed.

(** The fields of an annotation of the data model, as the code reads them. *)
Lemma text_cell fs k text :
  contract.text (fs !! k) = Some text →
  cell (js_or (get k (VObj fs)) (VStr EmptyString)) = text.
Proof.
  unfold contract.text, contract.optional_text, get.
  destruct (fs !! k) as [[| |b|n|s|xs|fs']|]; cbn; try done; try by intros [= <-].
  intros [= <-]. by destruct s.
Qed.

Lemma notes_cell fs notes :
  contract.optional_text (fs !! "notes") = Some notes →
  (if truthy (get "notes" (VObj fs)) then
     match get "notes" (VObj fs) with
     | VStr s => Ok (VStr (String dquote (replace_quotes s +:+ String dquote EmptyString)))
     | _ => Err TypeError
     end
   else Ok (VStr EmptyString))
  = Ok (VStr match notes with
             | None | Some EmptyString => EmptyString
             | Some text =>
                 String dquote (contract.doubled text +:+ String dquote EmptyString)
             end).
Proof.
  unfold contract.optional_text, get.
  destruct (fs !! "notes") as [[| |b|n|s|xs|fs']|]; cbn; try done; try by intros [= <-].
  intros [= <-]. destruct s; [done|]. cbn [String.eqb negb].
  by rewrite replace_quotes_doubled.
Qed.

Lemma texts_join xs tags :
  mapM (λ x, match x with VStr text => Some text | _ => None end) xs = Some tags →
  join ";" xs = String.concat ";" tags.
Proof.
  intros Hall%mapM_Some_1. unfold join. f_equal.
  induction Hall as [|x text xs tags Hx _ IH]; [done|].
  cbn [fmap list_fmap]. rewrite IH. by destruct x; simplify_eq.
Qed.

Lemma tags_cell fs tags :
  contract.texts (fs !! "tags") = Some tags →
  (if truthy (get "tags" (VObj fs)) then
     match get "tags" (VObj fs) with
     | VArr ts => Ok (VStr (join ";" ts))
     | _ => Err TypeError
     end
   else Ok (VStr EmptyString))
  = Ok (VStr (String.concat ";" tags)).
Proof.
  unfold contract.texts, get.
  destruct (fs !! "tags") as [[| |b|n|s|xs|fs']|]; cbn; try done; try by intros [= <-].
  intros Htags. by rewrite (texts_join _ _ Htags).
Qed.

Lemma title_cell fs t :
  fs !! "id" = Some (VStr (contract.id t)) →
  contract.optional_text (fs !! "title") = Some (contract.title t) →
  cell (js_or (get "title" (VObj fs))
              (VStr ("Thread " +:+ to_str (get "id" (VObj fs)))))
  = contract.title_field t.
Proof.
  unfold contract.optional_text, contract.title_field, get. intros -> Htitle.
  destruct (fs !! "title") as [[| |b|n|s|xs|fs']|]; cbn in Htitle |- *;
    try done; injection Htitle as <-; try done.
  by destruct s.
Qed.

(** One annotation: the array the code pushes, joined, is the row of the
    contract. *)
Lemma annotation_row_line fs t index annotation a :
  fs !! "id" = Some (VStr (contract.id t)) →
  contract.optional_text (fs !! "title") = Some (contract.title t) →
  contract.decode_annotation annotation = Some a →
  ∃ cells, annotation_row (VObj fs) index annotation = Ok cells
           ∧ join "," cells = contract.row t index a.
Proof.
  intros Hid Htitle Hdecode. unfold contract.decode_annotation in Hdecode.
  destruct annotation as [| | | | | |afs]; try done.
  destruct (contract.text (afs !! "rating")) as [rating|] eqn:Hrating; [|done].
  destruct (contract.optional_text (afs !! "notes")) as [notes|] eqn:Hnotes; [|done].
  destruct (contract.texts (afs !! "tags")) as [tags|] eqn:Htags; [|done].
  destruct (contract.text (afs !! "timestamp")) as [timestamp|] eqn:Htime; [|done].
  cbn [mbind option_bind] in Hdecode. injection Hdecode as <-.
  unfold annotation_row, prop. cbn [nullish mbind Result_bind].
  rewrite (notes_cell _ _ Hnotes), (tags_cell _ _ Htags). cbn [mbind Result_bind].
  eexists. split; [done|]. unfold join, contract.row. cbn [fmap list_fmap].
  rewrite (text_cell _ _ _ Hrating), (text_cell _ _ _ Htime), (title_cell _ _ Hid Htitle).
  unfold get. rewrite Hid. cbn [default]. unfold cell at 1 2 3 4.
  cbn [nullish to_str]. by rewrite pretty_index.
Qed.

Lemma push_rows_lines fs t annotations decoded :
  fs !! "id" = Some (VStr (contract.id t)) →
  contract.optional_text (fs !! "title") = Some (contract.title t) →
  Forall2 (λ v a, contract.decode_annotation v = Some a) annotations decoded →
  ∀ index rows,
    ∃ rows', push_rows (VObj fs) annotations index rows = Ok rows'
             ∧ join "," <$> rows'
               = (join "," <$> rows)
                 ++ imap (λ j, contract.row t (index + j)) decoded.
Proof.
  intros Hid Htitle Hall.
  induction Hall as [|v a rest decoded Ha _ IH]; intros index rows.
  - exists rows. by rewrite app_nil_r.
  - destruct (annotation_row_line fs t index v a Hid Htitle Ha) as (cells & Hrow & Hline).
    destruct (IH (S index) (rows ++ [cells])) as (rows' & Hpush & Hlines).
    exists rows'. cbn [push_rows]. rewrite Hrow. cbn [mbind Result_bind].
    split; [done|]. rewrite Hlines, fmap_app. cbn [fmap list_fmap imap].
    rewrite Hline, Nat.add_0_r, <- app_assoc. cbn [app]. do 2 f_equal.
    apply imap_ext. intros j x _. unfold compose. by rewrite Nat.add_succ_r.
Qed.

(** One thread: the annotations the loop runs over are those of the
    contract. *)
Lemma iterated_decoded fs decoded :
  contract.decode_annotations (fs !! "annotations") = Some decoded →
  Forall2 (λ v a, contract.decode_annotation v = Some a) (iterated (VObj fs)) decoded.
Proof.
  unfold contract.decode_annotations, iterated, get. cbv zeta.
  destruct (fs !! "annotations") as [[| |b|n|s|xs|afs]|];
    cbn [default from_option id truthy negb orb length_is_zero];
    try done; try (intros [= <-]; by constructor).
  - intros Hall%mapM_Some_1.
    destruct Hall as [|v a xs decoded Ha Hall]; [by constructor|].
    rewrite bool_decide_eq_false_2 by done. by constructor.
  - destruct (afs !! "length"); [done|].
    destruct (contract.decode_annotation (VObj afs)) as [a|] eqn:Ha; [|done].
    intros [= <-]. by repeat constructor.
Qed.

Lemma forEach_thread_iterated thread rows :
  nullish thread = false →
  forEach_thread [thread] rows = push_rows thread (iterated thread) 0 rows.
Proof.
  intros Hnn. cbn [forEach_thread]. unfold prop, iterated. rewrite Hnn.
  cbn [mbind Result_bind].
  destruct (negb _ || _); [done|]. by destruct (push_rows _ _ _ _).
Qed.

Lemma forEach_thread_cons thread rest rows :
  forEach_thread (thread :: rest) rows
  = rows' ← forEach_thread [thread] rows; forEach_thread rest rows'.
Proof.
  cbn [forEach_thread]. destruct (prop "annotations" thread); [|done].
  cbn [mbind Result_bind]. destruct (negb _ || _); [done|].
  by destruct (push_rows _ _ _ _).
Qed.

Lemma forEach_thread_lines values threads :
  Forall2 (λ v t, contract.decode_thread v = Some t) values threads →
  ∀ rows,
    ∃ rows', forEach_thread values rows = Ok rows'
             ∧ join "," <$> rows' = (join "," <$> rows) ++ contract.rows threads.
Proof.
  induction 1 as [|v t values threads Ht _ IH]; intros rows.
  - exists rows. by rewrite app_nil_r.
  - unfold contract.decode_thread in Ht. destruct v as [| | | | | |fs]; try done.
    destruct (fs !! "id") as [[| | | |id| |]|] eqn:Hid; try done.
    destruct (contract.optional_text (fs !! "title")) as [title|] eqn:Htitle; [|done].
    destruct (contract.decode_annotations (fs !! "annotations")) as [decoded|] eqn:Hanns;
      [|done].
    cbn [mbind option_bind] in Ht. injection Ht as <-.
    rewrite forEach_thread_cons, forEach_thread_iterated by done.
    destruct (push_rows_lines fs
                {| contract.id := id; contract.title := title;
                   contract.annotations := decoded |}
                (iterated (VObj fs)) decoded Hid Htitle
                (iterated_decoded _ _ Hanns) 0 rows) as (rows1 & -> & Hlines).
    cbn [mbind Result_bind]. destruct (IH rows1) as (rows' & -> & Hrows).
    exists rows'. split; [done|]. rewrite Hrows, Hlines, <- app_assoc.
    unfold contract.rows. by rewrite bind_cons.
Qed.

(** C9.  For every sequence of threads of the data model (a string id, an
    optional title, annotations absent or given as a sequence or as a single
    annotation object, each with a rating, optional notes, tags and a
    timestamp; [contract.decode_thread] reads them from the JavaScript
    values),
    [convertAnnotationsToCSV] returns the header line followed by exactly one
    row per (thread, annotation) pair, thread by thread and in the order of
    the annotations, and nothing for a thread without annotations.  Each row
    joins seven fields with commas; the Notes field is empty when there are
    no notes (or only the empty text) and otherwise the notes between double quotes with every
    internal double quote doubled; the Tags field is the tags joined with
    semicolons. *)
Theorem convertAnnotationsToCSV_layout values threads :
  mapM contract.decode_thread values = Some threads →
  convertAnnotationsToCSV values = Ok (contract.csv_of threads)
  ∧ length (contract.rows threads)
    = sum_list ((λ t, length (contract.annotations t)) <$> threads).
Proof.
  intros Hdecode%mapM_Some_1. split.
  - unfold convertAnnotationsToCSV, contract.csv_of.
    destruct (forEach_thread_lines values threads Hdecode []) as (rows & -> & Hrows).
    cbn [mbind Result_bind]. by rewrite Hrows.
  - clear. unfold contract.rows. induction threads as [|t rest IH]; [done|].
    by rewrite bind_cons, length_app, length_imap, IH.
Qed.

Lemma convertAnnotationsToCSV_layout_witness :
  let rated rating :=
    {| contract.rating := rating; contract.notes := None; contract.tags := [];
       contract.timestamp := EmptyString |} in
  let threads :=
    [ {| contract.id := "t2"; contract.title := None;
         contract.annotations := [rated "good"; rated "bad"] |};
      {| contract.id := "t1"; contract.title := None; contract.annotations := [] |};
      {| contract.id := "t3"; contract.title := Some "Quotes";
         contract.annotations :=
           [ {| contract.rating := "bad";
                contract.notes :=
                  Some ("say " +:+ String dquote ("hi" +:+ String dquote EmptyString));
                contract.tags := ["x"; "y"];
                contract.timestamp := EmptyString |} ] |} ] in
  convertAnnotationsToCSV [samples.t2; samples.t1; samples.quoted]
  = Ok (contract.csv_of threads)
  ∧ length (contract.rows threads)
    = sum_list ((λ t, length (contract.annotations t)) <$> threads).
Proof.
  intros rated threads.
  apply (convertAnnotationsToCSV_layout [samples.t2; samples.t1; samples.quoted] threads).
  vm_compute. reflexivity.
Defined.

(** Quoting adds one character per double quote of the notes. *)
Lemma replace_quotes_length s :
  String.length (replace_quotes s) = String.length s + count_quotes s.
Proof.
  induction s as [|c r IH]; [done|]. cbn.
  destruct (Ascii.eqb c dquote); cbn; rewrite IH; lia.
Qed.

End helpers_facts.

(** ** The scenarios of the specification, run on the embedding *)

Module scenarios.
Import IndexedDBStorage storageService.

(** Scenario A: [saveThreads] of one thread into an empty store, then
    [getThreads]. *)
Example scenario_A :
  let w := set_idb_threads ∅ samples.local_world in
  (IndexedDBStorage.saveThreads (VArr [samples.t1]) w).1 = Ok true
  ∧ (getThreads (IndexedDBStorage.saveThreads (VArr [samples.t1]) w).2).1
    = Ok [samples.t1].
Proof. split; vm_compute; reflexivity. Qed.

(** Scenario B: the first annotation of a thread. *)
Example scenario_B :
  let data := VObj {[ "rating" := VStr "good"; "notes" := VStr "ok";
                      "tags" := VArr [VStr "x"] ]} in
  let w := (updateAnnotation "t1" data samples.local_world).2 in
  let t := default VNull (idb_threads w !! "t1") in
  (length (as_array (get "annotations" t)) = 1)
  ∧ get "isAnnotated" t = VBool true
  ∧ get "rating" <$> head (as_array (get "annotations" t)) = Some (VStr "good").
Proof. repeat split; vm_compute; reflexivity. Qed.

(** Scenario C: deleting that annotation again. *)
Example scenario_C :
  let w := (updateAnnotation "t1" samples.good samples.local_world).2 in
  let t := default VNull (idb_threads (deleteAnnotation "t1" 0 w).2 !! "t1") in
  get "annotations" t = VArr [] ∧ get "isAnnotated" t = VBool false.
Proof. split; vm_compute; reflexivity. Qed.

(** Scenario E: an imported thread sits next to the stored ones. *)
Example scenario_E :
  let w := (importThreads [samples.quoted] samples.local_world).2 in
  (getThreads w).1 = Ok [samples.t1; samples.t2; samples.quoted].
Proof. vm_compute. reflexivity. Qed.

(** Appending twice keeps the order of the calls. *)
Example append_order :
  let w := (updateAnnotation "t1" samples.good samples.local_world).2 in
  let t := default VNull (idb_threads (updateAnnotation "t1" samples.bad w).2 !! "t1") in
  get "rating" <$> as_array (get "annotations" t) = [VStr "good"; VStr "bad"].
Proof. vm_compute. reflexivity. Qed.

End scenarios.

Module async_facts.
Import IndexedDBStorage.


Lemma evolves_refl w : evolves w w.
Proof. by repeat split. Qed.

Lemma evolves_trans w1 w2 w3 : evolves w1 w2 → evolves w2 w3 → evolves w1 w3.
Proof.
  intros (?&?&?&?&?&?) (?&?&?&?&?&?). repeat split; try congruence; auto.
Qed.

Lemma reads_refl w : reads w w.
Proof. split; [apply evolves_refl|done]. Qed.

Lemma reads_trans w1 w2 w3 : reads w1 w2 → reads w2 w3 → reads w1 w3.
Proof.
  intros (?&?&?) (?&?&?). split; [by eapply evolves_trans|]. split; congruence.
Qed.

Lemma reads_evolves w w' : reads w w' → evolves w w'.
Proof. by intros [? _]. Qed.


Lemma io_inv e w o w1 :
  io e w = (o, w1) →
  reads w w1 ∧ db_handle w1 = db_handle w ∧ network_calls w1 = network_calls w
  ∧ (o = Ok () ∨ o = Err e ∧ faults w ≠ []) ∧ (faults w = [] → o = Ok ()).
Proof.
  unfold io. destruct (faults w) as [|[] fs] eqn:Ef; intros [= <- <-];
    repeat split; cbn; try done; auto; try congruence.
Qed.

Lemma init_inv w o w1 :
  init w = (o, w1) →
  reads w w1 ∧ network_calls w1 = network_calls w
  ∧ (o = Ok () ∧ db_handle w1 = true
     ∨ o = Err OpenError ∧ db_handle w = false ∧ faults w ≠ [])
  ∧ (faults w = [] → o = Ok ()).
Proof.
  unfold init. unfold_async. destruct (db_handle w) eqn:Ed.
  - intros [= <- <-]. split; [apply reads_refl|]. by repeat split; auto.
  - destruct (io OpenError w) as [[[]|e] w2] eqn:Eio;
      apply io_inv in Eio as ((Hev & Hidb & Hrem) & Hdb & Hnet & Hcases & Hok);
      intros [= <- <-].
    + destruct Hev as (?&?&?&?&?&?). split; [by repeat split; cbn; auto|].
      by repeat split; cbn; auto.
    + destruct Hcases as [|[[= ->] ?]]; [done|].
      split; [done|]. split; [done|]. split; [by right|].
      intros Hf. by specialize (Hok Hf).
Qed.

Lemma getThreads_inv w o w1 :
  getThreads w = (o, w1) →
  reads w w1 ∧ network_calls w1 = network_calls w
  ∧ (o = Ok (getAll (idb_threads w)) ∧ db_handle w1 = true
     ∨ o = Ok [] ∧ db_handle w = false ∧ faults w ≠ []
     ∨ o = Err RequestError ∧ faults w ≠ [])
  ∧ (faults w = [] → o = Ok (getAll (idb_threads w))).
Proof.
  unfold getThreads, readonly. unfold_async.
  destruct (init w) as [[[]|e] w2] eqn:Ei;
    apply init_inv in Ei as (Hr & Hnet & Hcases & Hok).
  - destruct (io RequestError w2) as [[[]|e] w3] eqn:Eio;
      apply io_inv in Eio as (Hr2 & Hdb2 & Hnet2 & Hc2 & Hok2); intros [= <- <-].
    + pose proof (reads_trans _ _ _ Hr Hr2) as Hr3.
      pose proof Hr3 as (_ & Hidb & _). rewrite Hidb.
      split; [done|]. split; [congruence|]. split; [|done].
      left. split; [done|]. destruct Hcases as [[_ ?]|[[=] _]]. congruence.
    + pose proof (reads_trans _ _ _ Hr Hr2) as Hr3.
      destruct Hc2 as [|[[= ->] Hf]]; [done|].
      destruct Hr as ((?&?&?&?&?&Hfs)&?&?).
      split; [done|]. split; [congruence|]. split.
      * right; right. split; [done|]. intros Hf0. auto.
      * intros Hf0. by specialize (Hok2 (Hfs Hf0)).
  - destruct Hcases as [[[=] _]|([= ->] & Hdb & Hf)].
    intros [= <- <-]. split; [done|]. split; [done|]. split; [by right; left|].
    intros Hf0. by specialize (Hok Hf0).
Qed.

Lemma getThreadById_inv threadId w o w1 :
  getThreadById threadId w = (o, w1) →
  reads w w1 ∧ network_calls w1 = network_calls w
  ∧ (o = Ok (js_or (default VUndef (idb_threads w !! threadId)) VNull)
       ∧ db_handle w1 = true
     ∨ o = Ok VNull ∧ db_handle w = false ∧ faults w ≠ []
     ∨ o = Err RequestError ∧ faults w ≠ [])
  ∧ (faults w = [] →
     o = Ok (js_or (default VUndef (idb_threads w !! threadId)) VNull)).
Proof.
  unfold getThreadById, readonly. unfold_async.
  destruct (init w) as [[[]|e] w2] eqn:Ei;
    apply init_inv in Ei as (Hr & Hnet & Hcases & Hok).
  - destruct (io RequestError w2) as [[[]|e] w3] eqn:Eio;
      apply io_inv in Eio as (Hr2 & Hdb2 & Hnet2 & Hc2 & Hok2); intros [= <- <-].
    + pose proof (reads_trans _ _ _ Hr Hr2) as Hr3.
      pose proof Hr3 as (_ & Hidb & _). rewrite Hidb.
      split; [done|]. split; [congruence|]. split; [|done].
      left. split; [done|]. destruct Hcases as [[_ ?]|[[=] _]]. congruence.
    + pose proof (reads_trans _ _ _ Hr Hr2) as Hr3.
      destruct Hc2 as [|[[= ->] Hf]]; [done|].
      destruct Hr as ((?&?&?&?&?&Hfs)&?&?).
      split; [done|]. split; [congruence|]. split.
      * right; right. split; [done|]. intros Hf0. auto.
      * intros Hf0. by specialize (Hok2 (Hfs Hf0)).
  - destruct Hcases as [[[=] _]|([= ->] & Hdb & Hf)].
    intros [= <- <-]. split; [done|]. split; [done|]. split; [by right; left|].
    intros Hf0. by specialize (Hok Hf0).
Qed.

Lemma saveThreads_inv ts w o w1 :
  saveThreads (VArr ts) w = (o, w1) →
  evolves w w1 ∧ remote_threads w1 = remote_threads w
  ∧ network_calls w1 = network_calls w
  ∧ (o = Ok true ∧ db_handle w1 = true
       ∧ add_all ∅ (filter (λ thread, storable thread = true) ts) = Ok (idb_threads w1)
     ∨ o = Ok false ∧ db_handle w = false ∧ idb_threads w1 = idb_threads w
     ∨ (∃ e, o = Err e) ∧ idb_threads w1 = idb_threads w)
  ∧ (faults w = [] →
     match add_all ∅ (filter (λ thread, storable thread = true) ts) with
     | Ok store' => o = Ok true
     | Err e => o = Err e
     end).
Proof.
  unfold saveThreads, readwrite. unfold_async.
  destruct (init w) as [[[]|e] w2] eqn:Ei;
    apply init_inv in Ei as (Hr & Hnet & Hcases & Hok).
  - destruct (add_all ∅ _) as [store'|e] eqn:Eadd.
    + destruct (io TransactionError w2) as [[[]|e] w3] eqn:Eio;
        apply io_inv in Eio as (Hr2 & Hdb2 & Hnet2 & Hc2 & Hok2); intros [= <- <-].
      * pose proof (reads_trans _ _ _ Hr Hr2) as ((?&?&?&?&?&?) & ? & ?).
        split; [by repeat split|]. cbn. split; [done|]. split; [congruence|].
        split; [|done]. left. split; [done|]. split; [|done].
        destruct Hcases as [[_ ?]|[[=] _]]. congruence.
      * pose proof (reads_trans _ _ _ Hr Hr2) as (? & ? & ?).
        destruct Hc2 as [|[[= ->] Hf]]; [done|].
        split; [done|]. split; [done|]. split; [congruence|]. split.
        -- right; right. split; [by eexists|done].
        -- intros Hf0. destruct Hr as ((?&?&?&?&?&Hfs)&?&?).
           by specialize (Hok2 (Hfs Hf0)).
    + intros [= <- <-]. destruct Hr as (? & ? & ?).
      split; [done|]. split; [done|]. split; [done|]. split; [|done].
      right; right. split; [by eexists|done].
  - destruct Hcases as [[[=] _]|([= ->] & Hdb & Hf)].
    intros [= <- <-]. destruct Hr as (? & ? & ?).
    split; [done|]. split; [done|]. split; [done|]. split.
    + right; left. done.
    + intros Hf0. by specialize (Hok Hf0).
Qed.
End async_facts.

Module store_facts.
Import IndexedDBStorage.


Lemma store_wf_lookup store k v :
  store_wf store = true → store !! k = Some v →
  key_of v = Some k ∧ k ≠ EmptyString.
Proof.
  unfold store_wf. rewrite forallb_forall. intros Hwf Hk.
  apply elem_of_map_to_list, list_elem_of_In, Hwf in Hk.
  by apply bool_decide_eq_true in Hk.
Qed.

Lemma store_wf_intro store :
  (∀ k v, store !! k = Some v → key_of v = Some k ∧ k ≠ EmptyString) →
  store_wf store = true.
Proof.
  intros H. unfold store_wf. apply forallb_forall. intros [k v] Hin.
  apply bool_decide_eq_true. apply H.
  by apply elem_of_map_to_list, list_elem_of_In.
Qed.

Lemma key_of_storable v k :
  key_of v = Some k → k ≠ EmptyString → storable v = true.
Proof.
  unfold key_of, storable, get. destruct v; try done.
  destruct (fs !! "id") as [[]|]; cbn; try done. intros [= ->] Hk.
  by destruct k.
Qed.

Lemma key_of_is_str v k id :
  key_of v = Some k → is_str id (get "id" v) = bool_decide (k = id).
Proof.
  unfold key_of. destruct (get "id" v); try done. intros [= ->]. cbn.
  destruct (String.eqb_spec k id); symmetry;
    [by apply bool_decide_eq_true_2|by apply bool_decide_eq_false_2].
Qed.

Lemma entries_map_to_list store :
  store_wf store = true → entry <$> (map_to_list store).*2 = map_to_list store.
Proof.
  intros Hwf. rewrite <- list_fmap_compose.
  rewrite <- (list_fmap_id (map_to_list store)) at 2.
  apply list_fmap_ext. intros i [k v] Hi. cbn. unfold entry.
  apply list_elem_of_lookup_2, elem_of_map_to_list in Hi.
  by destruct (store_wf_lookup _ _ _ Hwf Hi) as [-> _].
Qed.

Lemma getAll_entries store :
  store_wf store = true → entry <$> getAll store ≡ₚ map_to_list store.
Proof.
  intros Hwf. unfold getAll. rewrite merge_sort_Permutation.
  by rewrite entries_map_to_list.
Qed.

Lemma getAll_elem store v :
  store_wf store = true →
  v ∈ getAll store ↔ ∃ k, store !! k = Some v.
Proof.
  intros Hwf. unfold getAll. rewrite merge_sort_Permutation, list_elem_of_fmap.
  split.
  - intros ([k v'] & -> & Hin). exists k. by apply elem_of_map_to_list.
  - intros [k Hk]. exists (k, v). split; [done|]. by apply elem_of_map_to_list.
Qed.

Lemma getAll_key store v :
  store_wf store = true → v ∈ getAll store →
  ∃ k, key_of v = Some k ∧ k ≠ EmptyString ∧ store !! k = Some v.
Proof.
  intros Hwf [k Hk]%getAll_elem; [|done]. exists k.
  by destruct (store_wf_lookup _ _ _ Hwf Hk).
Qed.

Lemma getAll_NoDup store :
  store_wf store = true → NoDup (entry <$> getAll store).*1.
Proof.
  intros Hwf. rewrite (getAll_entries _ Hwf). apply NoDup_fst_map_to_list.
Qed.

Lemma getAll_length store : length (getAll store) = size store.
Proof.
  unfold getAll. by rewrite length_fmap, merge_sort_Permutation, length_map_to_list.
Qed.

Lemma filter_all {A} (P : A → Prop) `{!∀ x, Decision (P x)} (l : list A) :
  (∀ x, x ∈ l → P x) → filter P l = l.
Proof.
  induction l as [|x l IH]; intros Hall; [done|].
  rewrite filter_cons_True by (apply Hall; left).
  f_equal. apply IH. intros y Hy. apply Hall. by right.
Qed.

Lemma getAll_storable store :
  store_wf store = true →
  filter (λ thread, storable thread = true) (getAll store) = getAll store.
Proof.
  intros Hwf. apply filter_all. intros v Hv.
  destruct (getAll_key _ _ Hwf Hv) as (k & Hk & Hne & _).
  by eapply key_of_storable.
Qed.

(** Adding records with fresh, pairwise distinct keys stores them all. *)
Lemma add_all_fresh records : ∀ store,
  Forall (λ v, is_Some (key_of v)) records →
  NoDup (entry <$> records).*1 →
  (∀ v, v ∈ records → store !! (entry v).1 = None) →
  add_all store records = Ok (list_to_map (entry <$> records) ∪ store).
Proof.
  induction records as [|r rest IH]; intros store Hkeys Hnd Hfresh.
  - cbn. by rewrite (left_id_L ∅ (∪)).
  - apply Forall_cons in Hkeys as [[k Hk] Hkeys].
    rewrite !fmap_cons in Hnd. apply NoDup_cons in Hnd as [Hnotin Hnd].
    cbn [add_all]. unfold add. rewrite Hk.
    assert (Hek : (entry r).1 = k) by (unfold entry; by rewrite Hk).
    pose proof (Hfresh r (list_elem_of_here _ _)) as Hr. rewrite Hek in Hr.
    rewrite Hr. cbn [mbind Result_bind].
    rewrite IH; [|done|done|].
    + cbn [fmap list_fmap].
      replace (entry r) with (k, r) by (unfold entry; by rewrite Hk).
      rewrite list_to_map_cons. f_equal.
      rewrite <- insert_union_l. rewrite insert_union_r; [done|].
      apply not_elem_of_list_to_map_1. by rewrite <- Hek.
    + intros v Hv. rewrite lookup_insert_ne.
      * apply Hfresh. by apply list_elem_of_further.
      * intros Heq. apply Hnotin. rewrite Hek, Heq.
        apply list_elem_of_fmap. exists (entry v). split; [done|].
        apply list_elem_of_fmap. by exists v.
Qed.

Lemma add_all_empty records :
  Forall (λ v, is_Some (key_of v)) records →
  NoDup (entry <$> records).*1 →
  add_all ∅ records = Ok (list_to_map (entry <$> records)).
Proof.
  intros Hk Hnd. rewrite add_all_fresh; [|done|done|by intros].
  by rewrite (right_id_L ∅ (∪)).
Qed.

End store_facts.

Module facade_store_facts.
Import IndexedDBStorage storageService store_facts.

Lemma findIndex_split id threads :
  match findIndex id threads with
  | Some i =>
      ∃ l1 t l2, threads = l1 ++ t :: l2 ∧ length l1 = i
                 ∧ is_str id (get "id" t) = true
  | None => Forall (λ v, is_str id (get "id" v) = false) threads
  end.
Proof.
  induction threads as [|t rest IH]; cbn; [done|].
  destruct (is_str id (get "id" t)) eqn:Et.
  - by exists [], t, rest.
  - destruct (findIndex id rest) as [i|]; cbn.
    + destruct IH as (l1 & t' & l2 & -> & <- & Ht'). by exists (t :: l1), t', l2.
    + by constructor.
Qed.

Lemma list_to_map_getAll store :
  store_wf store = true →
  (list_to_map (entry <$> getAll store) : Collection) = store.
Proof.
  intros Hwf. etrans; [|apply list_to_map_to_list].
  apply list_to_map_proper; [by apply getAll_NoDup|by apply getAll_entries].
Qed.

Lemma entry_key v k : key_of v = Some k → entry v = (k, v).
Proof. unfold entry. by intros ->. Qed.

(** Writing back the collection with the record of [threadId] replaced. *)
Lemma saved_put_at store threadId t u :
  store_wf store = true → store !! threadId = Some t → key_of u = Some threadId →
  let threads := put_at (findIndex threadId (getAll store)) u (getAll store) in
  filter (λ thread, storable thread = true) threads = threads
  ∧ add_all ∅ threads = Ok (<[threadId := u]> store).
Proof.
  intros Hwf Ht Hu.
  destruct (store_wf_lookup _ _ _ Hwf Ht) as [Hkt Hne].
  assert (Hin : t ∈ getAll store) by (apply getAll_elem; eauto).
  pose proof (findIndex_split threadId (getAll store)) as Hsplit.
  destruct (findIndex threadId (getAll store)) as [i|].
  2:{ rewrite Forall_forall in Hsplit. specialize (Hsplit _ Hin).
      rewrite (key_of_is_str _ _ _ Hkt), bool_decide_eq_true_2 in Hsplit; done. }
  destruct Hsplit as (l1 & t' & l2 & Hl & <- & Ht').
  assert (Hkt' : key_of t' = Some threadId).
  { assert (Hin' : t' ∈ getAll store)
      by (rewrite Hl; apply elem_of_app; right; by left).
    destruct (getAll_key _ _ Hwf Hin') as (k & Hk & _ & _).
    rewrite (key_of_is_str _ _ _ Hk) in Ht'.
    apply bool_decide_eq_true in Ht'. by subst. }
  pose proof (getAll_NoDup _ Hwf) as Hnd.
  pose proof (list_to_map_getAll _ Hwf) as Hmap.
  assert (Hkeys : ∀ v, v ∈ getAll store → ∃ k, key_of v = Some k ∧ k ≠ EmptyString).
  { intros v Hv. destruct (getAll_key _ _ Hwf Hv) as (k & ? & ? & _). eauto. }
  rewrite Hl in Hnd, Hmap, Hkeys. cbn zeta. rewrite Hl. cbn [put_at].
  replace (length l1) with (length l1 + 0) by lia. rewrite insert_app_r. cbn [insert list_insert].
  assert (Hkeys' : ∀ v, v ∈ l1 ++ u :: l2 → ∃ k, key_of v = Some k ∧ k ≠ EmptyString).
  { intros v [Hv|[->|Hv]%elem_of_cons]%elem_of_app; [|by eauto|];
      apply Hkeys; apply elem_of_app; [by left|right; by right]. }
  split.
  - apply filter_all. intros v Hv. destruct (Hkeys' v Hv) as (k & ? & ?).
    by eapply key_of_storable.
  - rewrite add_all_empty.
    + f_equal. rewrite <- Hmap. rewrite !fmap_app, !fmap_cons.
      rewrite (entry_key _ _ Hu), (entry_key _ _ Hkt').
      rewrite !list_to_map_app, !list_to_map_cons.
      rewrite insert_union_r, insert_insert_eq; [done|].
      apply not_elem_of_list_to_map_1.
      rewrite !fmap_app, !fmap_cons, (entry_key _ _ Hkt') in Hnd.
      apply NoDup_app in Hnd as (_ & Hnd & _). intros Hk. apply (Hnd _ Hk). by left.
    + apply Forall_forall. intros v Hv. destruct (Hkeys' v Hv) as (k & -> & _). by eexists.
    + rewrite !fmap_app, !fmap_cons, (entry_key _ _ Hkt') in Hnd.
      by rewrite !fmap_app, !fmap_cons, (entry_key _ _ Hu).
Qed.

(** Writing back the collection without the records of [threadId]. *)
Lemma saved_filter store threadId :
  store_wf store = true →
  let threads := filter (λ t, is_str threadId (get "id" t) = false) (getAll store) in
  filter (λ thread, storable thread = true) threads = threads
  ∧ add_all ∅ threads = Ok (delete threadId store)
  ∧ (length threads = length (getAll store) ↔ store !! threadId = None).
Proof.
  intros Hwf. cbn zeta.
  set (threads := filter _ (getAll store)).
  assert (Hsub : threads `sublist_of` getAll store) by apply sublist_filter.
  assert (Hkeys : ∀ v, v ∈ threads → ∃ k, key_of v = Some k ∧ k ≠ EmptyString ∧ k ≠ threadId ∧ store !! k = Some v).
  { intros v [Hv Hin]%list_elem_of_filter.
    destruct (getAll_key _ _ Hwf Hin) as (k & Hk & Hne & Hlk). exists k.
    rewrite (key_of_is_str _ _ _ Hk) in Hv. apply bool_decide_eq_false in Hv. done. }
  assert (Hnd : NoDup (entry <$> threads).*1).
  { eapply sublist_NoDup; [by apply getAll_NoDup|]. by do 2 apply fmap_sublist. }
  split; [|split].
  - apply filter_all. intros v Hv. destruct (Hkeys v Hv) as (k & ? & ? & _).
    by eapply key_of_storable.
  - rewrite add_all_empty; [|apply Forall_forall; intros v Hv;
      destruct (Hkeys v Hv) as (k & -> & _); by eexists|done].
    f_equal. apply map_eq. intros k. apply option_eq. intros v.
    rewrite <- elem_of_list_to_map by done.
    rewrite lookup_delete_Some, list_elem_of_fmap. split.
    + intros (v' & Hev & Hv'). destruct (Hkeys v' Hv') as (k' & Hk' & _ & Hne & Hlk).
      rewrite (entry_key _ _ Hk') in Hev. by simplify_eq.
    + intros [Hne Hlk]. exists v.
      destruct (store_wf_lookup _ _ _ Hwf Hlk) as [Hk _].
      split; [by rewrite (entry_key _ _ Hk)|].
      apply list_elem_of_filter. split; [|apply getAll_elem; eauto].
      rewrite (key_of_is_str _ _ _ Hk). by apply bool_decide_eq_false_2.
  - split.
    + intros Hlen. destruct (store !! threadId) as [t|] eqn:Ht; [|done].
      destruct (store_wf_lookup _ _ _ Hwf Ht) as [Hk _].
      assert (Hin : t ∈ getAll store) by (apply getAll_elem; eauto).
      pose proof (length_filter_lt (λ t, is_str threadId (get "id" t) = false) _ _ Hin) as Hlt.
      fold threads in Hlt. rewrite Hlen in Hlt.
      exfalso. apply (Nat.lt_irrefl (length (getAll store))). apply Hlt.
      rewrite (key_of_is_str _ _ _ Hk), bool_decide_eq_true_2; done.
    + intros Hnone. unfold threads. rewrite filter_all; [done|].
      intros v Hv. destruct (getAll_key _ _ Hwf Hv) as (k & Hk & _ & Hlk).
      rewrite (key_of_is_str _ _ _ Hk). apply bool_decide_eq_false_2. congruence.
Qed.

End facade_store_facts.

Module local_facade_facts.
Import IndexedDBStorage storageService async_facts store_facts facade_store_facts.


Lemma found_Some store threadId t :
  store_wf store = true → store !! threadId = Some t →
  found store threadId = t ∧ truthy t = true.
Proof.
  intros Hwf Ht. destruct (store_wf_lookup _ _ _ Hwf Ht) as [Hk Hne].
  assert (truthy t = true) as Htr.
  { pose proof (key_of_storable _ _ Hk Hne) as Hs. unfold storable in Hs.
    by destruct (truthy t). }
  unfold found, js_or. rewrite Ht. cbn. by rewrite Htr.
Qed.

Lemma found_None store threadId :
  store !! threadId = None → found store threadId = VNull.
Proof. unfold found. by intros ->. Qed.

Lemma found_truthy store threadId :
  truthy (found store threadId) = true →
  store !! threadId = Some (found store threadId).
Proof.
  unfold found, js_or. destruct (store !! threadId) as [t|]; cbn; [|done].
  by destruct (truthy t).
Qed.

Lemma getThread_local_inv threadId w o w1 :
  currentStorage w = UseIndexedDB →
  getThread threadId w = (o, w1) →
  reads w w1 ∧ network_calls w1 = network_calls w
  ∧ (o = Ok (found (idb_threads w) threadId) ∧ db_handle w1 = true
     ∨ o = Ok VNull ∧ db_handle w = false ∧ faults w ≠ []
     ∨ o = Err RequestError ∧ faults w ≠ [])
  ∧ (faults w = [] → o = Ok (found (idb_threads w) threadId)).
Proof.
  intros Hlocal. unfold getThread. unfold_async. rewrite Hlocal.
  destruct (getThreadById threadId w) as [[v|e] w2] eqn:E; intros [= <- <-];
    by apply getThreadById_inv in E.
Qed.

Lemma getThreads_local_inv w o w1 :
  currentStorage w = UseIndexedDB →
  storageService.getThreads w = (o, w1) →
  reads w w1 ∧ network_calls w1 = network_calls w
  ∧ (o = Ok (getAll (idb_threads w)) ∧ db_handle w1 = true
     ∨ o = Ok [] ∧ db_handle w = false ∧ faults w ≠ []
     ∨ o = Err RequestError ∧ faults w ≠ [])
  ∧ (faults w = [] → o = Ok (getAll (idb_threads w))).
Proof.
  intros Hlocal. unfold storageService.getThreads. unfold_async. rewrite Hlocal.
  destruct (IndexedDBStorage.getThreads w) as [[v|e] w2] eqn:E; intros [= <- <-];
    by apply getThreads_inv in E.
Qed.


Lemma updateThread_local_inv threadId updates w o w1 :
  currentStorage w = UseIndexedDB →
  updateThread threadId updates w = (o, w1) →
  evolves w w1 ∧ remote_threads w1 = remote_threads w
  ∧ network_calls w1 = network_calls w
  ∧ ((∃ e, o = Err e) ∧ idb_threads w1 = idb_threads w
     ∨ o = Ok true ∧ truthy (found (idb_threads w) threadId) = true
       ∧ add_all ∅ (filter (λ thread, storable thread = true)
                           (rewritten (idb_threads w) threadId updates))
         = Ok (idb_threads w1))
  ∧ (faults w = [] →
     if truthy (found (idb_threads w) threadId) then
       match add_all ∅ (filter (λ thread, storable thread = true)
                               (rewritten (idb_threads w) threadId updates)) with
       | Ok _ => o = Ok true
       | Err e => o = Err e
       end
     else o = Err (ThreadNotFound threadId)).
Proof.
  intros Hlocal. unfold updateThread. unfold_async. rewrite Hlocal.
  destruct (getThreadById threadId w) as [[thread|e] w2] eqn:E1;
    apply getThreadById_inv in E1 as (Hr1 & Hn1 & Hc1 & Hok1).
  2:{ intros [= <- <-]. destruct Hr1 as (? & ? & ?).
      split; [done|]. split; [done|]. split; [done|]. split; [left; eauto|].
      intros Hf. by specialize (Hok1 Hf). }
  fold (found (idb_threads w) threadId) in Hc1, Hok1.
  destruct (truthy thread) eqn:Htruthy; cbn [negb].
  2:{ intros [= <- <-]. destruct Hr1 as (? & ? & ?).
      split; [done|]. split; [done|]. split; [done|]. split; [left; eauto|].
      intros Hf. specialize (Hok1 Hf). injection Hok1 as <-. by rewrite Htruthy. }
  destruct Hc1 as [[[= ->] Hdb1]|[[[= ->] _]|[[=] _]]]; [|done].
  destruct (IndexedDBStorage.getThreads w2) as [[threads|e] w3] eqn:E2;
    apply getThreads_inv in E2 as (Hr2 & Hn2 & Hc2 & Hok2).
  2:{ intros [= <- <-]. destruct (reads_trans _ _ _ Hr1 Hr2) as (? & ? & ?).
      split; [done|]. split; [done|]. split; [congruence|]. split; [left; eauto|].
      intros Hf. destruct Hr1 as ((_&_&_&_&_&Hfs)&_&_). by specialize (Hok2 (Hfs Hf)). }
  destruct Hc2 as [[[= ->] Hdb2]|[([= ->] & Hdb2 & _)|[[=] _]]]; [|congruence].
  pose proof Hr1 as (_ & Hidb1 & _). rewrite Hidb1.
  fold (rewritten (idb_threads w) threadId updates).
  destruct (saveThreads _ w3) as [[saved|e] w4] eqn:E3;
    apply saveThreads_inv in E3 as (Hev3 & Hrem3 & Hn3 & Hc3 & Hok3);
    intros [= <- <-].
  - pose proof (reads_trans _ _ _ Hr1 Hr2) as (Hev12 & Hidb12 & Hrem12).
    split; [by eapply evolves_trans|]. split; [congruence|]. split; [congruence|].
    split.
    + right. split; [done|]. split; [done|].
      destruct Hc3 as [(_ & _ & Hadd)|[(_ & Hdb3 & _)|([e [=]] & _)]]; [done|congruence].
    + intros Hf. rewrite Htruthy.
      destruct Hr1 as ((_&_&_&_&_&Hfs1)&_&_), Hr2 as ((_&_&_&_&_&Hfs2)&_&_).
      specialize (Hok3 (Hfs2 (Hfs1 Hf))). by destruct (add_all _ _).
  - pose proof (reads_trans _ _ _ Hr1 Hr2) as (Hev12 & Hidb12 & Hrem12).
    split; [by eapply evolves_trans|]. split; [congruence|]. split; [congruence|].
    split.
    + left. split; [eauto|].
      destruct Hc3 as [([=] & _)|[([=] & _)|(_ & ->)]]. done.
    + intros Hf. rewrite Htruthy.
      destruct Hr1 as ((_&_&_&_&_&Hfs1)&_&_), Hr2 as ((_&_&_&_&_&Hfs2)&_&_).
      specialize (Hok3 (Hfs2 (Hfs1 Hf))). by destruct (add_all _ _).
Qed.

End local_facade_facts.

Module annotation_local_facts.
Import IndexedDBStorage storageService.
Import async_facts store_facts facade_store_facts local_facade_facts.

Lemma insert2_union_absorb (m : Collection) k1 v1 k2 v2 :
  <[k1:=v1]> (<[k2:=v2]> m) ∪ m = <[k1:=v1]> (<[k2:=v2]> m).
Proof.
  apply map_eq. intros k. rewrite lookup_union.
  destruct (decide (k1 = k)) as [->|]; [by rewrite lookup_insert_eq; destruct (m !! k)|].
  rewrite lookup_insert_ne by done.
  destruct (decide (k2 = k)) as [->|]; [by rewrite lookup_insert_eq; destruct (m !! k)|].
  rewrite lookup_insert_ne by done. by destruct (m !! k).
Qed.

Lemma key_of_object v k : key_of v = Some k → ∃ fs, v = VObj fs.
Proof. unfold key_of, get. destruct v; try done. eauto. Qed.

Lemma key_of_insert2 t k k1 v1 k2 v2 :
  key_of t = Some k → k1 ≠ "id" → k2 ≠ "id" →
  key_of (VObj (<[k1:=v1]> (<[k2:=v2]> (own_props t)))) = Some k.
Proof.
  intros Hk H1 H2. destruct (key_of_object _ _ Hk) as [fs ->].
  unfold key_of, get in *. cbn [own_props]. by rewrite !lookup_insert_ne.
Qed.

Lemma store_wf_insert store k v :
  store_wf store = true → key_of v = Some k → k ≠ EmptyString →
  store_wf (<[k:=v]> store) = true.
Proof.
  intros Hwf Hk Hne. apply store_wf_intro. intros k' v' Hlk.
  apply lookup_insert_Some in Hlk as [[<- <-]|[_ Hlk]]; [done|].
  by eapply store_wf_lookup.
Qed.

(** [updateThread] called with a copy of the stored thread in which two
    properties other than [id] were set. *)
Lemma updateThread_local_edit threadId t k1 v1 k2 v2 w o w1 :
  currentStorage w = UseIndexedDB → store_wf (idb_threads w) = true →
  idb_threads w !! threadId = Some t → k1 ≠ "id" → k2 ≠ "id" →
  let edited := VObj (<[k1:=v1]> (<[k2:=v2]> (own_props t))) in
  updateThread threadId edited w = (o, w1) →
  evolves w w1 ∧ remote_threads w1 = remote_threads w
  ∧ network_calls w1 = network_calls w
  ∧ ((∃ e, o = Err e) ∧ idb_threads w1 = idb_threads w
     ∨ o = Ok true ∧ idb_threads w1 = <[threadId := edited]> (idb_threads w))
  ∧ (faults w = [] → o = Ok true).
Proof.
  intros Hlocal Hwf Ht Hk1 Hk2 edited Hrun.
  apply updateThread_local_inv in Hrun as (Hev & Hrem & Hnet & Hc & Hok); [|done].
  destruct (found_Some _ _ _ Hwf Ht) as [Hfound Htruthy].
  destruct (store_wf_lookup _ _ _ Hwf Ht) as [Hkey Hne].
  assert (Hsave : add_all ∅ (filter (λ thread, storable thread = true)
                     (rewritten (idb_threads w) threadId edited))
                  = Ok (<[threadId := edited]> (idb_threads w))).
  { unfold rewritten. rewrite Hfound. unfold spread, edited. cbn [own_props].
    rewrite insert2_union_absorb.
    destruct (saved_put_at (idb_threads w) threadId t
                (VObj (<[k1:=v1]> (<[k2:=v2]> (own_props t)))) Hwf Ht) as [-> ->];
      [by apply key_of_insert2|done]. }
  rewrite Hfound, Htruthy, Hsave in *.
  split; [done|]. split; [done|]. split; [done|]. split; [|done].
  destruct Hc as [?|(-> & _ & [= <-])]; auto.
Qed.



Lemma updateAnnotation_local_inv threadId annotationData w o w1 :
  currentStorage w = UseIndexedDB → store_wf (idb_threads w) = true →
  updateAnnotation threadId annotationData w = (o, w1) →
  evolves w w1 ∧ remote_threads w1 = remote_threads w
  ∧ network_calls w1 = network_calls w
  ∧ ((∃ e, o = Err e) ∧ idb_threads w1 = idb_threads w
     ∨ o = Ok true ∧ ∃ t, idb_threads w !! threadId = Some t
         ∧ idb_threads w1
           = <[threadId := appended (now w) annotationData t]> (idb_threads w))
  ∧ (faults w = [] →
     match idb_threads w !! threadId with
     | Some _ => o = Ok true
     | None => o = Err (ThreadNotFound threadId)
     end).
Proof.
  intros Hlocal Hwf. unfold updateAnnotation. unfold_async.
  destruct (getThread threadId w) as [[thread|e] w2] eqn:E1;
    apply getThread_local_inv in E1 as (Hr1 & Hn1 & Hc1 & Hok1); try done.
  2:{ intros [= <- <-]. destruct Hr1 as (? & ? & ?).
      split; [done|]. split; [done|]. split; [done|]. split; [left; eauto|].
      intros Hf. by specialize (Hok1 Hf). }
  destruct (truthy thread) eqn:Htruthy; cbn [negb].
  2:{ intros [= <- <-]. destruct Hr1 as (? & ? & ?).
      split; [done|]. split; [done|]. split; [done|]. split; [left; eauto|].
      intros Hf. specialize (Hok1 Hf). injection Hok1 as ->.
      destruct (idb_threads w !! threadId) as [t|] eqn:Ht; [|done].
      destruct (found_Some _ _ _ Hwf Ht) as [Hfound Htr]. congruence. }
  destruct Hc1 as [[[= ->] Hdb1]|[[[= ->] _]|[[=] _]]]; [|done].
  apply found_truthy in Htruthy as Ht.
  destruct Hr1 as (Hev1 & Hidb1 & Hrem1).
  pose proof Hev1 as (_ & Hcs & Hnow & _ & _ & Hfs).
  destruct (updateThread _ _ w2) as [[b|e] w3] eqn:E2; intros [= <- <-];
    (eapply (updateThread_local_edit threadId (found (idb_threads w) threadId)) in E2
       as (Hev2 & Hrem2 & Hn2 & Hc2 & Hok2); [|congruence..|done|done]).
  all: split; [by eapply evolves_trans|]; split; [congruence|]; split; [congruence|].
  all: rewrite Ht; split; [|intros Hf; apply Hok2; by apply Hfs].
  - destruct Hc2 as [[[e [=]] _]|[[= ->] Hst]]. right. split; [done|].
    eexists. split; [done|]. unfold appended. by rewrite Hst, Hidb1, Hnow.
  - left. split; [eauto|]. destruct Hc2 as [[_ ->]|[[=] _]]. done.
Qed.

Lemma deleteAnnotation_local_inv threadId annotationIndex w o w1 :
  currentStorage w = UseIndexedDB → store_wf (idb_threads w) = true →
  deleteAnnotation threadId annotationIndex w = (o, w1) →
  evolves w w1 ∧ remote_threads w1 = remote_threads w
  ∧ network_calls w1 = network_calls w
  ∧ ((∃ e, o = Err e) ∧ idb_threads w1 = idb_threads w
     ∨ o = Ok true ∧ ∃ t, idb_threads w !! threadId = Some t
         ∧ idb_threads w1
           = <[threadId := removed annotationIndex t]> (idb_threads w))
  ∧ (faults w = [] →
     match idb_threads w !! threadId with
     | Some _ => o = Ok true
     | None => o = Err (ThreadNotFound threadId)
     end).
Proof.
  intros Hlocal Hwf. unfold deleteAnnotation. unfold_async.
  destruct (getThread threadId w) as [[thread|e] w2] eqn:E1;
    apply getThread_local_inv in E1 as (Hr1 & Hn1 & Hc1 & Hok1); try done.
  2:{ intros [= <- <-]. destruct Hr1 as (? & ? & ?).
      split; [done|]. split; [done|]. split; [done|]. split; [left; eauto|].
      intros Hf. by specialize (Hok1 Hf). }
  destruct (truthy thread) eqn:Htruthy; cbn [negb].
  2:{ intros [= <- <-]. destruct Hr1 as (? & ? & ?).
      split; [done|]. split; [done|]. split; [done|]. split; [left; eauto|].
      intros Hf. specialize (Hok1 Hf). injection Hok1 as ->.
      destruct (idb_threads w !! threadId) as [t|] eqn:Ht; [|done].
      destruct (found_Some _ _ _ Hwf Ht) as [Hfound Htr]. congruence. }
  destruct Hc1 as [[[= ->] Hdb1]|[[[= ->] _]|[[=] _]]]; [|done].
  apply found_truthy in Htruthy as Ht.
  destruct Hr1 as (Hev1 & Hidb1 & Hrem1).
  pose proof Hev1 as (_ & Hcs & Hnow & _ & _ & Hfs).
  destruct (updateThread _ _ w2) as [[b|e] w3] eqn:E2; intros [= <- <-];
    (eapply (updateThread_local_edit threadId (found (idb_threads w) threadId)) in E2
       as (Hev2 & Hrem2 & Hn2 & Hc2 & Hok2); [|congruence..|done|done]).
  all: split; [by eapply evolves_trans|]; split; [congruence|]; split; [congruence|].
  all: rewrite Ht; split; [|intros Hf; apply Hok2; by apply Hfs].
  - destruct Hc2 as [[[e [=]] _]|[[= ->] Hst]]. right. split; [done|].
    eexists. split; [done|]. unfold removed. by rewrite Hst, Hidb1.
  - left. split; [eauto|]. destruct Hc2 as [[_ ->]|[[=] _]]. done.
Qed.

End annotation_local_facts.

Module remote_facts.
Import remoteStorage async_facts.

Lemma request_inv w o w1 :
  request w = (o, w1) →
  reads w w1 ∧ db_handle w1 = db_handle w
  ∧ (o = Ok () ∨ o = Err NetworkError ∧ faults w ≠ [])
  ∧ (faults w = [] → o = Ok ()).
Proof.
  unfold request. unfold_async.
  destruct (io NetworkError _) as [[[]|e] w2] eqn:Eio;
    apply io_inv in Eio as (((?&?&?&?&?&?) & ? & ?) & ? & ? & Hc & Hok);
    intros [= <- <-]; cbn in *.
  - split; [by repeat split|]. split; [done|]. split; [by left|done].
  - split; [by repeat split|]. split; [done|].
    destruct Hc as [|[[= ->] ?]]; [done|]. split; [by right|].
    intros Hf. by specialize (Hok Hf).
Qed.

Lemma getDoc_inv ref w o w1 :
  getDoc ref w = (o, w1) →
  reads w w1 ∧ db_handle w1 = db_handle w
  ∧ (o = Ok (remote_threads w !! ref) ∨ o = Err NetworkError ∧ faults w ≠ [])
  ∧ (faults w = [] → o = Ok (remote_threads w !! ref)).
Proof.
  unfold getDoc. unfold_async.
  destruct (request w) as [[[]|e] w2] eqn:E;
    apply request_inv in E as (Hr & Hdb & Hc & Hok); intros [= <- <-].
  - pose proof Hr as (_ & _ & ->). split; [done|]. split; [done|]. split; [by left|done].
  - destruct Hc as [|[[= ->] ?]]; [done|]. split; [done|]. split; [done|].
    split; [by right|]. intros Hf. by specialize (Hok Hf).
Qed.

Lemma setDoc_inv ref data w o w1 :
  setDoc ref data w = (o, w1) →
  evolves w w1 ∧ idb_threads w1 = idb_threads w ∧ db_handle w1 = db_handle w
  ∧ (o = Ok ()
       ∧ remote_threads w1
         = <[ref := VObj (data (VStr (server_now w)))]> (remote_threads w)
     ∨ o = Err NetworkError ∧ faults w ≠ [] ∧ remote_threads w1 = remote_threads w)
  ∧ (faults w = [] → o = Ok ()).
Proof.
  unfold setDoc. unfold_async.
  destruct (request w) as [[[]|e] w2] eqn:E;
    apply request_inv in E as (Hr & Hdb & Hc & Hok); intros [= <- <-].
  - destruct Hr as ((?&?&?&Hsn&?&?) & ? & Hrem). cbn. rewrite Hrem, Hsn.
    split; [by repeat split|]. split; [done|]. split; [done|]. split; [by left|done].
  - destruct Hc as [|[[= ->] ?]]; [done|]. destruct Hr as (? & ? & ?).
    split; [done|]. split; [done|]. split; [done|].
    split; [by right|]. intros Hf. by specialize (Hok Hf).
Qed.

Lemma updateDoc_inv ref data w o w1 :
  updateDoc ref data w = (o, w1) →
  evolves w w1 ∧ idb_threads w1 = idb_threads w ∧ db_handle w1 = db_handle w
  ∧ ((∃ d, o = Ok () ∧ remote_threads w !! ref = Some d
           ∧ remote_threads w1
             = <[ref := VObj (data (VStr (server_now w)) ∪ own_props d)]>
                 (remote_threads w))
     ∨ o = Err NetworkError ∧ remote_threads w1 = remote_threads w)
  ∧ (faults w = [] → is_Some (remote_threads w !! ref) → o = Ok ()).
Proof.
  unfold updateDoc. unfold_async.
  destruct (request w) as [[[]|e] w2] eqn:E;
    apply request_inv in E as (Hr & Hdb & Hc & Hok).
  - pose proof Hr as ((?&?&?&Hsn&?&?) & ? & Hrem). rewrite Hrem.
    destruct (remote_threads w !! ref) as [d|] eqn:Ed; intros [= <- <-]; cbn.
    + split; [by repeat split|]. split; [done|]. split; [done|].
      split; [left; exists d; by rewrite Hrem, Hsn|done].
    + split; [by repeat split|]. split; [done|]. split; [done|].
      split; [by right|]. by intros _ [? [=]].
  - intros [= <- <-]. destruct Hc as [|[[= ->] ?]]; [done|]. destruct Hr as (? & ? & ?).
    split; [done|]. split; [done|]. split; [done|].
    split; [by right|]. intros Hf. by specialize (Hok Hf).
Qed.

Lemma deleteDoc_inv ref w o w1 :
  deleteDoc ref w = (o, w1) →
  evolves w w1 ∧ idb_threads w1 = idb_threads w ∧ db_handle w1 = db_handle w
  ∧ (o = Ok () ∧ remote_threads w1 = delete ref (remote_threads w)
     ∨ o = Err NetworkError ∧ faults w ≠ [] ∧ remote_threads w1 = remote_threads w)
  ∧ (faults w = [] → o = Ok ()).
Proof.
  unfold deleteDoc. unfold_async.
  destruct (request w) as [[[]|e] w2] eqn:E;
    apply request_inv in E as (Hr & Hdb & Hc & Hok); intros [= <- <-].
  - destruct Hr as ((?&?&?&?&?&?) & ? & Hrem). cbn. rewrite Hrem.
    split; [by repeat split|]. split; [done|]. split; [done|]. split; [by left|done].
  - destruct Hc as [|[[= ->] ?]]; [done|]. destruct Hr as (? & ? & ?).
    split; [done|]. split; [done|]. split; [done|].
    split; [by right|]. intros Hf. by specialize (Hok Hf).
Qed.

(** Without a session every operation stops at its guard. *)
Lemma authenticated_None {A} (k : User → M A) w :
  currentUser w = None →
  (authenticated ≫= k) w = (Err NotAuthenticated, w).
Proof. intros Hu. unfold authenticated. unfold_async. by rewrite Hu. Qed.

Lemma authenticated_Some {A} (k : User → M A) w u :
  currentUser w = Some u → (authenticated ≫= k) w = k u w.
Proof. intros Hu. unfold authenticated. unfold_async. by rewrite Hu. Qed.

Lemma getThread_inv threadId w o w1 :
  getThread threadId w = (o, w1) →
  reads w w1 ∧ db_handle w1 = db_handle w
  ∧ ((∃ e, o = Err e) ∨ o = Ok (default VNull (remote_threads w !! threadId)))
  ∧ (faults w = [] → is_Some (currentUser w) → valid_doc_id threadId = true →
     o = Ok (default VNull (remote_threads w !! threadId))).
Proof.
  unfold getThread. destruct (currentUser w) as [u|] eqn:Hu.
  2:{ rewrite authenticated_None by done. intros [= <- <-].
      split; [apply reads_refl|]. split; [done|]. split; [eauto|]. by intros _ [? [=]]. }
  rewrite (authenticated_Some _ _ u) by done. unfold doc. unfold_async.
  destruct (valid_doc_id threadId) eqn:Hv.
  2:{ intros [= <- <-]. split; [apply reads_refl|]. split; [done|]. split; [eauto|]. done. }
  destruct (getDoc threadId w) as [[snap|e] w2] eqn:E;
    apply getDoc_inv in E as (Hr & Hdb & Hc & Hok).
  - destruct Hc as [[= ->]|[[=] _]].
    destruct (remote_threads w !! threadId); intros [= <- <-];
      (split; [done|]; split; [done|]; split; [by right|done]).
  - intros [= <- <-]. split; [done|]. split; [done|]. split; [eauto|].
    intros Hf. by specialize (Hok Hf).
Qed.

Lemma updateThread_inv threadId updates w o w1 :
  updateThread threadId updates w = (o, w1) →
  evolves w w1 ∧ idb_threads w1 = idb_threads w ∧ db_handle w1 = db_handle w
  ∧ ((∃ e, o = Err e) ∧ remote_threads w1 = remote_threads w
     ∨ o = Ok true ∧ ∃ u d, currentUser w = Some u
         ∧ remote_threads w !! threadId = Some d
         ∧ remote_threads w1
           = <[threadId := VObj (stamped u (server_now w) updates ∪ own_props d)]>
               (remote_threads w))
  ∧ (faults w = [] → is_Some (currentUser w) → valid_doc_id threadId = true →
     match remote_threads w !! threadId with
     | Some _ => o = Ok true
     | None => o = Err RemoteThreadNotFound
     end).
Proof.
  unfold updateThread. destruct (currentUser w) as [u|] eqn:Hu.
  2:{ rewrite authenticated_None by done. intros [= <- <-].
      split; [apply evolves_refl|]. split; [done|]. split; [done|].
      split; [left; eauto|]. by intros _ [? [=]]. }
  rewrite (authenticated_Some _ _ u) by done. unfold doc. unfold_async.
  destruct (valid_doc_id threadId) eqn:Hv.
  2:{ intros [= <- <-]. split; [apply evolves_refl|]. split; [done|]. split; [done|].
      split; [left; eauto|]. done. }
  destruct (getDoc threadId w) as [[snap|e] w2] eqn:E;
    apply getDoc_inv in E as (Hr & Hdb & Hc & Hok).
  2:{ intros [= <- <-]. destruct Hr as (? & ? & ?).
      split; [done|]. split; [done|]. split; [done|]. split; [left; eauto|].
      intros Hf. by specialize (Hok Hf). }
  destruct Hc as [[= ->]|[[=] _]].
  destruct (remote_threads w !! threadId) as [d|] eqn:Ed.
  2:{ intros [= <- <-]. destruct Hr as (? & ? & ?).
      split; [done|]. split; [done|]. split; [done|]. split; [left; eauto|]. done. }
  pose proof Hr as ((_ & _ & _ & Hsn & _ & Hfs) & Hidb & Hrem).
  destruct (updateDoc threadId _ w2) as [[[]|e] w3] eqn:E2;
    apply updateDoc_inv in E2 as (Hev2 & Hidb2 & Hdb2 & Hc2 & Hok2);
    intros [= <- <-].
  - split; [eapply evolves_trans; [apply Hr|done]|]. split; [congruence|]. split; [congruence|].
    split; [|done]. right. split; [done|]. exists u, d. split; [done|]. split; [done|].
    destruct Hc2 as [(d' & _ & Hd' & ->)|[[=] _]].
    rewrite Hrem in Hd'. rewrite Hrem, Hsn. unfold stamped. congruence.
  - split; [eapply evolves_trans; [apply Hr|done]|]. split; [congruence|]. split; [congruence|].
    split.
    + left. split; [eauto|]. destruct Hc2 as [(? & [=] & _)|[_ ->]]. done.
    + intros Hf _ _. rewrite Hrem in Hok2. by specialize (Hok2 (Hfs Hf) (mk_is_Some _ _ Ed)).
Qed.

Lemma deleteThread_inv threadId w o w1 :
  deleteThread threadId w = (o, w1) →
  evolves w w1 ∧ idb_threads w1 = idb_threads w ∧ db_handle w1 = db_handle w
  ∧ ((∃ e, o = Err e) ∧ remote_threads w1 = remote_threads w
     ∨ o = Ok true ∧ is_Some (remote_threads w !! threadId)
       ∧ remote_threads w1 = delete threadId (remote_threads w))
  ∧ (faults w = [] → is_Some (currentUser w) → valid_doc_id threadId = true →
     match remote_threads w !! threadId with
     | Some _ => o = Ok true
     | None => o = Err RemoteThreadNotFound
     end).
Proof.
  unfold deleteThread. destruct (currentUser w) as [u|] eqn:Hu.
  2:{ rewrite authenticated_None by done. intros [= <- <-].
      split; [apply evolves_refl|]. split; [done|]. split; [done|].
      split; [left; eauto|]. by intros _ [? [=]]. }
  rewrite (authenticated_Some _ _ u) by done. unfold doc. unfold_async.
  destruct (valid_doc_id threadId) eqn:Hv.
  2:{ intros [= <- <-]. split; [apply evolves_refl|]. split; [done|]. split; [done|].
      split; [left; eauto|]. done. }
  destruct (getDoc threadId w) as [[snap|e] w2] eqn:E;
    apply getDoc_inv in E as (Hr & Hdb & Hc & Hok).
  2:{ intros [= <- <-]. destruct Hr as (? & ? & ?).
      split; [done|]. split; [done|]. split; [done|]. split; [left; eauto|].
      intros Hf. by specialize (Hok Hf). }
  destruct Hc as [[= ->]|[[=] _]].
  destruct (remote_threads w !! threadId) as [d|] eqn:Ed.
  2:{ intros [= <- <-]. destruct Hr as (? & ? & ?).
      split; [done|]. split; [done|]. split; [done|]. split; [left; eauto|]. done. }
  pose proof Hr as ((_ & _ & _ & Hsn & _ & Hfs) & Hidb & Hrem).
  destruct (deleteDoc threadId w2) as [[[]|e] w3] eqn:E2;
    apply deleteDoc_inv in E2 as (Hev2 & Hidb2 & Hdb2 & Hc2 & Hok2);
    intros [= <- <-].
  - split; [eapply evolves_trans; [apply Hr|done]|]. split; [congruence|]. split; [congruence|].
    split; [|done]. right. split; [done|]. split; [done|].
    destruct Hc2 as [[_ ->]|[[=] _]]. by rewrite Hrem.
  - split; [eapply evolves_trans; [apply Hr|done]|]. split; [congruence|]. split; [congruence|].
    split.
    + left. split; [eauto|]. destruct Hc2 as [[[=] _]|(_ & _ & ->)]. done.
    + intros Hf _ _. by specialize (Hok2 (Hfs Hf)).
Qed.

End remote_facts.

Module annotation_remote_facts.
Import storageService async_facts.

Lemma getThread_remote_inv threadId w o w1 :
  currentStorage w = UseRemote →
  getThread threadId w = (o, w1) →
  reads w w1 ∧ db_handle w1 = db_handle w
  ∧ ((∃ e, o = Err e) ∨ o = Ok (default VNull (remote_threads w !! threadId)))
  ∧ (faults w = [] → is_Some (currentUser w) →
     remoteStorage.valid_doc_id threadId = true →
     o = Ok (default VNull (remote_threads w !! threadId))).
Proof.
  intros Hremote. unfold getThread. unfold_async. rewrite Hremote.
  destruct (remoteStorage.getThread threadId w) as [[v|e] w2] eqn:E; intros [= <- <-];
    by apply remote_facts.getThread_inv in E.
Qed.

Lemma updateThread_remote_inv threadId updates w o w1 :
  currentStorage w = UseRemote →
  updateThread threadId updates w = (o, w1) →
  evolves w w1 ∧ idb_threads w1 = idb_threads w ∧ db_handle w1 = db_handle w
  ∧ ((∃ e, o = Err e) ∧ remote_threads w1 = remote_threads w
     ∨ o = Ok true ∧ ∃ u d, currentUser w = Some u
         ∧ remote_threads w !! threadId = Some d
         ∧ remote_threads w1
           = <[threadId := VObj (stamped u (server_now w) updates ∪ own_props d)]>
               (remote_threads w))
  ∧ (faults w = [] → is_Some (currentUser w) →
     remoteStorage.valid_doc_id threadId = true →
     match remote_threads w !! threadId with
     | Some _ => o = Ok true
     | None => o = Err RemoteThreadNotFound
     end).
Proof.
  intros Hremote. unfold updateThread. unfold_async. rewrite Hremote.
  destruct (remoteStorage.updateThread threadId updates w) as [[v|e] w2] eqn:E;
    intros [= <- <-]; by apply remote_facts.updateThread_inv in E.
Qed.

(** Both annotation operations load the thread, build its replacement and
    hand it to [updateThread]; on the Remote Engine: *)
Lemma edit_remote_inv threadId (edit : World → Value → Value) w o w1 :
  currentStorage w = UseRemote →
  (∀ w', evolves w w' → ∀ t, edit w' t = edit w t) →
  try_catch
    (thread ← getThread threadId;
     if negb (truthy thread) then throw (ThreadNotFound threadId)
     else λ w', updateThread threadId (edit w' thread) w')
    (λ error, throw error) w = (o, w1) →
  evolves w w1 ∧ idb_threads w1 = idb_threads w ∧ db_handle w1 = db_handle w
  ∧ ((∃ e, o = Err e) ∧ remote_threads w1 = remote_threads w
     ∨ o = Ok true ∧ ∃ u d, currentUser w = Some u
         ∧ remote_threads w !! threadId = Some d ∧ truthy d = true
         ∧ remote_threads w1
           = <[threadId := VObj (stamped u (server_now w) (edit w d) ∪ own_props d)]>
               (remote_threads w))
  ∧ (faults w = [] → is_Some (currentUser w) →
     remoteStorage.valid_doc_id threadId = true →
     match remote_threads w !! threadId with
     | Some d => truthy d = true → o = Ok true
     | None => o = Err (ThreadNotFound threadId)
     end).
Proof.
  intros Hremote Hedit. unfold_async.
  destruct (getThread threadId w) as [[thread|e] w2] eqn:E1;
    apply getThread_remote_inv in E1 as (Hr1 & Hdb1 & Hc1 & Hok1); try done.
  2:{ intros [= <- <-]. destruct Hr1 as (? & ? & ?).
      split; [done|]. split; [done|]. split; [done|]. split; [left; eauto|].
      intros Hf Hu Hv. by specialize (Hok1 Hf Hu Hv). }
  destruct Hc1 as [[e [=]]|[= ->]].
  pose proof Hr1 as (Hev1 & Hidb1 & Hrem1).
  pose proof Hev1 as (Hu1 & Hcs1 & Hnow1 & Hsn1 & _ & Hfs1).
  destruct (truthy (default VNull (remote_threads w !! threadId))) eqn:Htruthy; cbn [negb].
  2:{ intros [= <- <-].
      split; [done|]. split; [done|]. split; [done|]. split; [left; eauto|].
      intros _ _ _. destruct (remote_threads w !! threadId) as [d|]; [|done].
      cbn in Htruthy. congruence. }
  destruct (remote_threads w !! threadId) as [d|] eqn:Ed; [|done]. cbn in Htruthy |- *.
  rewrite (Hedit w2 Hev1).
  destruct (updateThread _ _ w2) as [[b|e] w3] eqn:E2; intros [= <- <-];
    apply updateThread_remote_inv in E2 as (Hev2 & Hidb2 & Hdb2 & Hc2 & Hok2);
    try congruence.
  all: split; [by eapply evolves_trans|]; split; [congruence|]; split; [congruence|].
  all: rewrite Hrem1, Ed, Hu1 in *.
  - split.
    + destruct Hc2 as [[[e [=]] _]|([= ->] & u & d' & Hu & [= <-] & Hst)].
      right. split; [done|]. exists u, d. by rewrite Hst, Hsn1.
    + intros Hf Hu Hv _. by apply Hok2; auto.
  - split.
    + left. split; [eauto|]. by destruct Hc2 as [[_ ?]|[[=] _]].
    + intros Hf Hu Hv _. by apply Hok2; auto.
Qed.

Lemma updateAnnotation_remote_inv threadId annotationData w o w1 :
  currentStorage w = UseRemote →
  updateAnnotation threadId annotationData w = (o, w1) →
  evolves w w1 ∧ idb_threads w1 = idb_threads w ∧ db_handle w1 = db_handle w
  ∧ ((∃ e, o = Err e) ∧ remote_threads w1 = remote_threads w
     ∨ o = Ok true ∧ ∃ u d, currentUser w = Some u
         ∧ remote_threads w !! threadId = Some d ∧ truthy d = true
         ∧ remote_threads w1
           = <[threadId := VObj (stamped u (server_now w)
                                   (appended (now w) annotationData d)
                                 ∪ own_props d)]>
               (remote_threads w))
  ∧ (faults w = [] → is_Some (currentUser w) →
     remoteStorage.valid_doc_id threadId = true →
     match remote_threads w !! threadId with
     | Some d => truthy d = true → o = Ok true
     | None => o = Err (ThreadNotFound threadId)
     end).
Proof.
  intros Hremote Hrun.
  apply (edit_remote_inv threadId (λ w' t, appended (now w') annotationData t)); try done.
  intros w' (_ & _ & -> & _) t. done.
Qed.

Lemma deleteAnnotation_remote_inv threadId annotationIndex w o w1 :
  currentStorage w = UseRemote →
  deleteAnnotation threadId annotationIndex w = (o, w1) →
  evolves w w1 ∧ idb_threads w1 = idb_threads w ∧ db_handle w1 = db_handle w
  ∧ ((∃ e, o = Err e) ∧ remote_threads w1 = remote_threads w
     ∨ o = Ok true ∧ ∃ u d, currentUser w = Some u
         ∧ remote_threads w !! threadId = Some d ∧ truthy d = true
         ∧ remote_threads w1
           = <[threadId := VObj (stamped u (server_now w) (removed annotationIndex d)
                                 ∪ own_props d)]>
               (remote_threads w))
  ∧ (faults w = [] → is_Some (currentUser w) →
     remoteStorage.valid_doc_id threadId = true →
     match remote_threads w !! threadId with
     | Some d => truthy d = true → o = Ok true
     | None => o = Err (ThreadNotFound threadId)
     end).
Proof.
  intros Hremote Hrun.
  by apply (edit_remote_inv threadId (λ _ t, removed annotationIndex t)).
Qed.

End annotation_remote_facts.

(** * The claims *)

Module annotation_claims.
Import IndexedDBStorage storageService.
Import async_facts store_facts facade_store_facts local_facade_facts.
Import annotation_local_facts annotation_remote_facts.

Lemma get_insert_eq k v (m : Collection) : get k (VObj (<[k:=v]> m)) = v.
Proof. unfold get. by rewrite lookup_insert_eq. Qed.

Lemma get_insert_ne k k' v (m : Collection) :
  k' ≠ k → get k (VObj (<[k':=v]> m)) = get k (VObj m).
Proof. intros. unfold get. by rewrite lookup_insert_ne. Qed.

Lemma flag_appended time annotationData thread :
  flag_consistent (appended time annotationData thread).
Proof.
  eexists. unfold appended, get. rewrite lookup_insert_eq. split; [done|].
  rewrite lookup_insert_ne, lookup_insert_eq by done. cbn.
  rewrite length_app. cbn. f_equal. symmetry. apply bool_decide_eq_true_2. lia.
Qed.

Lemma flag_removed annotationIndex thread :
  flag_consistent (removed annotationIndex thread).
Proof.
  eexists. unfold removed, get.
  rewrite lookup_insert_ne, !lookup_insert_eq by done. done.
Qed.

Lemma get_stamped k user time m d :
  is_Some (m !! k) →
  k ≠ "updatedAt" → k ≠ "lastModifiedByUid" → k ≠ "lastModifiedBy" →
  get k (VObj (stamped user time (VObj m) ∪ own_props d)) = get k (VObj m).
Proof.
  intros [v Hv] H1 H2 H3. unfold get, stamped. cbn [own_props].
  rewrite lookup_union, !lookup_insert_ne, Hv by done.
  by destruct (own_props d !! k).
Qed.

Lemma flag_stamped user time m d :
  flag_consistent (VObj m) →
  flag_consistent (VObj (stamped user time (VObj m) ∪ own_props d)).
Proof.
  intros (xs & Ha & Hf). exists xs.
  rewrite !get_stamped; try done.
  - unfold get in Hf. destruct (m !! "isAnnotated"); [by eexists|done].
  - unfold get in Ha. destruct (m !! "annotations"); [by eexists|done].
Qed.

Lemma key_of_appended time annotationData t k :
  key_of t = Some k → key_of (appended time annotationData t) = Some k.
Proof. intros Hk. by apply key_of_insert2. Qed.

Lemma key_of_removed annotationIndex t k :
  key_of t = Some k → key_of (removed annotationIndex t) = Some k.
Proof. intros Hk. by apply key_of_insert2. Qed.

(** One mutation: the store keeps its shape, the engine pointer stays, and a
    successful call leaves a consistent thread under the id. *)
Lemma run_op_flag op w o w1 :
  store_wf (idb_threads w) = true →
  run_op op w = (o, w1) →
  store_wf (idb_threads w1) = true
  ∧ (∀ b, o = Ok b →
     ∃ t, active_threads w1 !! op_thread op = Some t ∧ flag_consistent t).
Proof.
  intros Hwf Hrun. unfold active_threads.
  destruct (currentStorage w) eqn:Hcs, op as [threadId annotationData|threadId annotationIndex];
    cbn [run_op op_thread] in *.
  - apply updateAnnotation_local_inv in Hrun as ((_ & Hcs1 & _) & _ & _ & Hc & _); try done.
    rewrite Hcs1, Hcs.
    destruct Hc as [[[e ->] ->]|(-> & t & Ht & ->)]; [done|].
    destruct (store_wf_lookup _ _ _ Hwf Ht) as [Hk Hne]. split.
    + apply store_wf_insert; [done| |done]. by apply key_of_appended.
    + intros _ _. eexists. rewrite lookup_insert_eq. split; [done|]. apply flag_appended.
  - apply deleteAnnotation_local_inv in Hrun as ((_ & Hcs1 & _) & _ & _ & Hc & _); try done.
    rewrite Hcs1, Hcs.
    destruct Hc as [[[e ->] ->]|(-> & t & Ht & ->)]; [done|].
    destruct (store_wf_lookup _ _ _ Hwf Ht) as [Hk Hne]. split.
    + apply store_wf_insert; [done| |done]. by apply key_of_removed.
    + intros _ _. eexists. rewrite lookup_insert_eq. split; [done|]. apply flag_removed.
  - apply updateAnnotation_remote_inv in Hrun as ((_ & Hcs1 & _) & -> & _ & Hc & _); try done.
    rewrite Hcs1, Hcs. split; [done|]. intros b ->.
    destruct Hc as [[[e [=]] _]|(_ & u & d & _ & _ & _ & ->)].
    eexists. rewrite lookup_insert_eq. split; [done|].
    apply flag_stamped, flag_appended.
  - apply deleteAnnotation_remote_inv in Hrun as ((_ & Hcs1 & _) & -> & _ & Hc & _); try done.
    rewrite Hcs1, Hcs. split; [done|]. intros b ->.
    destruct Hc as [[[e [=]] _]|(_ & u & d & _ & _ & _ & ->)].
    eexists. rewrite lookup_insert_eq. split; [done|].
    apply flag_stamped, flag_removed.
Qed.

(** C1.  Through any sequence of [updateAnnotation] (the annotation append)
    and [deleteAnnotation] calls on the facade, started from any world whose
    thread store has the shape IndexedDB gives it and under any pattern of I/O
    failures, every call that succeeds leaves in the active engine a thread
    whose [isAnnotated] flag equals [annotations.length > 0]. *)
Theorem isAnnotated_tracks_annotations ops w op b w' :
  store_wf (idb_threads w) = true →
  (op, Ok b, w') ∈ run_ops ops w →
  ∃ thread, active_threads w' !! op_thread op = Some thread
            ∧ flag_consistent thread.
Proof.
  revert w. induction ops as [|op0 rest IH]; intros w Hwf Hin; [by apply elem_of_nil in Hin|].
  cbn [run_ops] in Hin.
  destruct (run_op op0 w) as [o1 w1] eqn:Hrun. cbn [fst snd] in Hin.
  destruct (run_op_flag _ _ _ _ Hwf Hrun) as [Hwf1 Hflag].
  apply elem_of_cons in Hin as [[= -> <- ->]|Hin].
  - by apply (Hflag b).
  - by apply (IH w1).
Qed.

Lemma isAnnotated_tracks_annotations_witness :
  ∃ thread,
    active_threads (run_op (DeleteAnnotation "t2" 0) samples.local_world).2 !! "t2"
      = Some thread
    ∧ flag_consistent thread.
Proof.
  apply (isAnnotated_tracks_annotations
           [DeleteAnnotation "t2" 0] samples.local_world (DeleteAnnotation "t2" 0) true).
  - vm_compute. reflexivity.
  - cbn [run_ops].
    assert ((run_op (DeleteAnnotation "t2" 0) samples.local_world).1 = Ok true) as ->
      by (vm_compute; reflexivity).
    left.
Defined.

(** C2 (the code removes an annotation at a negative index).  On a thread
    with the two annotations [good; bad], [deleteAnnotation] with index [-1]
    succeeds and writes the thread back with the last annotation removed:
    the guard only compares the index with the length, and [splice] counts a
    negative start from the end. *)
Theorem deleteAnnotation_negative_index_removes :
  as_array (get "annotations" samples.t2) = [samples.good; samples.bad]
  ∧ (deleteAnnotation "t2" (-1) samples.local_world).1 = Ok true
  ∧ get "annotations"
      <$> idb_threads (deleteAnnotation "t2" (-1) samples.local_world).2 !! "t2"
    = Some (VArr [samples.good]).
Proof. repeat split; vm_compute; reflexivity. Qed.

(** The part of C2 the code does satisfy: an index at or beyond the length
    leaves the sequence as it is. *)
Lemma removed_beyond_end annotationIndex thread :
  (Z.of_nat (length (as_array (get "annotations" thread))) ≤ annotationIndex)%Z →
  get "annotations" (removed annotationIndex thread)
  = VArr (as_array (get "annotations" thread)).
Proof.
  intros Hge. unfold removed. rewrite get_insert_ne, get_insert_eq by done.
  by rewrite bool_decide_eq_false_2 by lia.
Qed.

(** And what it does below zero: one annotation goes whenever there is one. *)
Lemma removed_negative annotationIndex thread :
  (annotationIndex < 0)%Z →
  ∃ xs, get "annotations" (removed annotationIndex thread) = VArr xs
        ∧ length xs = pred (length (as_array (get "annotations" thread))).
Proof.
  intros Hneg. unfold removed. rewrite get_insert_ne, get_insert_eq by done.
  rewrite bool_decide_eq_true_2 by lia. eexists. split; [done|].
  unfold splice1. rewrite (proj2 (Z.ltb_lt _ _)) by done.
  set (xs := as_array (get "annotations" thread)).
  destruct xs as [|x xs']; [done|]. rewrite length_delete; [cbn; lia|].
  apply lookup_lt_is_Some_2. cbn [length]. lia.
Qed.

(** C7, as the code has it.  Without I/O failures, for a thread stored under
    the id in the active engine, [updateAnnotation] succeeds and writes the
    thread back with its annotations normalized to a sequence and exactly one
    new annotation at the end: the caller's fields with [timestamp] replaced
    by the current time; [isAnnotated] is true, the other fields of the thread
    are kept (the Remote Engine re-stamps its modification fields) and the
    other threads are untouched.  The annotation gets no identity from the
    mutation.  When no thread is stored under the id the call fails with the
    not-found error and changes nothing. *)
Theorem updateAnnotation_appends threadId annotationData w :
  faults w = [] →
  (currentStorage w = UseIndexedDB → store_wf (idb_threads w) = true) →
  (currentStorage w = UseRemote →
   is_Some (currentUser w) ∧ remoteStorage.valid_doc_id threadId = true) →
  (∀ thread,
     active_threads w !! threadId = Some thread → is_object thread = true →
     (updateAnnotation threadId annotationData w).1 = Ok true
     ∧ ∃ thread',
         active_threads (updateAnnotation threadId annotationData w).2 !! threadId
           = Some thread'
         ∧ get "annotations" thread'
           = VArr (as_array (get "annotations" thread)
                   ++ [VObj (<["timestamp" := VStr (now w)]> (own_props annotationData))])
         ∧ get "isAnnotated" thread' = VBool true
         ∧ (∀ k, k ∉ ["annotations"; "isAnnotated"; "updatedAt";
                       "lastModifiedBy"; "lastModifiedByUid"] →
                 get k thread' = get k thread)
         ∧ (∀ id, id ≠ threadId →
                  active_threads (updateAnnotation threadId annotationData w).2 !! id
                  = active_threads w !! id))
  ∧ (active_threads w !! threadId = None →
     (updateAnnotation threadId annotationData w).1 = Err (ThreadNotFound threadId)
     ∧ active_threads (updateAnnotation threadId annotationData w).2 = active_threads w).
Proof.
  intros Hf Hlocal Hremote. unfold active_threads.
  destruct (updateAnnotation threadId annotationData w) as [o w1] eqn:Hrun. cbn [fst snd].
  destruct (currentStorage w) eqn:Hcs.
  - specialize (Hlocal eq_refl).
    apply updateAnnotation_local_inv in Hrun as ((_ & Hcs1 & _) & _ & _ & Hc & Hok); try done.
    rewrite Hcs1, Hcs. specialize (Hok Hf).
    split; [intros thread Ht Hobj|intros Ht]; rewrite Ht in Hok.
    + destruct thread as [| | | | | |fs]; try done. split; [done|].
      rewrite Ht in Hc.
      destruct Hc as [[[e ->] _]|(_ & t & [= <-] & ->)]; [done|].
      eexists. rewrite lookup_insert_eq. split; [done|].
      unfold appended, get. cbn [own_props].
      rewrite lookup_insert_eq. split; [done|].
      rewrite lookup_insert_ne, lookup_insert_eq by done. split; [done|]. split.
      * intros k Hk. rewrite !lookup_insert_ne; [done|..];
          intros <-; apply Hk; repeat constructor.
      * intros id Hid. by rewrite lookup_insert_ne.
    + split; [done|]. destruct Hc as [[_ ->]|(-> & _)]; done.
  - destruct (Hremote eq_refl) as [Hu Hv].
    apply updateAnnotation_remote_inv in Hrun as ((_ & Hcs1 & _) & _ & _ & Hc & Hok); try done.
    rewrite Hcs1, Hcs. specialize (Hok Hf Hu Hv).
    split; [intros thread Ht Hobj|intros Ht]; rewrite Ht in Hok.
    + destruct thread as [| | | | | |fs]; try done.
      specialize (Hok eq_refl). split; [done|]. rewrite Ht in Hc.
      destruct Hc as [[[e ->] _]|(_ & u & d & _ & [= <-] & _ & ->)]; [done|].
      eexists. rewrite lookup_insert_eq. split; [done|].
      unfold appended.
      rewrite get_stamped; [|rewrite lookup_insert_eq; by eexists|done..].
      rewrite get_stamped;
        [|rewrite lookup_insert_ne, lookup_insert_eq by done; by eexists|done..].
      rewrite get_insert_eq. split; [done|].
      rewrite get_insert_ne, get_insert_eq by done. split; [done|]. split.
      * intros k Hk. unfold stamped, get. cbn [own_props].
        assert (∀ k', k' ∈ ["annotations"; "isAnnotated"; "updatedAt";
                            "lastModifiedBy"; "lastModifiedByUid"] → k' ≠ k) as Hne
          by (intros k' Hk' <-; done).
        rewrite lookup_union, !lookup_insert_ne by (apply Hne; repeat constructor).
        by destruct (fs !! k).
      * intros id Hid. by rewrite lookup_insert_ne.
    + split; [done|]. destruct Hc as [[_ ->]|(-> & _)]; done.
Qed.

Lemma updateAnnotation_appends_witness :
  (updateAnnotation "t1" samples.good samples.local_world).1 = Ok true
  ∧ ∃ thread',
      active_threads (updateAnnotation "t1" samples.good samples.local_world).2 !! "t1"
        = Some thread'
      ∧ get "annotations" thread'
        = VArr (as_array (get "annotations" samples.t1)
                ++ [VObj (<["timestamp" := VStr (now samples.local_world)]>
                            (own_props samples.good))])
      ∧ get "isAnnotated" thread' = VBool true
      ∧ (∀ k, k ∉ ["annotations"; "isAnnotated"; "updatedAt";
                    "lastModifiedBy"; "lastModifiedByUid"] →
              get k thread' = get k samples.t1)
      ∧ (∀ id, id ≠ "t1" →
               active_threads (updateAnnotation "t1" samples.good samples.local_world).2 !! id
               = active_threads samples.local_world !! id).
Proof.
  apply (updateAnnotation_appends "t1" samples.good samples.local_world).
  - reflexivity.
  - intros _. vm_compute. reflexivity.
  - intros H. vm_compute in H. discriminate H.
  - vm_compute. reflexivity.
  - reflexivity.
Defined.

(** C7 as stated fails: the mutation stamps the time but no identity.  With
    Alice signed in, the annotation appended to [t1] has exactly the fields
    [rating] (from the caller) and [timestamp]; neither [createdBy] nor
    [createdByUid] is set. *)
Lemma updateAnnotation_stamps_no_identity :
  currentUser samples.remote_world = Some samples.alice
  ∧ (updateAnnotation "t1" samples.good samples.remote_world).1 = Ok true
  ∧ get "annotations"
      <$> remote_threads (updateAnnotation "t1" samples.good samples.remote_world).2 !! "t1"
    = Some (VArr [VObj {[ "rating" := VStr "good";
                          "timestamp" := VStr "2024-05-01T10:00:00.000Z" ]}])
  ∧ get "createdBy" (VObj {[ "rating" := VStr "good";
                             "timestamp" := VStr "2024-05-01T10:00:00.000Z" ]}) = VUndef
  ∧ get "createdByUid" (VObj {[ "rating" := VStr "good";
                                "timestamp" := VStr "2024-05-01T10:00:00.000Z" ]}) = VUndef.
Proof. repeat split; vm_compute; reflexivity. Qed.

End annotation_claims.

Module engine_claims.
Import IndexedDBStorage storageService.
Import async_facts store_facts facade_store_facts local_facade_facts.

(** C5.  Without an authenticated session each of the six operations of the
    Remote Engine is rejected with the authentication error and leaves the
    world as it found it: no request is counted, no fault flag consumed, no
    collection touched. *)
Theorem remote_requires_session w (thread updates : Value) (threads : list Value)
    (threadId : string) :
  currentUser w = None →
  remoteStorage.saveThread thread w = (Err NotAuthenticated, w)
  ∧ remoteStorage.getThreads w = (Err NotAuthenticated, w)
  ∧ remoteStorage.getThread threadId w = (Err NotAuthenticated, w)
  ∧ remoteStorage.updateThread threadId updates w = (Err NotAuthenticated, w)
  ∧ remoteStorage.deleteThread threadId w = (Err NotAuthenticated, w)
  ∧ remoteStorage.importThreads threads w = (Err NotAuthenticated, w).
Proof.
  intros Hu. repeat split; by apply remote_facts.authenticated_None.
Qed.

Lemma remote_requires_session_witness :
  remoteStorage.saveThread samples.t1 samples.local_world
    = (Err NotAuthenticated, samples.local_world)
  ∧ remoteStorage.getThreads samples.local_world
    = (Err NotAuthenticated, samples.local_world)
  ∧ remoteStorage.getThread "t1" samples.local_world
    = (Err NotAuthenticated, samples.local_world)
  ∧ remoteStorage.updateThread "t1" samples.good samples.local_world
    = (Err NotAuthenticated, samples.local_world)
  ∧ remoteStorage.deleteThread "t1" samples.local_world
    = (Err NotAuthenticated, samples.local_world)
  ∧ remoteStorage.importThreads [samples.t1; samples.t2] samples.local_world
    = (Err NotAuthenticated, samples.local_world).
Proof.
  apply (remote_requires_session samples.local_world samples.t1 samples.good
           [samples.t1; samples.t2] "t1").
  reflexivity.
Defined.

(** C10.  On the Local Engine a call of [updateThread] that ends in the
    not-found error has written nothing: the thread store (and everything
    remote) is as before the call.  And the error is what a missing id gives
    when the reads go through. *)
Theorem updateThread_not_found_atomic threadId updates w :
  currentStorage w = UseIndexedDB →
  ((updateThread threadId updates w).1 = Err (ThreadNotFound threadId) →
   idb_threads (updateThread threadId updates w).2 = idb_threads w
   ∧ remote_threads (updateThread threadId updates w).2 = remote_threads w
   ∧ network_calls (updateThread threadId updates w).2 = network_calls w)
  ∧ (idb_threads w !! threadId = None → faults w = [] →
     (updateThread threadId updates w).1 = Err (ThreadNotFound threadId)).
Proof.
  intros Hlocal.
  destruct (updateThread threadId updates w) as [o w1] eqn:Hrun. cbn [fst snd].
  apply updateThread_local_inv in Hrun as (_ & Hrem & Hnet & Hc & Hok); [|done].
  split.
  - intros ->. destruct Hc as [[_ ->]|[[=] _]]. done.
  - intros Hnone Hf. specialize (Hok Hf). by rewrite (found_None _ _ Hnone) in Hok.
Qed.

Lemma updateThread_not_found_atomic_witness :
  (updateThread "t9" samples.good samples.local_world).1 = Err (ThreadNotFound "t9")
  ∧ idb_threads (updateThread "t9" samples.good samples.local_world).2
    = idb_threads samples.local_world.
Proof.
  assert ((updateThread "t9" samples.good samples.local_world).1
          = Err (ThreadNotFound "t9")) as Herr by (vm_compute; reflexivity).
  split; [exact Herr|].
  apply (updateThread_not_found_atomic "t9" samples.good samples.local_world).
  - reflexivity.
  - exact Herr.
Defined.

(** C3, as the code has it.  On the Local Engine, when the database cannot be
    opened, [getThreads] answers with the empty sequence and [getThread] with
    null.  On the Remote Engine the facade hands the failure to its caller:
    the authentication error without a session, the network error when the
    request is rejected. *)
Theorem reads_on_failure threadId w :
  (currentStorage w = UseIndexedDB → db_handle w = false →
   (∃ fs, faults w = true :: fs) →
   (getThreads w).1 = Ok [] ∧ (getThread threadId w).1 = Ok VNull)
  ∧ (currentStorage w = UseRemote → currentUser w = None →
     (getThreads w).1 = Err NotAuthenticated
     ∧ (getThread threadId w).1 = Err NotAuthenticated)
  ∧ (currentStorage w = UseRemote → is_Some (currentUser w) →
     (∃ fs, faults w = true :: fs) → remoteStorage.valid_doc_id threadId = true →
     (getThreads w).1 = Err NetworkError
     ∧ (getThread threadId w).1 = Err NetworkError).
Proof.
  split; [|split].
  - intros Hcs Hdb [fs Hf].
    unfold getThreads, getThread, IndexedDBStorage.getThreads, getThreadById, init, io.
    unfold_async. by rewrite Hcs, Hdb, Hf.
  - intros Hcs Hu. unfold getThreads, getThread. unfold_async. rewrite Hcs.
    fold (@bind User). 
    change (λ w0 : World, (Ok (currentUser w0), w0)) with (gets currentUser).
    unfold remoteStorage.getThreads, remoteStorage.getThread.
    by rewrite !remote_facts.authenticated_None.
  - intros Hcs [u Hu] [fs Hf] Hv.
    unfold getThreads, getThread, remoteStorage.getThreads, remoteStorage.getThread,
      remoteStorage.authenticated, remoteStorage.getDocs_by_updatedAt,
      remoteStorage.getDoc, remoteStorage.doc, remoteStorage.request, io.
    unfold_async. rewrite Hcs, Hu, Hv. cbn. by rewrite Hf.
Qed.

Lemma reads_on_failure_witness :
  (getThreads (set_faults [true] samples.local_world)).1 = Ok []
  ∧ (getThread "t1" (set_faults [true] samples.local_world)).1 = Ok VNull.
Proof.
  apply (reads_on_failure "t1" (set_faults [true] samples.local_world)).
  - reflexivity.
  - reflexivity.
  - by exists [].
Defined.

(** C3 as stated fails: with the Remote Engine active and the network down,
    both read operations of the facade are rejected with the network error;
    they do not answer with an empty result. *)
Lemma reads_propagate_remote_failure :
  currentStorage samples.offline_world = UseRemote
  ∧ (getThreads samples.offline_world).1 = Err NetworkError
  ∧ (getThreads samples.offline_world).1 ≠ Ok []
  ∧ (getThread "t1" samples.offline_world).1 = Err NetworkError
  ∧ (getThread "t1" samples.offline_world).1 ≠ Ok VNull.
Proof. repeat split; vm_compute; try reflexivity; discriminate. Qed.

End engine_claims.

Module delete_claims.
Import IndexedDBStorage storageService.
Import async_facts store_facts facade_store_facts local_facade_facts.

Lemma deleteThread_local_inv threadId w o w1 :
  currentStorage w = UseIndexedDB → store_wf (idb_threads w) = true →
  deleteThread threadId w = (o, w1) →
  evolves w w1 ∧ remote_threads w1 = remote_threads w
  ∧ ((o = Ok false ∨ ∃ e, o = Err e) ∧ idb_threads w1 = idb_threads w
     ∨ o = Ok true ∧ is_Some (idb_threads w !! threadId)
       ∧ idb_threads w1 = delete threadId (idb_threads w))
  ∧ (faults w = [] →
     match idb_threads w !! threadId with
     | Some _ => o = Ok true
     | None => o = Ok false
     end).
Proof.
  intros Hlocal Hwf. unfold deleteThread. unfold_async. rewrite Hlocal.
  destruct (IndexedDBStorage.getThreads w) as [[threads|e] w2] eqn:E1;
    apply getThreads_inv in E1 as (Hr1 & Hn1 & Hc1 & Hok1).
  2:{ intros [= <- <-]. destruct Hr1 as (? & ? & ?).
      split; [done|]. split; [done|]. split; [left; eauto|].
      intros Hf. by specialize (Hok1 Hf). }
  destruct Hc1 as [[[= ->] Hdb1]|[([= ->] & Hdb & Hfne)|[[=] _]]].
  2:{ cbn. intros [= <- <-]. destruct Hr1 as (? & ? & ?).
      split; [done|]. split; [done|]. split; [left; eauto|]. done. }
  destruct (saved_filter (idb_threads w) threadId Hwf) as (Hclean & Hadd & Hlen).
  case_bool_decide as Hl.
  { intros [= <- <-]. destruct Hr1 as (? & ? & ?).
    split; [done|]. split; [done|]. split; [left; eauto|].
    intros _. apply Hlen in Hl. by rewrite Hl. }
  assert (is_Some (idb_threads w !! threadId)) as Hsome.
  { destruct (idb_threads w !! threadId) eqn:Ht; [by eexists|].
    exfalso. apply Hl. by apply Hlen. }
  pose proof Hr1 as (Hev1 & Hidb1 & Hrem1).
  destruct (saveThreads _ w2) as [[saved|e] w3] eqn:E2;
    apply saveThreads_inv in E2 as (Hev2 & Hrem2 & Hn2 & Hc2 & Hok2);
    rewrite Hclean, Hadd in Hc2, Hok2; intros [= <- <-].
  - split; [by eapply evolves_trans|]. split; [congruence|]. split.
    + right. split; [done|]. split; [done|].
      destruct Hc2 as [(_ & _ & [= <-])|[(_ & Hdb3 & _)|([e [=]] & _)]]; [done|congruence].
    + intros _. by destruct Hsome as [? ->].
  - split; [by eapply evolves_trans|]. split; [congruence|]. split.
    + left. split; [eauto|]. destruct Hc2 as [([=] & _)|[([=] & _)|(_ & ->)]]. done.
    + intros Hf. destruct Hev1 as (_&_&_&_&_&Hfs). by specialize (Hok2 (Hfs Hf)).
Qed.

(** C4, as the code has it.  Without I/O failures:
    on the Local Engine, [deleteThread] of an id that is not stored returns
    false and leaves the collection unchanged, and a second call in a row
    always returns false and changes nothing more;
    on the Remote Engine (signed in), [deleteThread] of an id that is not
    stored is rejected with the not-found error and leaves the collection
    unchanged, and so is every second call in a row. *)
Theorem deleteThread_missing_id threadId w :
  faults w = [] →
  (currentStorage w = UseIndexedDB → store_wf (idb_threads w) = true →
   (idb_threads w !! threadId = None →
    (deleteThread threadId w).1 = Ok false
    ∧ idb_threads (deleteThread threadId w).2 = idb_threads w)
   ∧ (deleteThread threadId (deleteThread threadId w).2).1 = Ok false
   ∧ idb_threads (deleteThread threadId (deleteThread threadId w).2).2
     = idb_threads (deleteThread threadId w).2)
  ∧ (currentStorage w = UseRemote → is_Some (currentUser w) →
     remoteStorage.valid_doc_id threadId = true →
     (remote_threads w !! threadId = None →
      (deleteThread threadId w).1 = Err RemoteThreadNotFound
      ∧ remote_threads (deleteThread threadId w).2 = remote_threads w)
     ∧ (deleteThread threadId (deleteThread threadId w).2).1 = Err RemoteThreadNotFound
     ∧ remote_threads (deleteThread threadId (deleteThread threadId w).2).2
       = remote_threads (deleteThread threadId w).2).
Proof.
  intros Hf. split.
  - intros Hlocal Hwf.
    destruct (deleteThread threadId w) as [o w1] eqn:E1. cbn [fst snd].
    apply deleteThread_local_inv in E1 as (Hev1 & _ & Hc1 & Hok1); [|done..].
    specialize (Hok1 Hf). pose proof Hev1 as (_ & Hcs1 & _ & _ & _ & Hfs1).
    assert (store_wf (idb_threads w1) = true ∧ idb_threads w1 !! threadId = None)
      as [Hwf1 Hnone1].
    { destruct Hc1 as [[Ho ->]|(_ & _ & ->)].
      - split; [done|]. destruct (idb_threads w !! threadId); [|done].
        subst o. by destruct Ho as [[=]|[e [=]]].
      - split; [|apply lookup_delete_eq]. apply store_wf_intro. intros k v Hk.
        apply lookup_delete_Some in Hk as [_ Hk]. by eapply store_wf_lookup. }
    split.
    + intros Hnone. rewrite Hnone in Hok1. split; [done|].
      destruct Hc1 as [[_ ->]|(-> & _)]; done.
    + destruct (deleteThread threadId w1) as [o2 w2] eqn:E2. cbn [fst snd].
      apply deleteThread_local_inv in E2 as (_ & _ & Hc2 & Hok2); [|congruence..].
      specialize (Hok2 (Hfs1 Hf)). rewrite Hnone1 in Hok2. split; [done|].
      destruct Hc2 as [[_ ->]|(-> & _)]; done.
  - intros Hremote Hu Hv.
    assert (∀ w0 o w1, currentStorage w0 = UseRemote →
              deleteThread threadId w0 = (o, w1) →
              remoteStorage.deleteThread threadId w0 = (o, w1)) as Hfacade.
    { intros w0 o w1 Hcs. unfold deleteThread. unfold_async. rewrite Hcs.
      by destruct (remoteStorage.deleteThread threadId w0) as [[]]. }
    destruct (deleteThread threadId w) as [o w1] eqn:E1. cbn [fst snd].
    apply Hfacade, remote_facts.deleteThread_inv in E1
      as (Hev1 & _ & _ & Hc1 & Hok1); [|done].
    specialize (Hok1 Hf Hu Hv). pose proof Hev1 as (Hu1 & Hcs1 & _ & _ & _ & Hfs1).
    assert (remote_threads w1 !! threadId = None) as Hnone1.
    { destruct Hc1 as [[Ho ->]|(_ & _ & ->)]; [|apply lookup_delete_eq].
      destruct (remote_threads w !! threadId); [|done].
      subst o. by destruct Ho as [e [=]]. }
    split.
    + intros Hnone. rewrite Hnone in Hok1. split; [done|].
      destruct Hc1 as [[_ ->]|(-> & _)]; done.
    + destruct (deleteThread threadId w1) as [o2 w2] eqn:E2. cbn [fst snd].
      apply Hfacade, remote_facts.deleteThread_inv in E2
        as (_ & _ & _ & Hc2 & Hok2); [|congruence].
      rewrite Hu1 in Hok2. specialize (Hok2 (Hfs1 Hf) Hu Hv). rewrite Hnone1 in Hok2.
      split; [done|]. destruct Hc2 as [[_ ->]|(-> & _)]; done.
Qed.

Lemma deleteThread_missing_id_witness :
  (deleteThread "t9" samples.local_world).1 = Ok false
  ∧ idb_threads (deleteThread "t9" samples.local_world).2
    = idb_threads samples.local_world.
Proof.
  destruct (deleteThread_missing_id "t9" samples.local_world) as [Hlocal _].
  - reflexivity.
  - destruct Hlocal as [Hmissing _].
    + reflexivity.
    + vm_compute. reflexivity.
    + apply Hmissing. vm_compute. reflexivity.
Defined.

(** C4 as stated fails on the Remote Engine: with Alice signed in and no
    thread stored, [deleteThread] is rejected with the not-found error where
    the claim has it return false. *)
Lemma deleteThread_remote_missing_raises :
  currentStorage samples.empty_remote_world = UseRemote
  ∧ remote_threads samples.empty_remote_world !! "t1" = None
  ∧ (deleteThread "t1" samples.empty_remote_world).1 = Err RemoteThreadNotFound
  ∧ (deleteThread "t1" samples.empty_remote_world).1 ≠ Ok false.
Proof. repeat split; vm_compute; try reflexivity; discriminate. Qed.

End delete_claims.

Module save_claims.
Import IndexedDBStorage storageService.
Import async_facts store_facts facade_store_facts.

Lemma NoDup_entries records :
  Forall (λ v, is_Some (key_of v)) records →
  NoDup (key_of <$> records) → NoDup (entry <$> records).*1.
Proof.
  induction records as [|r rest IH]; intros Hkeys Hnd; [constructor|].
  apply Forall_cons in Hkeys as [[k Hk] Hkeys].
  rewrite fmap_cons in Hnd. apply NoDup_cons in Hnd as [Hnotin Hnd].
  rewrite !fmap_cons. apply NoDup_cons. split; [|by apply IH].
  rewrite (entry_key _ _ Hk). cbn. intros Hin. apply Hnotin.
  apply list_elem_of_fmap in Hin as (p & Hp & Hin).
  apply list_elem_of_fmap in Hin as (v' & -> & Hv').
  rewrite Forall_forall in Hkeys. destruct (Hkeys v' Hv') as [k'' Hk''].
  rewrite (entry_key _ _ Hk'') in Hp. cbn in Hp. subst k''.
  apply list_elem_of_fmap. exists v'. by rewrite Hk, Hk''.
Qed.

Lemma size_list_to_map (l : list (string * Value)) :
  NoDup l.*1 → size (list_to_map l : Collection) = length l.
Proof.
  intros Hnd. by rewrite <- length_map_to_list, map_to_list_to_map.
Qed.

(** C6, as the code has it.  Without I/O failures, when the records that
    pass the filter of [saveThreads] (non-null objects with a truthy [id])
    carry string ids that are pairwise distinct, the call returns true and the
    thread store holds exactly those records, each under its id; the records
    the filter refuses are dropped. *)
Theorem saveThreads_keeps_storable threads w :
  faults w = [] → string_ids threads = true → distinct_ids threads = true →
  (saveThreads (VArr threads) w).1 = Ok true
  ∧ (∀ k v, idb_threads (saveThreads (VArr threads) w).2 !! k = Some v
            ↔ v ∈ threads ∧ storable v = true ∧ key_of v = Some k)
  ∧ size (idb_threads (saveThreads (VArr threads) w).2)
    = length (filter (λ v, storable v = true) threads).
Proof.
  intros Hf Hids Hdistinct.
  set (cleaned := filter (λ v, storable v = true) threads).
  assert (Forall (λ v, is_Some (key_of v)) cleaned) as Hkeys.
  { apply Forall_forall. intros v [Hs Hv]%list_elem_of_filter.
    unfold string_ids in Hids. rewrite forallb_forall in Hids.
    apply list_elem_of_In, Hids in Hv. rewrite Hs in Hv. cbn in Hv.
    by apply bool_decide_eq_true in Hv. }
  assert (NoDup (entry <$> cleaned).*1) as Hnd.
  { apply NoDup_entries; [done|]. by apply bool_decide_eq_true in Hdistinct. }
  destruct (saveThreads (VArr threads) w) as [o w1] eqn:Hrun. cbn [fst snd].
  apply saveThreads_inv in Hrun as (_ & _ & _ & Hc & Hok).
  specialize (Hok Hf). fold cleaned in Hc, Hok.
  rewrite (add_all_empty _ Hkeys Hnd) in Hc, Hok. subst o. split; [done|].
  destruct Hc as [(_ & _ & [= <-])|[([=] & _)|([e [=]] & _)]].
  split.
  - intros k v. rewrite <- elem_of_list_to_map by done.
    rewrite list_elem_of_fmap. split.
    + intros (v' & Hev & Hv'). pose proof Hv' as [Hs Hin]%list_elem_of_filter.
      rewrite Forall_forall in Hkeys. destruct (Hkeys v' Hv') as [k' Hk'].
      rewrite (entry_key _ _ Hk') in Hev. by simplify_eq.
    + intros (Hin & Hs & Hk). exists v. split; [by rewrite (entry_key _ _ Hk)|].
      by apply list_elem_of_filter.
  - by rewrite size_list_to_map, length_fmap.
Qed.

Lemma saveThreads_keeps_storable_witness :
  (saveThreads (VArr [samples.t1; VNull; VNum 7; samples.good; samples.t2])
               samples.local_world).1 = Ok true
  ∧ size (idb_threads
            (saveThreads (VArr [samples.t1; VNull; VNum 7; samples.good; samples.t2])
                         samples.local_world).2) = 2.
Proof.
  destruct (saveThreads_keeps_storable
              [samples.t1; VNull; VNum 7; samples.good; samples.t2]
              samples.local_world) as (Hok & _ & Hsize).
  - reflexivity.
  - vm_compute. reflexivity.
  - vm_compute. reflexivity.
  - split; [exact Hok|]. rewrite Hsize. vm_compute. reflexivity.
Defined.

(** C6 as stated fails: two records that both pass the filter but share
    their id cannot both be stored.  The second [add] hits the key of the
    first, the transaction aborts, the call is rejected and the store keeps
    what it held before. *)
Lemma saveThreads_rejects_shared_id :
  storable samples.first_a = true ∧ storable samples.second_a = true
  ∧ (saveThreads (VArr [samples.first_a; VNull; samples.second_a])
                 samples.local_world).1 = Err ConstraintError
  ∧ idb_threads (saveThreads (VArr [samples.first_a; VNull; samples.second_a])
                             samples.local_world).2
    = idb_threads samples.local_world
  ∧ idb_threads samples.local_world !! "a" = None.
Proof. repeat split; vm_compute; reflexivity. Qed.

End save_claims.

Module sync_claims.
Import IndexedDBStorage storageService.
Import async_facts store_facts facade_store_facts.

Lemma key_of_get v k : key_of v = Some k → get "id" v = VStr k ∧ nullish v = false.
Proof.
  unfold key_of. destruct (get "id" v) eqn:E; try done. intros [= ->].
  split; [done|]. by destruct v.
Qed.

Lemma syncable_lookup store k v :
  syncable store = true → store !! k = Some v → remoteStorage.valid_doc_id k = true.
Proof.
  unfold syncable. rewrite forallb_forall. intros Hs Hk.
  by apply elem_of_map_to_list, list_elem_of_In, Hs in Hk.
Qed.

(** The remote collection after the documents of [threads] were set. *)
Lemma foldl_insert_other (f : Value → Value) threads : ∀ (m : Collection) k,
  k ∉ (entry <$> threads).*1 →
  foldl (λ m t, <[(entry t).1 := f t]> m) m threads !! k = m !! k.
Proof.
  induction threads as [|t rest IH]; intros m k Hk; [done|].
  rewrite !fmap_cons in Hk. apply not_elem_of_cons in Hk as [Hne Hk].
  cbn [foldl]. rewrite IH by done. by rewrite lookup_insert_ne.
Qed.

Lemma foldl_insert_member (f : Value → Value) threads : ∀ (m : Collection) t,
  NoDup (entry <$> threads).*1 → t ∈ threads →
  foldl (λ m t, <[(entry t).1 := f t]> m) m threads !! (entry t).1 = Some (f t).
Proof.
  induction threads as [|t0 rest IH]; intros m t Hnd Hin; [by apply elem_of_nil in Hin|].
  rewrite !fmap_cons in Hnd. apply NoDup_cons in Hnd as [Hnotin Hnd].
  cbn [foldl]. apply elem_of_cons in Hin as [->|Hin].
  - rewrite foldl_insert_other by done. apply lookup_insert_eq.
  - by apply IH.
Qed.

Lemma import_loop_ok user threads : ∀ results w,
  faults w = [] →
  Forall (λ t, ∃ k, key_of t = Some k ∧ remoteStorage.valid_doc_id k = true) threads →
  ∃ w1,
    remoteStorage.import_loop user threads results w
    = (Ok (results
           ++ (imported_with remoteStorage.serverTimestamp user <$> threads)), w1)
    ∧ evolves w w1 ∧ idb_threads w1 = idb_threads w
    ∧ remote_threads w1
      = foldl (λ m t, <[(entry t).1 := imported user (server_now w) t]> m)
              (remote_threads w) threads.
Proof.
  induction threads as [|t rest IH]; intros results w Hf Hvalid.
  - exists w. cbn. rewrite app_nil_r. split; [done|]. split; [apply evolves_refl|done].
  - apply Forall_cons in Hvalid as [(k & Hk & Hv) Hvalid].
    destruct (key_of_get _ _ Hk) as [Hid Hnn].
    cbn [remoteStorage.import_loop]. unfold prop, remoteStorage.doc.
    unfold_async. rewrite Hnn, Hid, Hv.
    destruct (remoteStorage.setDoc k _ w) as [o w2] eqn:E.
    apply remote_facts.setDoc_inv in E as (Hev & Hidb & _ & Hc & Hok).
    rewrite (Hok Hf) in *. destruct Hc as [[_ Hrem]|[[=] _]].
    pose proof Hev as (_ & _ & _ & Hsn & _ & Hfs).
    destruct (IH (results ++ [imported_with remoteStorage.serverTimestamp user t])
                w2 (Hfs Hf) Hvalid)
      as (w1 & Hloop & Hev2 & Hidb2 & Hrem2).
    exists w1. unfold imported_with in Hloop |- *. rewrite Hloop.
    split; [by rewrite <- app_assoc|]. split; [by eapply evolves_trans|].
    split; [congruence|]. rewrite Hrem2, Hrem, Hsn. cbn [foldl fmap list_fmap].
    by rewrite (entry_key _ _ Hk).
Qed.

(** C8.  Without a session [syncToRemote] is rejected at once and nothing is
    read or written.  With a session, when no I/O step fails (and the stored
    ids are ids Firestore accepts), it returns the number of threads in the
    Local Engine, every one of them is then stored remotely under its id as
    [importThreads] writes it, the other remote documents and the local store
    are untouched. *)
Theorem syncToRemote_copies_local w :
  (currentUser w = None → syncToRemote w = (Err NotAuthenticated, w))
  ∧ (∀ user, currentUser w = Some user → faults w = [] →
     store_wf (idb_threads w) = true → syncable (idb_threads w) = true →
     (syncToRemote w).1 = Ok (size (idb_threads w))
     ∧ idb_threads (syncToRemote w).2 = idb_threads w
     ∧ (∀ k t, idb_threads w !! k = Some t →
               remote_threads (syncToRemote w).2 !! k
               = Some (imported user (server_now w) t))
     ∧ (∀ k, idb_threads w !! k = None →
             remote_threads (syncToRemote w).2 !! k = remote_threads w !! k)).
Proof.
  split.
  - intros Hu. unfold syncToRemote, isAuthenticated. unfold_async. by rewrite Hu.
  - intros user Hu Hf Hwf Hsync.
    unfold syncToRemote, isAuthenticated. unfold_async. rewrite Hu. cbn.
    destruct (IndexedDBStorage.getThreads w) as [o w2] eqn:E1.
    apply getThreads_inv in E1 as (Hr1 & _ & _ & Hok1). rewrite (Hok1 Hf).
    pose proof Hr1 as ((Hu2 & _ & _ & Hsn2 & _ & Hfs2) & Hidb2 & Hrem2).
    rewrite getAll_length.
    case_bool_decide as Hsize.
    + unfold remoteStorage.importThreads.
      rewrite (remote_facts.authenticated_Some _ _ user) by congruence.
      unfold_async.
      destruct (import_loop_ok user (getAll (idb_threads w)) [] w2 (Hfs2 Hf))
        as (w3 & -> & Hev3 & Hidb3 & Hrem3).
      { apply Forall_forall. intros v Hv.
        destruct (getAll_key _ _ Hwf Hv) as (k & Hk & _ & Hlk). exists k.
        split; [done|]. by eapply syncable_lookup. }
      cbn. split; [done|]. split; [congruence|]. rewrite Hrem3, Hrem2, Hsn2. split.
      * intros k t Ht. destruct (store_wf_lookup _ _ _ Hwf Ht) as [Hk _].
        rewrite <- (foldl_insert_member (imported user (server_now w))
                      (getAll (idb_threads w)) (remote_threads w) t).
        -- by rewrite (entry_key _ _ Hk).
        -- by apply getAll_NoDup.
        -- apply getAll_elem; eauto.
      * intros k Hnone. apply foldl_insert_other.
        rewrite (getAll_entries _ Hwf). intros Hin.
        apply list_elem_of_fmap in Hin as ([k' v] & -> & Hin).
        apply elem_of_map_to_list in Hin. cbn in Hnone. congruence.
    + cbn. assert (idb_threads w = ∅) as Hempty.
      { apply map_size_empty_iff. lia. }
      split; [f_equal; lia|]. split; [done|]. rewrite Hempty, Hrem2.
      split; [by intros k t; rewrite lookup_empty|done].
Qed.

Lemma syncToRemote_copies_local_witness :
  (syncToRemote samples.remote_world).1 = Ok 2
  ∧ remote_threads (syncToRemote samples.remote_world).2 !! "t2"
    = Some (imported samples.alice (server_now samples.remote_world) samples.t2).
Proof.
  destruct (syncToRemote_copies_local samples.remote_world) as [_ Hsync].
  destruct (Hsync samples.alice) as (Hcount & _ & Hcopied & _).
  - reflexivity.
  - reflexivity.
  - vm_compute. reflexivity.
  - vm_compute. reflexivity.
  - split.
    + rewrite Hcount. vm_compute. reflexivity.
    + apply Hcopied. vm_compute. reflexivity.
Defined.

End sync_claims.

(** * Further properties of the code *)

Module helpers_extra.
Import helpers helpers_rest helpers_facts.

Lemma length_append s1 s2 :
  String.length (s1 +:+ s2) = String.length s1 + String.length s2.
Proof.
  induction s1 as [|c r IH]; [done|].
  change (S (String.length (r +:+ s2)) = S (String.length r + String.length s2)).
  by rewrite IH.
Qed.

Lemma length_substring0 n s :
  String.length (String.substring 0 n s) = n `min` String.length s.
Proof.
  revert s. induction n as [|n IH]; intros s; [by destruct s|].
  destruct s as [|c r]; [done|]. cbn. by rewrite IH.
Qed.

Lemma substring0_prefix n s : String.prefix (String.substring 0 n s) s = true.
Proof.
  revert s. induction n as [|n IH]; intros s; [by destruct s|].
  destruct s as [|c r]; [done|]. cbn.
  destruct (Ascii.ascii_dec c c); [apply IH|done].
Qed.

(** X1.  A text that fits is returned as it is; a longer (non-empty) one is
    cut to a prefix of [maxLength] characters followed by three dots; so the
    result never has more than [maxLength + 3] characters (three when
    [maxLength] is negative). *)
Theorem truncateText_bounded text maxLength :
  (∀ s, text = Some s → (Z.of_nat (String.length s) ≤ maxLength)%Z →
        truncateText text maxLength = s)
  ∧ (∀ s, text = Some s → s ≠ EmptyString →
          (maxLength < Z.of_nat (String.length s))%Z →
          ∃ p, truncateText text maxLength = p +:+ "..."
               ∧ String.prefix p s = true
               ∧ String.length p = Z.to_nat maxLength)
  ∧ String.length (truncateText text maxLength) ≤ Z.to_nat maxLength + 3.
Proof.
  split; [|split].
  - intros s -> Hfit. unfold truncateText. destruct s as [|c r]; [done|].
    cbn [truthy String.eqb negb]. by rewrite (proj2 (Z.leb_le _ _)).
  - intros s -> Hne Hlong. unfold truncateText. destruct s as [|c r]; [done|].
    cbn [truthy String.eqb negb]. rewrite (proj2 (Z.leb_gt _ _)) by done.
    exists (prefix maxLength (String c r)). split; [done|].
    split; [apply substring0_prefix|]. unfold prefix. rewrite length_substring0.
    apply Nat.min_l. lia.
  - unfold truncateText. destruct text as [s|]; [|cbn; lia].
    destruct s as [|c r]; [cbn; lia|]. cbn [truthy String.eqb negb].
    destruct (Z.leb_spec (Z.of_nat (String.length (String c r))) maxLength).
    + lia.
    + rewrite length_append. unfold prefix. rewrite length_substring0.
      pose proof (Nat.le_min_l (Z.to_nat maxLength) (String.length (String c r))).
      change (String.length "...") with 3. lia.
Qed.

Lemma truncateText_bounded_witness :
  truncateText (Some "short") 50 = "short".
Proof.
  apply (truncateText_bounded (Some "short") 50); [reflexivity|].
  vm_compute. discriminate.
Defined.

(** Every failure of the export is a type error. *)
Lemma annotation_row_error thread index annotation e :
  annotation_row thread index annotation = Err e → e = TypeError.
Proof.
  unfold annotation_row, prop.
  destruct (nullish annotation); cbn [mbind Result_bind]; [by intros [= <-]|].
  destruct (truthy (get "notes" annotation)), (get "notes" annotation);
    cbn [mbind Result_bind]; try (by intros [= <-]);
    destruct (truthy (get "tags" annotation)), (get "tags" annotation);
    cbn [mbind Result_bind]; by intros [= <-].
Qed.

Lemma push_rows_error thread annotations : ∀ index rows e,
  push_rows thread annotations index rows = Err e → e = TypeError.
Proof.
  induction annotations as [|a rest IH]; intros index rows e; [done|].
  cbn [push_rows]. destruct (annotation_row thread index a) as [row|e'] eqn:Erow;
    cbn [mbind Result_bind].
  - apply IH.
  - intros [= <-]. by eapply annotation_row_error.
Qed.

Lemma forEach_thread_error threads : ∀ rows e,
  forEach_thread threads rows = Err e → e = TypeError.
Proof.
  induction threads as [|t rest IH]; intros rows e; [done|].
  cbn [forEach_thread]. unfold prop. destruct (nullish t); cbn [mbind Result_bind];
    [by intros [= <-]|].
  destruct (negb _ || _); [apply IH|].
  destruct (push_rows t _ 0 rows) as [rows'|e'] eqn:Epush; cbn [mbind Result_bind].
  - apply IH.
  - intros [= <-]. by eapply push_rows_error.
Qed.

Lemma forallb_false {A} (f : A → bool) l :
  forallb f l = false → Exists (λ a, f a = false) l.
Proof.
  induction l as [|a l IH]; cbn; [done|].
  destruct (f a) eqn:Ha; cbn; [|by left]. intros H. right. by apply IH.
Qed.

Lemma annotation_row_ill_shaped thread index annotation :
  annotation_shaped annotation = false →
  annotation_row thread index annotation = Err TypeError.
Proof.
  unfold annotation_shaped, annotation_row, prop.
  destruct (nullish annotation); cbn [negb andb mbind Result_bind]; [done|].
  destruct (truthy (get "notes" annotation)), (get "notes" annotation);
    cbn [negb orb andb mbind Result_bind]; try done;
    destruct (truthy (get "tags" annotation)), (get "tags" annotation);
    cbn [negb orb isArray mbind Result_bind]; done.
Qed.

Lemma annotation_row_shaped thread index annotation :
  annotation_shaped annotation = true →
  ∃ cells, annotation_row thread index annotation = Ok cells.
Proof.
  unfold annotation_shaped, annotation_row, prop.
  destruct (nullish annotation); cbn [negb andb mbind Result_bind]; [done|].
  destruct (truthy (get "notes" annotation)), (get "notes" annotation);
    cbn [negb orb andb mbind Result_bind]; try done;
    destruct (truthy (get "tags" annotation)), (get "tags" annotation);
    cbn [negb orb isArray mbind Result_bind]; try done; by eexists.
Qed.

Lemma push_rows_ill_shaped thread annotations : ∀ index rows,
  Exists (λ a, annotation_shaped a = false) annotations →
  push_rows thread annotations index rows = Err TypeError.
Proof.
  induction annotations as [|a rest IH]; intros index rows Hex;
    [by apply Exists_nil in Hex|].
  cbn [push_rows].
  destruct (annotation_row thread index a) as [row|e] eqn:Erow;
    cbn [mbind Result_bind].
  - apply Exists_cons in Hex as [Ha|Hrest]; [|by apply IH].
    by rewrite annotation_row_ill_shaped in Erow.
  - by rewrite (annotation_row_error _ _ _ _ Erow).
Qed.

Lemma push_rows_shaped thread annotations : ∀ index rows,
  forallb annotation_shaped annotations = true →
  ∃ rows', push_rows thread annotations index rows = Ok rows'.
Proof.
  induction annotations as [|a rest IH]; intros index rows Hall; [by eexists|].
  cbn [forallb] in Hall. apply andb_prop in Hall as [Ha Hrest].
  cbn [push_rows]. destruct (annotation_row_shaped thread index a Ha) as [cells ->].
  cbn [mbind Result_bind]. by apply IH.
Qed.

(** The shapes written out are those the tests of the code tell apart. *)
Lemma looped_iterated thread : looped thread = iterated thread.
Proof.
  unfold looped, iterated, get. cbv zeta.
  destruct thread as [| | | | | |fs]; try done.
  destruct (fs !! "annotations") as [[| |[]|n|text|xs|single]|]; cbn; try done.
  - by destruct (n =? 0)%Z.
  - by destruct (String.eqb text EmptyString).
  - by case_bool_decide; subst.
  - by destruct (single !! "length") as [[| | |[]| | |]|].
Qed.

Lemma bad_annotation_shaped annotation :
  bad_annotation annotation = negb (annotation_shaped annotation).
Proof.
  unfold bad_annotation, annotation_shaped, bad_notes, bad_tags, get.
  destruct annotation as [| | | | | |fs]; try done.
  destruct (fs !! "notes") as [[| |[]|n|text|xs|o]|],
           (fs !! "tags") as [[| |[]|n'|text'|xs'|o']|]; cbn;
    repeat match goal with
           | |- context [(?n =? 0)%Z] => destruct (n =? 0)%Z; cbn
           | |- context [String.eqb ?t EmptyString] => destruct (String.eqb t EmptyString); cbn
           end; done.
Qed.

Lemma ill_shaped_spec thread :
  ill_shaped thread
  = nullish thread || negb (forallb annotation_shaped (iterated thread)).
Proof.
  assert (existsb bad_annotation (looped thread)
          = negb (forallb annotation_shaped (iterated thread))) as Hloop.
  { rewrite looped_iterated. induction (iterated thread) as [|a rest IH]; [done|].
    cbn [existsb forallb]. by rewrite IH, bad_annotation_shaped, negb_andb. }
  unfold ill_shaped. by destruct thread.
Qed.



End helpers_extra.

Module idb_extra.
Import IndexedDBStorage IndexedDBStorage_rest.
Import async_facts store_facts facade_store_facts local_facade_facts.
Import annotation_local_facts.

Lemma io_ok e w : faults w = [] → io e w = (Ok (), w).
Proof. intros Hf. unfold io. by rewrite Hf. Qed.

Lemma init_ok w :
  faults w = [] →
  ∃ w1, init w = (Ok (), w1) ∧ reads w w1 ∧ faults w1 = [] ∧ db_handle w1 = true
        ∧ network_calls w1 = network_calls w.
Proof.
  intros Hf. destruct (init w) as [o w1] eqn:E. exists w1.
  apply init_inv in E as (Hr & Hn & Hc & Hok). rewrite (Hok Hf) in *.
  destruct Hc as [[_ Hdb]|[[=] _]]. pose proof Hr as ((_&_&_&_&_&Hfs) & _).
  split; [done|]. split; [done|]. split; [auto|]. done.
Qed.

Lemma key_of_truthy thread k :
  key_of thread = Some k → k ≠ EmptyString →
  truthy thread = true ∧ truthy (get "id" thread) = true.
Proof.
  intros Hk Hne. pose proof (key_of_storable _ _ Hk Hne) as Hs.
  unfold storable in Hs. by destruct (truthy thread), (typeof_object thread).
Qed.

(** X3.  [IndexedDBStorage.saveThread] is an upsert.  A thread that is falsy or
    has a falsy id is refused with false before anything is opened or
    written.  For a thread with a non-empty string id, when no I/O step fails,
    the call returns true, the thread is then stored under its id (replacing
    what was there, every other record untouched) and [getThreadById] reads it
    back. *)
Theorem saveThread_upsert thread w :
  (truthy thread && truthy (get "id" thread) = false →
   saveThread thread w = (Ok false, w))
  ∧ (∀ k, key_of thread = Some k → k ≠ EmptyString → faults w = [] →
     (saveThread thread w).1 = Ok true
     ∧ idb_threads (saveThread thread w).2 = <[k := thread]> (idb_threads w)
     ∧ (getThreadById k (saveThread thread w).2).1 = Ok thread).
Proof.
  split.
  - intros Hbad. unfold saveThread.
    by destruct (truthy thread), (truthy (get "id" thread)).
  - intros k Hk Hne Hf. destruct (key_of_truthy _ _ Hk Hne) as [Ht Hid].
    unfold saveThread. rewrite Ht, Hid, Hk. cbn [negb orb]. unfold_async.
    destruct (init_ok w Hf) as (w1 & -> & (Hev & Hidb & _) & Hf1 & Hdb1 & _).
    rewrite !(io_ok _ _ Hf1). unfold add, put. rewrite Hk, Hidb.
    assert (match idb_threads w !! k with
            | Some _ => Ok (<[k:=thread]> (idb_threads w))
            | None => match idb_threads w !! k with
                      | Some _ => Err ConstraintError
                      | None => Ok (<[k:=thread]> (idb_threads w))
                      end
            end = Ok (<[k:=thread]> (idb_threads w))) as ->
      by (by destruct (idb_threads w !! k)).
    cbn [fst snd idb_threads set_idb_threads]. split; [done|]. split; [done|].
    destruct (getThreadById k _) as [o w2] eqn:E.
    apply getThreadById_inv in E as (_ & _ & _ & Hok). cbn [fst].
    rewrite Hok by done. cbn [idb_threads set_idb_threads].
    rewrite lookup_insert_eq. cbn. unfold js_or. by rewrite Ht.
Qed.

Lemma saveThread_upsert_witness :
  (saveThread samples.quoted samples.local_world).1 = Ok true
  ∧ idb_threads (saveThread samples.quoted samples.local_world).2
    = <["t3" := samples.quoted]> (idb_threads samples.local_world)
  ∧ (getThreadById "t3" (saveThread samples.quoted samples.local_world).2).1
    = Ok samples.quoted.
Proof.
  apply (saveThread_upsert samples.quoted samples.local_world).
  - reflexivity.
  - discriminate.
  - reflexivity.
Defined.

(** X4.  [IndexedDBStorage.deleteThread] does not look whether the id is stored:
    when no I/O step fails it returns true in either case and the store is
    the old one without that id, so an id that was not stored leaves the
    store as it was and is still answered with true. *)
Theorem deleteThread_always_true threadId w :
  faults w = [] →
  (deleteThread threadId w).1 = Ok true
  ∧ idb_threads (deleteThread threadId w).2 = delete threadId (idb_threads w)
  ∧ (idb_threads w !! threadId = None →
     idb_threads (deleteThread threadId w).2 = idb_threads w).
Proof.
  intros Hf. unfold deleteThread. unfold_async.
  destruct (init_ok w Hf) as (w1 & -> & (Hev & Hidb & _) & Hf1 & Hdb1 & _).
  rewrite (io_ok _ _ Hf1). cbn. rewrite Hidb. split; [done|]. split; [done|].
  intros Hnone. by apply delete_id.
Qed.

Lemma deleteThread_always_true_witness :
  (deleteThread "t9" samples.local_world).1 = Ok true
  ∧ idb_threads (deleteThread "t9" samples.local_world).2
    = delete "t9" (idb_threads samples.local_world)
  ∧ (idb_threads samples.local_world !! "t9" = None →
     idb_threads (deleteThread "t9" samples.local_world).2
     = idb_threads samples.local_world).
Proof.
  apply (deleteThread_always_true "t9" samples.local_world). reflexivity.
Defined.

(** X5.  [IndexedDBStorage.testStorage] never rejects: every failure becomes a
    report.  Whatever fails, no record other than the one under the key
    [test-item] is changed; and when nothing fails the report says available
    and working and the store is the old one without [test-item] (a thread
    stored under that id is lost). *)
Theorem testStorage_leaves_records timestamp w :
  (∃ report, (testStorage timestamp w).1 = Ok report)
  ∧ (∀ k, k ≠ "test-item" →
          idb_threads (testStorage timestamp w).2 !! k = idb_threads w !! k)
  ∧ (faults w = [] →
     ∃ report, (testStorage timestamp w).1 = Ok report
               ∧ isAvailable report = true ∧ isWorking report = true
               ∧ idb_threads (testStorage timestamp w).2
                 = delete "test-item" (idb_threads w)).
Proof.
  unfold testStorage, put. unfold_async.
  replace (key_of (probe timestamp)) with (Some "test-item") by done.
  split; [|split].
  - destruct (init w) as [[[]|e] w1]; [|by eexists].
    destruct (io RequestError w1) as [[[]|e] w2]; [|by eexists].
    destruct (io RequestError w2) as [[[]|e] w3]; by eexists.
  - intros k Hk.
    destruct (init w) as [[[]|e] w1] eqn:E1;
      apply init_inv in E1 as ((_ & Hidb1 & _) & _); [|cbn; congruence].
    destruct (io RequestError w1) as [[[]|e] w2] eqn:E2;
      apply io_inv in E2 as ((_ & Hidb2 & _) & _); [|cbn; congruence].
    destruct (io RequestError w2) as [[[]|e] w3] eqn:E3;
      apply io_inv in E3 as ((_ & Hidb3 & _) & _); [|cbn; congruence].
    cbn. rewrite lookup_delete_ne, lookup_insert_ne by done. congruence.
  - intros Hf.
    destruct (init_ok w Hf) as (w1 & -> & (Hev & Hidb & _) & Hf1 & Hdb1 & _).
    rewrite !(io_ok _ _ Hf1). cbn. eexists. split; [done|].
    rewrite lookup_insert_eq, Hidb, delete_insert_eq. done.
Qed.

(** X6.  [getStorageInfo] never rejects, and a thread count it reports is the
    number of threads in the store, whichever I/O step failed on the way: the
    empty answer [getThreads] gives when the database cannot be opened is
    never counted, because the handle is open by then.  Without failures the
    count is always reported. *)
Theorem getStorageInfo_counts w :
  (∃ info, (getStorageInfo w).1 = Ok info
           ∧ (∀ n, threadCount info = Some n → n = size (idb_threads w))
           ∧ (faults w = [] → threadCount info = Some (size (idb_threads w))))
  ∧ idb_threads (getStorageInfo w).2 = idb_threads w.
Proof.
  unfold getStorageInfo. unfold_async.
  destruct (init w) as [[[]|e] w1] eqn:E1;
    apply init_inv in E1 as ((Hev1 & Hidb1 & _) & _ & Hc1 & Hok1).
  2:{ cbn. split; [|done]. eexists. split; [done|]. split; [done|].
      intros Hf. by specialize (Hok1 Hf). }
  destruct Hc1 as [[_ Hdb1]|[[=] _]].
  destruct (getThreads w1) as [[threads|e] w2] eqn:E2;
    apply getThreads_inv in E2 as ((Hev2 & Hidb2 & _) & _ & Hc2 & Hok2); cbn.
  - destruct Hc2 as [[[= ->] _]|[(_ & Hdb & _)|[[=] _]]]; [|congruence].
    rewrite store_facts.getAll_length, Hidb1. split; [|congruence].
    eexists. split; [done|]. cbn. split; [by intros n [= <-]|done].
  - split; [|congruence]. eexists. split; [done|]. split; [done|].
    intros Hf. destruct Hev1 as (_&_&_&_&_&Hfs). by specialize (Hok2 (Hfs Hf)).
Qed.

End idb_extra.

Module store_extra.
Import IndexedDBStorage storageService storageService_rest.
Import async_facts store_facts facade_store_facts local_facade_facts.

(** What a run of [add] requests that went through has stored. *)
Lemma add_all_lookup records : ∀ store store',
  add_all store records = Ok store' →
  ∀ k v, store' !! k = Some v
         ↔ (v ∈ records ∧ key_of v = Some k) ∨ store !! k = Some v.
Proof.
  induction records as [|r rest IH]; intros store store'.
  - cbn. intros [= <-] k v. split; [auto|]. intros [[Hin _]|H]; [|done].
    by apply elem_of_nil in Hin.
  - cbn [add_all]. unfold add. destruct (key_of r) as [kr|] eqn:Hkr; [|done].
    destruct (store !! kr) eqn:Hfree; [done|]. cbn [mbind Result_bind].
    intros Hrest k v. rewrite (IH _ _ Hrest k v). rewrite lookup_insert_Some.
    split.
    + intros [[Hin Hk]|[[<- <-]|[Hne Hlk]]].
      * left. split; [by apply list_elem_of_further|done].
      * left. split; [by left|done].
      * by right.
    + intros [[[->|Hin]%elem_of_cons Hk]|Hlk].
      * right. left. split; congruence.
      * left. done.
      * right. right. split; [congruence|done].
Qed.

(** The fault-free runs of the engine calls. *)
Lemma getThreads_ok w :
  faults w = [] →
  ∃ w1, IndexedDBStorage.getThreads w = (Ok (getAll (idb_threads w)), w1)
        ∧ reads w w1 ∧ faults w1 = [] ∧ network_calls w1 = network_calls w.
Proof.
  intros Hf. destruct (IndexedDBStorage.getThreads w) as [o w1] eqn:E. exists w1.
  apply getThreads_inv in E as (Hr & Hn & _ & Hok). rewrite (Hok Hf).
  pose proof Hr as ((_&_&_&_&_&Hfs) & _). auto.
Qed.

Lemma getThreadById_ok threadId w :
  faults w = [] →
  ∃ w1, getThreadById threadId w = (Ok (found (idb_threads w) threadId), w1)
        ∧ reads w w1 ∧ faults w1 = [] ∧ network_calls w1 = network_calls w.
Proof.
  intros Hf. destruct (getThreadById threadId w) as [o w1] eqn:E. exists w1.
  apply getThreadById_inv in E as (Hr & Hn & _ & Hok). rewrite (Hok Hf).
  pose proof Hr as ((_&_&_&_&_&Hfs) & _). auto.
Qed.

Lemma saveThreads_ok ts store' w :
  faults w = [] →
  add_all ∅ (filter (λ thread, storable thread = true) ts) = Ok store' →
  ∃ w1, IndexedDBStorage.saveThreads (VArr ts) w = (Ok true, w1)
        ∧ evolves w w1 ∧ idb_threads w1 = store'
        ∧ remote_threads w1 = remote_threads w ∧ faults w1 = []
        ∧ network_calls w1 = network_calls w.
Proof.
  intros Hf Hadd.
  destruct (IndexedDBStorage.saveThreads (VArr ts) w) as [o w1] eqn:E. exists w1.
  apply saveThreads_inv in E as (Hev & Hrem & Hn & Hc & Hok).
  specialize (Hok Hf). rewrite Hadd in Hok, Hc. subst o.
  pose proof Hev as (_&_&_&_&_&Hfs).
  destruct Hc as [(_ & _ & [= <-])|[([=] & _)|([e [=]] & _)]]. auto 10.
Qed.

Lemma saveThreads_clean_ok ts store' w :
  faults w = [] →
  filter (λ thread, storable thread = true) ts = ts →
  add_all ∅ ts = Ok store' →
  ∃ w1, IndexedDBStorage.saveThreads (VArr ts) w = (Ok true, w1)
        ∧ evolves w w1 ∧ idb_threads w1 = store'
        ∧ remote_threads w1 = remote_threads w ∧ faults w1 = []
        ∧ network_calls w1 = network_calls w.
Proof. intros Hf Hclean Hadd. apply saveThreads_ok; [done|]. by rewrite Hclean. Qed.

Lemma saveThreads_refused ts e w :
  faults w = [] →
  add_all ∅ (filter (λ thread, storable thread = true) ts) = Err e →
  ∃ w1, IndexedDBStorage.saveThreads (VArr ts) w = (Err e, w1)
        ∧ evolves w w1 ∧ idb_threads w1 = idb_threads w
        ∧ remote_threads w1 = remote_threads w ∧ faults w1 = []
        ∧ network_calls w1 = network_calls w.
Proof.
  intros Hf Hadd.
  destruct (IndexedDBStorage.saveThreads (VArr ts) w) as [o w1] eqn:E. exists w1.
  apply saveThreads_inv in E as (Hev & Hrem & Hn & Hc & Hok).
  specialize (Hok Hf). rewrite Hadd in Hok, Hc. subst o.
  pose proof Hev as (_&_&_&_&_&Hfs).
  destruct Hc as [([=] & _)|[([=] & _)|(_ & Hidb)]]. auto 10.
Qed.

(** X7.  [IndexedDBStorage.saveThreads] is all or nothing, whatever it is given
    and whichever I/O step fails: either it returns true and the store holds
    exactly the records of the array that pass its filter, each under its id,
    or it does not return true and the store is what it was. *)
Theorem saveThreads_all_or_nothing threads w :
  ((IndexedDBStorage.saveThreads threads w).1 = Ok true
   ∧ ∃ ts, threads = VArr ts
           ∧ ∀ k v, idb_threads (IndexedDBStorage.saveThreads threads w).2 !! k = Some v
                    ↔ v ∈ ts ∧ storable v = true ∧ key_of v = Some k)
  ∨ ((IndexedDBStorage.saveThreads threads w).1 ≠ Ok true
     ∧ idb_threads (IndexedDBStorage.saveThreads threads w).2 = idb_threads w).
Proof.
  destruct threads as [| | | | |ts|]; try (right; by split).
  destruct (IndexedDBStorage.saveThreads (VArr ts) w) as [o w1] eqn:E.
  apply saveThreads_inv in E as (_ & _ & _ & Hc & _). cbn [fst snd].
  destruct Hc as [(-> & _ & Hadd)|[(-> & _ & Hidb)|([e ->] & Hidb)]];
    [left|right; by split|right; by split].
  split; [done|]. exists ts. split; [done|]. intros k v.
  rewrite (add_all_lookup _ _ _ Hadd k v), lookup_empty, list_elem_of_filter.
  split.
  - intros [[[Hs Hin] Hk]|[=]]. done.
  - intros (Hin & Hs & Hk). left. done.
Qed.

End store_extra.

Module facade_extra.
Import IndexedDBStorage storageService storageService_rest.
Import async_facts store_facts facade_store_facts local_facade_facts.
Import annotation_local_facts store_extra.

Lemma findIndex_by_id k threads :
  findIndex_by (λ t, strict_eq (get "id" t) (VStr k)) threads = findIndex k threads.
Proof.
  induction threads as [|t rest IH]; cbn; [done|]. rewrite IH.
  by destruct (get "id" t).
Qed.

Lemma findIndex_by_none test threads :
  Forall (λ t, test t = false) threads → findIndex_by test threads = None.
Proof.
  induction 1 as [|t rest Ht _ IH]; cbn; [done|]. by rewrite Ht, IH.
Qed.

Lemma findIndex_of_key thread k threads :
  key_of thread = Some k →
  findIndex_of thread threads = Ok (findIndex k threads).
Proof.
  intros Hk. unfold findIndex_of, prop, key_of in *.
  destruct threads as [|t rest]; [done|].
  destruct thread as [| | | | | |fs]; try done. cbn [nullish mbind Result_bind].
  destruct (get "id" (VObj fs)); try done. injection Hk as ->.
  by rewrite findIndex_by_id.
Qed.

Lemma getAll_keys store v :
  store_wf store = true → v ∈ getAll store →
  ∃ k, key_of v = Some k ∧ k ≠ EmptyString.
Proof. intros Hwf Hv. destruct (getAll_key _ _ Hwf Hv) as (k & ? & ? & _). eauto. Qed.

(** Writing back the collection with a record under a new key pushed. *)
Lemma saved_push store k u :
  store_wf store = true → store !! k = None → key_of u = Some k → k ≠ EmptyString →
  let threads := put_at (findIndex k (getAll store)) u (getAll store) in
  filter (λ thread, storable thread = true) threads = threads
  ∧ add_all ∅ threads = Ok (<[k := u]> store).
Proof.
  intros Hwf Hfree Hu Hne.
  pose proof (findIndex_split k (getAll store)) as Hsplit.
  destruct (findIndex k (getAll store)) as [i|].
  { destruct Hsplit as (l1 & t & l2 & Hl & _ & Ht).
    assert (Hin : t ∈ getAll store) by (rewrite Hl; apply elem_of_app; right; by left).
    destruct (getAll_key _ _ Hwf Hin) as (k' & Hk' & _ & Hlk).
    rewrite (key_of_is_str _ _ _ Hk') in Ht. apply bool_decide_eq_true in Ht.
    congruence. }
  cbn zeta. cbn [put_at].
  assert (Hkeys : ∀ v, v ∈ getAll store ++ [u] → ∃ k', key_of v = Some k' ∧ k' ≠ EmptyString).
  { intros v [Hv|Hv%list_elem_of_singleton]%elem_of_app;
      [by eapply getAll_keys|subst; eauto]. }
  split.
  - apply filter_all. intros v Hv. destruct (Hkeys v Hv) as (k' & ? & ?).
    by eapply key_of_storable.
  - rewrite add_all_empty.
    + f_equal. rewrite fmap_app, list_to_map_app, (list_to_map_getAll _ Hwf).
      cbn [fmap list_fmap]. rewrite (entry_key _ _ Hu). cbn [list_to_map foldr].
      rewrite insert_empty. symmetry. by apply insert_union_singleton_r.
    + apply Forall_forall. intros v Hv. destruct (Hkeys v Hv) as (k' & -> & _). by eexists.
    + rewrite !fmap_app. cbn [fmap list_fmap]. rewrite (entry_key _ _ Hu). cbn [fst].
      apply NoDup_app. split; [by apply getAll_NoDup|]. split; [|apply NoDup_singleton].
      intros k' Hk' ->%list_elem_of_singleton.
      apply list_elem_of_fmap in Hk' as ([k2 v] & -> & Hkv).
      apply list_elem_of_fmap in Hkv as (t & Het & Ht).
      destruct (getAll_key _ _ Hwf Ht) as (k3 & Hk3 & _ & Hlk).
      rewrite (entry_key _ _ Hk3) in Het. cbn in Hfree. congruence.
Qed.

(** Either way the record ends up under its id. *)
Lemma saved_upsert store k u :
  store_wf store = true → key_of u = Some k → k ≠ EmptyString →
  let threads := put_at (findIndex k (getAll store)) u (getAll store) in
  filter (λ thread, storable thread = true) threads = threads
  ∧ add_all ∅ threads = Ok (<[k := u]> store).
Proof.
  intros Hwf Hu Hne. destruct (store !! k) as [t|] eqn:Ht.
  - by eapply saved_put_at.
  - by apply saved_push.
Qed.

(** X8.  [saveThread] of the facade on the Local Engine, when no I/O step fails:
    a thread with a non-empty string id is stored under that id, replacing the
    thread that was there and leaving every other thread alone; the call
    returns the thread, and [getThread] reads it back. *)
Theorem saveThread_local_round_trip thread k w :
  currentStorage w = UseIndexedDB → store_wf (idb_threads w) = true →
  faults w = [] → key_of thread = Some k → k ≠ EmptyString →
  (saveThread thread w).1 = Ok thread
  ∧ idb_threads (saveThread thread w).2 = <[k := thread]> (idb_threads w)
  ∧ (getThread k (saveThread thread w).2).1 = Ok thread.
Proof.
  intros Hlocal Hwf Hf Hk Hne. unfold saveThread. unfold_async. rewrite Hlocal.
  destruct (getThreads_ok w Hf) as (w1 & -> & (Hev1 & Hidb1 & _) & Hf1 & _).
  rewrite (findIndex_of_key _ _ _ Hk).
  destruct (saved_upsert _ _ _ Hwf Hk Hne) as [Hclean Hadd].
  destruct (saveThreads_clean_ok _ _ w1 Hf1 Hclean Hadd)
    as (w2 & -> & Hev2 & Hidb2 & _ & Hf2 & _).
  cbn [fst snd]. split; [done|]. split; [done|].
  assert (Hcs2 : currentStorage w2 = UseIndexedDB).
  { destruct Hev1 as (_ & Hc1 & _), Hev2 as (_ & Hc2 & _). congruence. }
  destruct (getThread k w2) as [o w3] eqn:E.
  apply getThread_local_inv in E as (_ & _ & _ & Hok); [|done].
  cbn [fst]. rewrite (Hok Hf2), Hidb2. unfold found.
  rewrite lookup_insert_eq. cbn [default]. unfold js_or.
  destruct (idb_extra.key_of_truthy _ _ Hk Hne) as [Ht _]. cbn. by rewrite Ht.
Qed.

Lemma saveThread_local_round_trip_witness :
  (saveThread samples.quoted samples.local_world).1 = Ok samples.quoted
  ∧ idb_threads (saveThread samples.quoted samples.local_world).2
    = <["t3" := samples.quoted]> (idb_threads samples.local_world)
  ∧ (getThread "t3" (saveThread samples.quoted samples.local_world).2).1
    = Ok samples.quoted.
Proof.
  apply (saveThread_local_round_trip samples.quoted "t3" samples.local_world);
    try reflexivity.
  discriminate.
Defined.

(** X9.  [saveThread] of the facade on the Local Engine reports success for a
    thread it does not store: for a thread (not null or undefined) whose id is
    falsy, and without I/O failures, the call returns the thread and the store
    is what it was, because the filter of [saveThreads] drops the thread. *)
Theorem saveThread_local_drops_no_id thread w :
  currentStorage w = UseIndexedDB → store_wf (idb_threads w) = true →
  faults w = [] → nullish thread = false → truthy (get "id" thread) = false →
  (saveThread thread w).1 = Ok thread
  ∧ idb_threads (saveThread thread w).2 = idb_threads w.
Proof.
  intros Hlocal Hwf Hf Hnn Hid. unfold saveThread. unfold_async. rewrite Hlocal.
  destruct (getThreads_ok w Hf) as (w1 & -> & (Hev1 & Hidb1 & _) & Hf1 & _).
  assert (findIndex_of thread (getAll (idb_threads w)) = Ok None) as ->.
  { unfold findIndex_of, prop. rewrite Hnn. cbn [mbind Result_bind].
    destruct (getAll (idb_threads w)) as [|t0 rest] eqn:Hall; [done|].
    rewrite <- Hall. f_equal. apply findIndex_by_none, Forall_forall.
    intros t Ht. destruct (getAll_key _ _ Hwf Ht) as (k & Hkt & Hne & _).
    destruct (sync_claims.key_of_get _ _ Hkt) as [-> _].
    destruct (get "id" thread) as [| | | |s| |]; try done. cbn in *.
    apply negb_false_iff, String.eqb_eq in Hid. subst s.
    apply String.eqb_neq. done. }
  cbn [put_at].
  assert (filter (λ t, storable t = true) (getAll (idb_threads w) ++ [thread])
          = getAll (idb_threads w)) as Hclean.
  { rewrite filter_app, (getAll_storable _ Hwf).
    rewrite filter_cons_False, filter_nil; [by rewrite app_nil_r|].
    unfold storable. rewrite Hid. by rewrite andb_false_r. }
  destruct (saveThreads_ok (getAll (idb_threads w) ++ [thread]) (idb_threads w) w1 Hf1)
    as (w2 & -> & Hev2 & Hidb2 & _); [|done].
  rewrite Hclean, add_all_empty.
  - by rewrite (list_to_map_getAll _ Hwf).
  - apply Forall_forall. intros v Hv.
    destruct (getAll_key _ _ Hwf Hv) as (k & -> & _). by eexists.
  - by apply getAll_NoDup.
Qed.

Lemma saveThread_local_drops_no_id_witness :
  (saveThread samples.good samples.local_world).1 = Ok samples.good
  ∧ idb_threads (saveThread samples.good samples.local_world).2
    = idb_threads samples.local_world.
Proof.
  apply (saveThread_local_drops_no_id samples.good samples.local_world);
    reflexivity.
Defined.

End facade_extra.

Module thread_extra.
Import IndexedDBStorage storageService storageService_rest.
Import async_facts store_facts facade_store_facts local_facade_facts.
Import annotation_local_facts annotation_remote_facts store_extra facade_extra.

Lemma add_all_app l1 : ∀ l2 store,
  add_all store (l1 ++ l2) = store' ← add_all store l1; add_all store' l2.
Proof.
  induction l1 as [|r rest IH]; intros l2 store; [done|].
  cbn [app add_all]. destruct (add store r) as [s1|e]; [|done].
  cbn [mbind Result_bind]. apply IH.
Qed.

(** Requests that all went through had distinct keys, none of them taken. *)
Lemma add_all_NoDup records : ∀ store store',
  add_all store records = Ok store' →
  NoDup (key_of <$> records)
  ∧ ∀ v k, v ∈ records → key_of v = Some k → store !! k = None.
Proof.
  induction records as [|r rest IH]; intros store store'.
  - intros _. split; [constructor|]. intros v k Hv. by apply elem_of_nil in Hv.
  - cbn [add_all]. unfold add. destruct (key_of r) as [kr|] eqn:Hkr; [|done].
    destruct (store !! kr) eqn:Hfree; [done|]. cbn [mbind Result_bind].
    intros Hrest. destruct (IH _ _ Hrest) as [Hnd Hnone]. split.
    + rewrite fmap_cons. apply NoDup_cons. split; [|done].
      intros Hin. apply list_elem_of_fmap in Hin as (v & Hkv & Hv).
      specialize (Hnone v kr Hv). rewrite lookup_insert_eq in Hnone.
      rewrite Hkr in Hkv. by specialize (Hnone (eq_sym Hkv)).
    + intros v k [->|Hv]%elem_of_cons Hk; [congruence|].
      specialize (Hnone v k Hv Hk).
      apply lookup_insert_None in Hnone. tauto.
Qed.

(** With a key on every record, the only way to fail is a taken key. *)
Lemma add_all_error records : ∀ store e,
  Forall (λ v, is_Some (key_of v)) records →
  add_all store records = Err e → e = ConstraintError.
Proof.
  induction records as [|r rest IH]; intros store e Hkeys; [done|].
  apply Forall_cons in Hkeys as [[k Hk] Hkeys].
  cbn [add_all]. unfold add. rewrite Hk.
  destruct (store !! k); cbn [mbind Result_bind]; [congruence|]. by apply IH.
Qed.

Lemma add_all_getAll store :
  store_wf store = true → add_all ∅ (getAll store) = Ok store.
Proof.
  intros Hwf. rewrite add_all_empty.
  - by rewrite (list_to_map_getAll _ Hwf).
  - apply Forall_forall. intros v Hv.
    destruct (getAll_key _ _ Hwf Hv) as (k & -> & _). by eexists.
  - by apply getAll_NoDup.
Qed.

(** X10.  [importThreads] of the facade on the Local Engine, for threads that all
    carry a non-empty string id and without I/O failures.  When the ids are
    pairwise distinct and none of them is stored, the call returns the threads
    and the store is the old one with each thread added under its id.  When
    two of the threads share an id, or one of the ids is already stored, the
    call is rejected with the constraint error and nothing is imported: the
    Local Engine does not overwrite on import. *)
Theorem importThreads_local_adds threads w :
  currentStorage w = UseIndexedDB → store_wf (idb_threads w) = true →
  faults w = [] →
  Forall (λ t, ∃ k, key_of t = Some k ∧ k ≠ EmptyString) threads →
  (NoDup (key_of <$> threads) →
   (∀ t k, t ∈ threads → key_of t = Some k → idb_threads w !! k = None) →
   (importThreads threads w).1 = Ok threads
   ∧ ∀ k v, idb_threads (importThreads threads w).2 !! k = Some v
            ↔ (v ∈ threads ∧ key_of v = Some k) ∨ idb_threads w !! k = Some v)
  ∧ ((¬ NoDup (key_of <$> threads)
      ∨ ∃ t k, t ∈ threads ∧ key_of t = Some k ∧ is_Some (idb_threads w !! k)) →
     (importThreads threads w).1 = Err ConstraintError
     ∧ idb_threads (importThreads threads w).2 = idb_threads w).
Proof.
  intros Hlocal Hwf Hf Hkeys. unfold importThreads. unfold_async. rewrite Hlocal.
  destruct (getThreads_ok w Hf) as (w1 & -> & (Hev1 & Hidb1 & _) & Hf1 & _).
  assert (Hsome : Forall (λ v, is_Some (key_of v)) threads).
  { eapply Forall_impl; [done|]. intros v (k & -> & _). by eexists. }
  assert (Hclean : filter (λ t, storable t = true) (getAll (idb_threads w) ++ threads)
                   = getAll (idb_threads w) ++ threads).
  { rewrite filter_app, (getAll_storable _ Hwf). f_equal. apply filter_all.
    intros v Hv. rewrite Forall_forall in Hkeys.
    destruct (Hkeys v Hv) as (k & ? & ?). by eapply key_of_storable. }
  assert (Hadd : add_all ∅ (getAll (idb_threads w) ++ threads)
                 = add_all (idb_threads w) threads).
  { by rewrite add_all_app, (add_all_getAll _ Hwf). }
  destruct (add_all (idb_threads w) threads) as [store'|e] eqn:Hrun.
  - destruct (saveThreads_clean_ok _ _ w1 Hf1 Hclean Hadd)
      as (w2 & -> & _ & Hidb2 & _).
    cbn [fst snd]. destruct (add_all_NoDup _ _ _ Hrun) as [Hnd Hfresh]. split.
    + intros _ _. split; [done|]. intros k v. rewrite Hidb2.
      apply (add_all_lookup _ _ _ Hrun).
    + intros [Hdup|(t & k & Ht & Hk & [v Hv])]; [done|].
      rewrite (Hfresh t k Ht Hk) in Hv. done.
  - pose proof (add_all_error _ _ _ Hsome Hrun) as ->.
    destruct (saveThreads_refused (getAll (idb_threads w) ++ threads)
                ConstraintError w1 Hf1) as (w2 & -> & _ & Hidb2 & _);
      [by rewrite Hclean|].
    cbn [fst snd]. split; [|intros _; split; congruence].
    intros Hnd Hfresh. exfalso.
    rewrite add_all_fresh in Hrun; [done|done| |].
    + by apply save_claims.NoDup_entries.
    + intros v Hv. rewrite Forall_forall in Hkeys.
      destruct (Hkeys v Hv) as (k & Hk & _). rewrite (entry_key _ _ Hk).
      by eapply Hfresh.
Qed.

Lemma importThreads_local_adds_witness :
  (importThreads [samples.t1] samples.local_world).1 = Err ConstraintError
  ∧ idb_threads (importThreads [samples.t1] samples.local_world).2
    = idb_threads samples.local_world.
Proof.
  apply (importThreads_local_adds [samples.t1] samples.local_world);
    try reflexivity.
  - repeat constructor. exists "t1". split; [reflexivity|discriminate].
  - right. exists samples.t1, "t1". split; [by left|]. split; [reflexivity|].
    eexists. reflexivity.
Defined.

Lemma facade_deleteThread_remote threadId w :
  currentStorage w = UseRemote →
  deleteThread threadId w = remoteStorage.deleteThread threadId w.
Proof.
  intros Hcs. unfold deleteThread. unfold_async. rewrite Hcs.
  by destruct (remoteStorage.deleteThread threadId w) as [[]].
Qed.

(** X11.  [deleteThread] of a stored id, on either engine and without I/O
    failures: the call returns true, the active collection is the old one
    without that id (every other thread is kept), and [getThread] of the id
    then answers null. *)
Theorem deleteThread_removes threadId w :
  faults w = [] → is_Some (active_threads w !! threadId) →
  (currentStorage w = UseIndexedDB → store_wf (idb_threads w) = true) →
  (currentStorage w = UseRemote →
   is_Some (currentUser w) ∧ remoteStorage.valid_doc_id threadId = true) →
  (deleteThread threadId w).1 = Ok true
  ∧ active_threads (deleteThread threadId w).2 = delete threadId (active_threads w)
  ∧ (getThread threadId (deleteThread threadId w).2).1 = Ok VNull.
Proof.
  intros Hf [t Ht] Hlocal Hremote. unfold active_threads in *.
  destruct (deleteThread threadId w) as [o w1] eqn:E. cbn [fst snd].
  destruct (currentStorage w) eqn:Hcs.
  - specialize (Hlocal eq_refl).
    apply delete_claims.deleteThread_local_inv in E as (Hev & _ & Hc & Hok); try done.
    specialize (Hok Hf). rewrite Ht in Hok. subst o.
    pose proof Hev as (_ & Hcs1 & _ & _ & _ & Hfs). rewrite Hcs1, Hcs.
    destruct Hc as [[[[=]|[e [=]]] _]|(_ & _ & Hidb)].
    split; [done|]. split; [done|].
    destruct (getThread threadId w1) as [o2 w2] eqn:E2. cbn [fst].
    apply getThread_local_inv in E2 as (_ & _ & _ & Hok2); [|congruence].
    rewrite (Hok2 (Hfs Hf)), Hidb. unfold found. by rewrite lookup_delete_eq.
  - destruct (Hremote eq_refl) as [Hu Hv].
    rewrite facade_deleteThread_remote in E by done.
    apply remote_facts.deleteThread_inv in E as (Hev & _ & _ & Hc & Hok).
    specialize (Hok Hf Hu Hv). rewrite Ht in Hok. subst o.
    pose proof Hev as (Hu1 & Hcs1 & _ & _ & _ & Hfs). rewrite Hcs1, Hcs.
    destruct Hc as [[[e [=]] _]|(_ & _ & Hrem)].
    split; [done|]. split; [done|].
    destruct (getThread threadId w1) as [o2 w2] eqn:E2. cbn [fst].
    apply getThread_remote_inv in E2 as (_ & _ & _ & Hok2); [|congruence].
    rewrite Hok2; [|auto|by rewrite Hu1|done]. by rewrite Hrem, lookup_delete_eq.
Qed.

Lemma deleteThread_removes_witness :
  (deleteThread "t1" samples.remote_world).1 = Ok true
  ∧ active_threads (deleteThread "t1" samples.remote_world).2
    = delete "t1" (active_threads samples.remote_world)
  ∧ (getThread "t1" (deleteThread "t1" samples.remote_world).2).1 = Ok VNull.
Proof.
  apply (deleteThread_removes "t1" samples.remote_world).
  - reflexivity.
  - eexists. reflexivity.
  - discriminate.
  - intros _. split; [eexists|]; reflexivity.
Defined.

(** X12.  [updateThread] merges: for a thread stored under the id, on either
    engine and without I/O failures, the call returns true and the thread
    stored afterwards has every field of the updates with the value given
    there and every other field as before, the modification stamps of the
    Remote Engine apart; the other threads are untouched.  On the Local
    Engine the stored thread is exactly the spread of the old thread and the
    updates. *)
Theorem updateThread_merges threadId updates thread w :
  faults w = [] → active_threads w !! threadId = Some thread →
  is_object thread = true →
  (currentStorage w = UseIndexedDB →
   store_wf (idb_threads w) = true
   ∧ ∀ v, own_props updates !! "id" = Some v → v = VStr threadId) →
  (currentStorage w = UseRemote →
   is_Some (currentUser w) ∧ remoteStorage.valid_doc_id threadId = true) →
  (updateThread threadId updates w).1 = Ok true
  ∧ ∃ thread',
      active_threads (updateThread threadId updates w).2 !! threadId = Some thread'
      ∧ (∀ k v, own_props updates !! k = Some v →
                k ∉ ["updatedAt"; "lastModifiedBy"; "lastModifiedByUid"] →
                get k thread' = v)
      ∧ (∀ k, own_props updates !! k = None →
              k ∉ ["updatedAt"; "lastModifiedBy"; "lastModifiedByUid"] →
              get k thread' = get k thread)
      ∧ (currentStorage w = UseIndexedDB → thread' = VObj (spread thread updates))
      ∧ (∀ id, id ≠ threadId →
               active_threads (updateThread threadId updates w).2 !! id
               = active_threads w !! id).
Proof.
  intros Hf Ht Hobj Hlocal Hremote. unfold active_threads in *.
  destruct thread as [| | | | | |fs]; try done.
  destruct (updateThread threadId updates w) as [o w1] eqn:E. cbn [fst snd].
  destruct (currentStorage w) eqn:Hcs.
  - destruct (Hlocal eq_refl) as [Hwf Hid].
    apply updateThread_local_inv in E as (Hev & _ & _ & Hc & Hok); [|done].
    destruct (found_Some _ _ _ Hwf Ht) as [Hfound Htruthy].
    destruct (store_wf_lookup _ _ _ Hwf Ht) as [Hkey Hne].
    assert (Hkey' : key_of (VObj (spread (VObj fs) updates)) = Some threadId).
    { unfold key_of, get, spread in *. cbn [own_props] in *.
      rewrite lookup_union. destruct (own_props updates !! "id") as [v|] eqn:Hv.
      - rewrite (Hid v eq_refl). by destruct (fs !! "id").
      - by rewrite (left_id_L None _). }
    destruct (saved_put_at _ _ _ _ Hwf Ht Hkey') as [Hclean Hadd].
    unfold rewritten in Hc, Hok. rewrite Hfound, Hclean, Hadd in Hc, Hok.
    specialize (Hok Hf). rewrite Htruthy in Hok. subst o.
    destruct Hc as [[[e [=]] _]|(_ & _ & [= <-])].
    pose proof Hev as (_ & -> & _). rewrite Hcs. split; [done|].
    eexists. rewrite lookup_insert_eq. split; [done|].
    split; [|split; [|split]].
    + intros k v Hk _. unfold get, spread. cbn [own_props].
      by rewrite lookup_union, Hk, union_Some_l.
    + intros k Hk _. unfold get, spread. cbn [own_props].
      by rewrite lookup_union, Hk, (left_id_L None _).
    + done.
    + intros id Hne'. by rewrite lookup_insert_ne.
  - destruct (Hremote eq_refl) as [Hu Hv].
    apply updateThread_remote_inv in E as (Hev & _ & _ & Hc & Hok); [|done].
    specialize (Hok Hf Hu Hv). rewrite Ht in Hok. subst o.
    destruct Hc as [[[e [=]] _]|(_ & u & d & _ & Hd & Hrem)].
    rewrite Ht in Hd. injection Hd as <-.
    pose proof Hev as (_ & -> & _). rewrite Hcs, Hrem. split; [done|].
    eexists. rewrite lookup_insert_eq. split; [done|].
    assert (∀ k, k ∉ ["updatedAt"; "lastModifiedBy"; "lastModifiedByUid"] →
                 stamped u (server_now w) updates !! k = own_props updates !! k)
      as Hst.
    { intros k Hk. unfold stamped.
      rewrite !lookup_insert_ne; [done|..]; intros <-; apply Hk; repeat constructor. }
    split; [|split; [|split]].
    + intros k v Hk Hns. unfold get. cbn [own_props].
      by rewrite lookup_union, (Hst k Hns), Hk, union_Some_l.
    + intros k Hk Hns. unfold get. cbn [own_props].
      by rewrite lookup_union, (Hst k Hns), Hk, (left_id_L None _).
    + done.
    + intros id Hne'. by rewrite lookup_insert_ne.
Qed.

Lemma updateThread_merges_witness :
  (updateThread "t1" samples.good samples.local_world).1 = Ok true
  ∧ ∃ thread',
      active_threads (updateThread "t1" samples.good samples.local_world).2 !! "t1"
        = Some thread'
      ∧ (∀ k v, own_props samples.good !! k = Some v →
                k ∉ ["updatedAt"; "lastModifiedBy"; "lastModifiedByUid"] →
                get k thread' = v)
      ∧ (∀ k, own_props samples.good !! k = None →
              k ∉ ["updatedAt"; "lastModifiedBy"; "lastModifiedByUid"] →
              get k thread' = get k samples.t1)
      ∧ (currentStorage samples.local_world = UseIndexedDB →
         thread' = VObj (spread samples.t1 samples.good))
      ∧ (∀ id, id ≠ "t1" →
               active_threads (updateThread "t1" samples.good samples.local_world).2 !! id
               = active_threads samples.local_world !! id).
Proof.
  apply (updateThread_merges "t1" samples.good samples.t1 samples.local_world).
  - reflexivity.
  - reflexivity.
  - reflexivity.
  - intros _. split; [reflexivity|]. intros v Hv. vm_compute in Hv. discriminate.
  - discriminate.
Defined.

End thread_extra.

Module annotation_extra.
Import IndexedDBStorage storageService.
Import async_facts store_facts facade_store_facts local_facade_facts.
Import annotation_local_facts annotation_remote_facts annotation_claims.

(** The thread a mutation writes, before the Remote Engine stamps it. *)
Lemma annotations_appended time annotationData thread :
  get "annotations" (appended time annotationData thread)
  = VArr (as_array (get "annotations" thread)
          ++ [VObj (<["timestamp" := VStr time]> (own_props annotationData))]).
Proof. unfold appended. by rewrite get_insert_eq. Qed.

Lemma annotations_removed annotationIndex thread :
  (0 ≤ annotationIndex < Z.of_nat (length (as_array (get "annotations" thread))))%Z →
  get "annotations" (removed annotationIndex thread)
  = VArr (delete (Z.to_nat annotationIndex) (as_array (get "annotations" thread))).
Proof.
  intros [Hlo Hhi]. unfold removed. rewrite get_insert_ne, get_insert_eq by done.
  rewrite bool_decide_eq_true_2 by done. unfold splice1.
  rewrite (proj2 (Z.ltb_ge _ _)) by done. by rewrite Z.min_l by lia.
Qed.

(** One mutation that goes through, and the world it leaves: ready for the
    next one. *)
Lemma run_op_ok op thread w :
  faults w = [] → active_threads w !! op_thread op = Some thread →
  is_object thread = true →
  (currentStorage w = UseIndexedDB → store_wf (idb_threads w) = true) →
  (currentStorage w = UseRemote →
   is_Some (currentUser w) ∧ remoteStorage.valid_doc_id (op_thread op) = true) →
  ∃ w1 thread',
    run_op op w = (Ok true, w1)
    ∧ faults w1 = [] ∧ evolves w w1
    ∧ (currentStorage w = UseIndexedDB → store_wf (idb_threads w1) = true)
    ∧ active_threads w1 !! op_thread op = Some thread'
    ∧ is_object thread' = true
    ∧ get "annotations" thread'
      = get "annotations"
          match op with
          | AppendAnnotation _ annotationData => appended (now w) annotationData thread
          | DeleteAnnotation _ annotationIndex => removed annotationIndex thread
          end.
Proof.
  intros Hf Ht Hobj Hlocal Hremote. unfold active_threads in *.
  destruct thread as [| | | | | |fs]; try done.
  destruct (run_op op w) as [o w1] eqn:Hrun. exists w1.
  destruct (currentStorage w) eqn:Hcs,
           op as [threadId annotationData|threadId annotationIndex];
    cbn [run_op op_thread] in *.
  - specialize (Hlocal eq_refl).
    apply updateAnnotation_local_inv in Hrun as (Hev & _ & _ & Hc & Hok); try done.
    specialize (Hok Hf). rewrite Ht in Hok, Hc. subst o.
    destruct Hc as [[[e [=]] _]|(_ & t & [= <-] & Hidb)].
    pose proof Hev as (_ & Hcs1 & _ & _ & _ & Hfs). rewrite Hcs1, Hcs, Hidb.
    destruct (store_wf_lookup _ _ _ Hlocal Ht) as [Hk Hne].
    eexists. split; [done|]. split; [auto|]. split; [done|]. split.
    { intros _. apply store_wf_insert; [done| |done]. by apply key_of_appended. }
    rewrite lookup_insert_eq. done.
  - specialize (Hlocal eq_refl).
    apply deleteAnnotation_local_inv in Hrun as (Hev & _ & _ & Hc & Hok); try done.
    specialize (Hok Hf). rewrite Ht in Hok, Hc. subst o.
    destruct Hc as [[[e [=]] _]|(_ & t & [= <-] & Hidb)].
    pose proof Hev as (_ & Hcs1 & _ & _ & _ & Hfs). rewrite Hcs1, Hcs, Hidb.
    destruct (store_wf_lookup _ _ _ Hlocal Ht) as [Hk Hne].
    eexists. split; [done|]. split; [auto|]. split; [done|]. split.
    { intros _. apply store_wf_insert; [done| |done]. by apply key_of_removed. }
    rewrite lookup_insert_eq. done.
  - destruct (Hremote eq_refl) as [Hu Hv].
    apply updateAnnotation_remote_inv in Hrun as (Hev & _ & _ & Hc & Hok); try done.
    specialize (Hok Hf Hu Hv). rewrite Ht in Hok, Hc. specialize (Hok eq_refl). subst o.
    destruct Hc as [[[e [=]] _]|(_ & u & d & _ & [= <-] & _ & Hrem)].
    pose proof Hev as (_ & Hcs1 & _ & _ & _ & Hfs). rewrite Hcs1, Hcs, Hrem.
    eexists. split; [done|]. split; [auto|]. split; [done|]. split; [done|].
    rewrite lookup_insert_eq. split; [done|]. split; [done|].
    unfold appended. rewrite get_stamped; [done| |done..].
    rewrite lookup_insert_eq. by eexists.
  - destruct (Hremote eq_refl) as [Hu Hv].
    apply deleteAnnotation_remote_inv in Hrun as (Hev & _ & _ & Hc & Hok); try done.
    specialize (Hok Hf Hu Hv). rewrite Ht in Hok, Hc. specialize (Hok eq_refl). subst o.
    destruct Hc as [[[e [=]] _]|(_ & u & d & _ & [= <-] & _ & Hrem)].
    pose proof Hev as (_ & Hcs1 & _ & _ & _ & Hfs). rewrite Hcs1, Hcs, Hrem.
    eexists. split; [done|]. split; [auto|]. split; [done|]. split; [done|].
    rewrite lookup_insert_eq. split; [done|]. split; [done|].
    unfold removed. rewrite get_stamped; [done| |done..].
    rewrite lookup_insert_ne, lookup_insert_eq by done. by eexists.
Qed.

(** Two mutations in a row on the same thread. *)
Lemma run_op_twice op1 op2 thread w :
  op_thread op2 = op_thread op1 →
  faults w = [] → active_threads w !! op_thread op1 = Some thread →
  is_object thread = true →
  (currentStorage w = UseIndexedDB → store_wf (idb_threads w) = true) →
  (currentStorage w = UseRemote →
   is_Some (currentUser w) ∧ remoteStorage.valid_doc_id (op_thread op1) = true) →
  ∃ thread1 thread2,
    (run_op op1 w).1 = Ok true
    ∧ active_threads (run_op op1 w).2 !! op_thread op1 = Some thread1
    ∧ get "annotations" thread1
      = get "annotations"
          match op1 with
          | AppendAnnotation _ annotationData => appended (now w) annotationData thread
          | DeleteAnnotation _ annotationIndex => removed annotationIndex thread
          end
    ∧ (run_op op2 (run_op op1 w).2).1 = Ok true
    ∧ active_threads (run_op op2 (run_op op1 w).2).2 !! op_thread op1 = Some thread2
    ∧ get "annotations" thread2
      = get "annotations"
          match op2 with
          | AppendAnnotation _ annotationData =>
              appended (now (run_op op1 w).2) annotationData thread1
          | DeleteAnnotation _ annotationIndex => removed annotationIndex thread1
          end.
Proof.
  intros Hsame Hf Ht Hobj Hlocal Hremote.
  destruct (run_op_ok op1 thread w Hf Ht Hobj Hlocal Hremote)
    as (w1 & thread1 & E1 & Hf1 & Hev1 & Hwf1 & Ht1 & Hobj1 & Ha1).
  rewrite E1. cbn [fst snd]. pose proof Hev1 as (Hu1 & Hcs1 & _).
  destruct (run_op_ok op2 thread1 w1) as (w2 & thread2 & E2 & _ & _ & _ & Ht2 & _ & Ha2).
  - done.
  - by rewrite Hsame.
  - done.
  - rewrite Hcs1. done.
  - rewrite Hcs1, Hu1, Hsame. done.
  - rewrite E2. cbn [fst snd]. rewrite Hsame in Ht2. exists thread1, thread2. done.
Qed.

(** X13.  Annotations keep the order of the calls.  Two [updateAnnotation]
    calls on a stored thread, with time passing between them (the clock reads
    [later] when the second call is made; either engine, no I/O failure),
    both succeed and leave the thread with its old annotations, then the
    first new one, then the second: the first carries the time its call read
    from the clock, the second the time the second call read. *)
Theorem updateAnnotation_keeps_call_order threadId first second later thread w :
  faults w = [] → active_threads w !! threadId = Some thread →
  is_object thread = true →
  (currentStorage w = UseIndexedDB → store_wf (idb_threads w) = true) →
  (currentStorage w = UseRemote →
   is_Some (currentUser w) ∧ remoteStorage.valid_doc_id threadId = true) →
  let w1 := set_now later (updateAnnotation threadId first w).2 in
  (updateAnnotation threadId first w).1 = Ok true
  ∧ (updateAnnotation threadId second w1).1 = Ok true
  ∧ ∃ thread',
      active_threads (updateAnnotation threadId second w1).2 !! threadId
      = Some thread'
      ∧ get "annotations" thread'
        = VArr (as_array (get "annotations" thread)
                ++ [VObj (<["timestamp" := VStr (now w)]> (own_props first));
                    VObj (<["timestamp" := VStr later]> (own_props second))]).
Proof.
  intros Hf Ht Hobj Hlocal Hremote w1.
  destruct (run_op_ok (AppendAnnotation threadId first) thread w Hf Ht Hobj Hlocal Hremote)
    as (w' & thread1 & E1 & Hf1 & Hev1 & Hwf1 & Ht1 & Hobj1 & Ha1).
  cbn [run_op op_thread] in *. subst w1. rewrite E1. cbn [fst snd].
  pose proof Hev1 as (Hu1 & Hcs1 & _).
  destruct (run_op_ok (AppendAnnotation threadId second) thread1 (set_now later w'))
    as (w2 & thread2 & E2 & _ & _ & _ & Ht2 & _ & Ha2); try done.
  - cbn. by rewrite Hcs1.
  - cbn. by rewrite Hcs1, Hu1.
  - cbn [run_op op_thread] in *. rewrite E2. cbn [fst snd].
    split; [done|]. split; [done|]. exists thread2. split; [done|].
    rewrite Ha2, annotations_appended, Ha1, annotations_appended.
    cbn [as_array now set_now]. by rewrite <- app_assoc.
Qed.

Lemma updateAnnotation_keeps_call_order_witness :
  let w1 := set_now "2024-05-01T10:05:00.000Z"
              (updateAnnotation "t2" samples.good samples.local_world).2 in
  (updateAnnotation "t2" samples.good samples.local_world).1 = Ok true
  ∧ (updateAnnotation "t2" samples.bad w1).1 = Ok true
  ∧ ∃ thread',
      active_threads (updateAnnotation "t2" samples.bad w1).2 !! "t2" = Some thread'
      ∧ get "annotations" thread'
        = VArr (as_array (get "annotations" samples.t2)
                ++ [VObj (<["timestamp" := VStr (now samples.local_world)]>
                            (own_props samples.good));
                    VObj (<["timestamp" := VStr "2024-05-01T10:05:00.000Z"]>
                            (own_props samples.bad))]).
Proof.
  apply (updateAnnotation_keeps_call_order "t2" samples.good samples.bad
           "2024-05-01T10:05:00.000Z" samples.t2 samples.local_world);
    try reflexivity.
  discriminate.
Defined.

(** X14.  Append and delete undo each other: after [updateAnnotation] on a stored
    thread, [deleteAnnotation] at the index the new annotation received (the
    old length) leaves the thread with its old annotations, in their order. *)
Theorem deleteAnnotation_undoes_append threadId annotationData thread w :
  faults w = [] → active_threads w !! threadId = Some thread →
  is_object thread = true →
  (currentStorage w = UseIndexedDB → store_wf (idb_threads w) = true) →
  (currentStorage w = UseRemote →
   is_Some (currentUser w) ∧ remoteStorage.valid_doc_id threadId = true) →
  let index := Z.of_nat (length (as_array (get "annotations" thread))) in
  (deleteAnnotation threadId index (updateAnnotation threadId annotationData w).2).1
  = Ok true
  ∧ ∃ thread',
      active_threads
        (deleteAnnotation threadId index
           (updateAnnotation threadId annotationData w).2).2 !! threadId
      = Some thread'
      ∧ get "annotations" thread' = VArr (as_array (get "annotations" thread)).
Proof.
  intros Hf Ht Hobj Hlocal Hremote index.
  destruct (run_op_twice (AppendAnnotation threadId annotationData)
              (DeleteAnnotation threadId index) thread w eq_refl Hf Ht Hobj Hlocal Hremote)
    as (thread1 & thread2 & Ho1 & Ht1 & Ha1 & Ho2 & Ht2 & Ha2).
  cbn [run_op op_thread] in *. split; [done|].
  exists thread2. split; [done|]. rewrite annotations_appended in Ha1.
  rewrite Ha2, annotations_removed; rewrite Ha1; cbn [as_array].
  - unfold index. rewrite Nat2Z.id. by rewrite delete_middle, app_nil_r.
  - rewrite length_app. cbn [length]. lia.
Qed.

Lemma deleteAnnotation_undoes_append_witness :
  (deleteAnnotation "t1" 0 (updateAnnotation "t1" samples.good samples.remote_world).2).1
  = Ok true
  ∧ ∃ thread',
      active_threads
        (deleteAnnotation "t1" 0
           (updateAnnotation "t1" samples.good samples.remote_world).2).2 !! "t1"
      = Some thread'
      ∧ get "annotations" thread' = VArr (as_array (get "annotations" samples.t1)).
Proof.
  apply (deleteAnnotation_undoes_append "t1" samples.good samples.t1
           samples.remote_world).
  - reflexivity.
  - reflexivity.
  - reflexivity.
  - discriminate.
  - intros _. split; [eexists|]; reflexivity.
Defined.

(** X15.  [deleteAnnotation] with an index inside the sequence removes exactly the
    annotation at that index: on a stored thread (either engine, no I/O
    failure) the call returns true and the thread is written back with the
    annotations before the index followed by those after it. *)
Theorem deleteAnnotation_removes_index threadId annotationIndex thread w :
  faults w = [] → active_threads w !! threadId = Some thread →
  is_object thread = true →
  (currentStorage w = UseIndexedDB → store_wf (idb_threads w) = true) →
  (currentStorage w = UseRemote →
   is_Some (currentUser w) ∧ remoteStorage.valid_doc_id threadId = true) →
  (0 ≤ annotationIndex < Z.of_nat (length (as_array (get "annotations" thread))))%Z →
  (deleteAnnotation threadId annotationIndex w).1 = Ok true
  ∧ ∃ thread',
      active_threads (deleteAnnotation threadId annotationIndex w).2 !! threadId
      = Some thread'
      ∧ get "annotations" thread'
        = VArr (take (Z.to_nat annotationIndex) (as_array (get "annotations" thread))
                ++ drop (S (Z.to_nat annotationIndex))
                        (as_array (get "annotations" thread))).
Proof.
  intros Hf Ht Hobj Hlocal Hremote Hrange.
  destruct (run_op_ok (DeleteAnnotation threadId annotationIndex) thread w
              Hf Ht Hobj Hlocal Hremote)
    as (w1 & thread1 & E1 & _ & _ & _ & Ht1 & _ & Ha1).
  cbn [run_op op_thread] in *. rewrite E1. cbn [fst snd]. split; [done|].
  exists thread1. split; [done|].
  by rewrite Ha1, annotations_removed, delete_take_drop.
Qed.

Lemma deleteAnnotation_removes_index_witness :
  (deleteAnnotation "t2" 0 samples.local_world).1 = Ok true
  ∧ ∃ thread',
      active_threads (deleteAnnotation "t2" 0 samples.local_world).2 !! "t2"
      = Some thread'
      ∧ get "annotations" thread'
        = VArr (take (Z.to_nat 0) (as_array (get "annotations" samples.t2))
                ++ drop (S (Z.to_nat 0)) (as_array (get "annotations" samples.t2))).
Proof.
  apply (deleteAnnotation_removes_index "t2" 0 samples.t2 samples.local_world);
    try reflexivity.
  - discriminate.
  - vm_compute. split; [discriminate|reflexivity].
Defined.

End annotation_extra.

Module remote_extra.
Import IndexedDBStorage storageService storageService_rest.
Import async_facts store_facts facade_store_facts remote_facts annotation_remote_facts.

(** A fault-free [saveThread] of the Remote Engine. *)
Lemma saveThread_remote_ok thread k user w :
  currentUser w = Some user → faults w = [] →
  key_of thread = Some k → remoteStorage.valid_doc_id k = true →
  ∃ w1, remoteStorage.saveThread thread w
        = (Ok (saved_with remoteStorage.serverTimestamp user thread), w1)
        ∧ evolves w w1 ∧ idb_threads w1 = idb_threads w
        ∧ remote_threads w1
          = <[k := saved user (server_now w) thread]> (remote_threads w).
Proof.
  intros Hu Hf Hk Hv. unfold remoteStorage.saveThread.
  rewrite (authenticated_Some _ _ user) by done.
  destruct (sync_claims.key_of_get _ _ Hk) as [Hid Hnn].
  unfold prop, remoteStorage.doc. unfold_async.
  rewrite Hnn, Hid, Hv.
  destruct (remoteStorage.setDoc k _ w) as [o w2] eqn:E.
  apply setDoc_inv in E as (Hev & Hidb & _ & Hc & Hok).
  rewrite (Hok Hf) in *. destruct Hc as [[_ Hrem]|[[=] _]].
  exists w2. done.
Qed.

(** A thread without a string id is refused before any request is sent. *)
Lemma saveThread_remote_refused thread user w :
  currentUser w = Some user → key_of thread = None →
  ∃ e, remoteStorage.saveThread thread w = (Err e, w).
Proof.
  intros Hu Hk. unfold remoteStorage.saveThread.
  rewrite (authenticated_Some _ _ user) by done.
  unfold prop, remoteStorage.doc, key_of in *. unfold_async.
  destruct (nullish thread); [by eexists|].
  destruct (get "id" thread); try done; by eexists.
Qed.

Lemma facade_saveThread_remote thread w :
  currentStorage w = UseRemote →
  saveThread thread w = remoteStorage.saveThread thread w.
Proof.
  intros Hcs. unfold saveThread. unfold_async. rewrite Hcs.
  by destruct (remoteStorage.saveThread thread w) as [[]].
Qed.

(** X16.  [saveThread] of the facade with the Remote Engine active, a
    session and no I/O failure, for a thread whose id Firestore accepts.  The
    document stored under the id is replaced as a whole by the thread with
    the stamps added, [getThread] then reads that document back, and the
    local store is untouched.  The stamps are the user's email and uid, the
    server time as [updatedAt], and as [createdAt] the thread's own value
    when it has a truthy one, the server time otherwise; every other field is
    the thread's.  The call returns the object it built, which is not the
    stored document: it holds the [serverTimestamp()] sentinel where the
    document holds the server time, and agrees with it on every other
    field. *)
Theorem saveThread_remote_replaces thread k user w :
  currentStorage w = UseRemote → currentUser w = Some user → faults w = [] →
  key_of thread = Some k → remoteStorage.valid_doc_id k = true →
  let document := saved user (server_now w) thread in
  let returned := saved_with remoteStorage.serverTimestamp user thread in
  (saveThread thread w).1 = Ok returned
  ∧ remote_threads (saveThread thread w).2 = <[k := document]> (remote_threads w)
  ∧ idb_threads (saveThread thread w).2 = idb_threads w
  ∧ (getThread k (saveThread thread w).2).1 = Ok document
  ∧ get "lastModifiedBy" document = VStr (email user)
  ∧ get "lastModifiedByUid" document = VStr (uid user)
  ∧ get "updatedAt" document = VStr (server_now w)
  ∧ get "createdAt" document = js_or (get "createdAt" thread) (VStr (server_now w))
  ∧ (∀ field, field ∉ ["lastModifiedBy"; "lastModifiedByUid"; "updatedAt"; "createdAt"] →
              get field document = get field thread)
  ∧ get "updatedAt" returned = remoteStorage.serverTimestamp
  ∧ get "createdAt" returned
    = js_or (get "createdAt" thread) remoteStorage.serverTimestamp
  ∧ (∀ field, field ∉ ["updatedAt"; "createdAt"] →
              get field returned = get field document).
Proof.
  intros Hcs Hu Hf Hk Hv document returned. rewrite facade_saveThread_remote by done.
  destruct (saveThread_remote_ok thread k user w Hu Hf Hk Hv)
    as (w1 & -> & Hev & Hidb & Hrem).
  cbn [fst snd]. split; [done|]. split; [done|]. split; [done|].
  pose proof Hev as (Hu1 & Hcs1 & _ & _ & _ & Hfs). split.
  { destruct (getThread k w1) as [o w2] eqn:E. cbn [fst].
    apply getThread_remote_inv in E as (_ & _ & _ & Hok); [|congruence].
    rewrite Hok; [|auto|rewrite Hu1, Hu; by eexists|done].
    by rewrite Hrem, lookup_insert_eq. }
  unfold document, returned, saved, saved_with.
  split; [by rewrite !annotation_claims.get_insert_ne, annotation_claims.get_insert_eq by done|].
  split; [by rewrite !annotation_claims.get_insert_ne, annotation_claims.get_insert_eq by done|].
  split; [by rewrite !annotation_claims.get_insert_ne, annotation_claims.get_insert_eq by done|].
  split; [by rewrite annotation_claims.get_insert_eq|].
  split.
  { intros field Hfield. destruct (annotation_local_facts.key_of_object _ _ Hk) as [fs ->].
    cbn [own_props].
    rewrite !annotation_claims.get_insert_ne; [done|..]; intros <-; apply Hfield;
      repeat constructor. }
  split; [by rewrite !annotation_claims.get_insert_ne, annotation_claims.get_insert_eq by done|].
  split; [by rewrite annotation_claims.get_insert_eq|].
  intros field Hfield.
  rewrite !(annotation_claims.get_insert_ne field "createdAt"),
          !(annotation_claims.get_insert_ne field "updatedAt");
    [done|..]; intros <-; apply Hfield; repeat constructor.
Qed.

Lemma saveThread_remote_replaces_witness :
  let document := saved samples.alice (server_now samples.remote_world) samples.t2 in
  let returned := saved_with remoteStorage.serverTimestamp samples.alice samples.t2 in
  (saveThread samples.t2 samples.remote_world).1 = Ok returned
  ∧ remote_threads (saveThread samples.t2 samples.remote_world).2
    = <["t2" := document]> (remote_threads samples.remote_world).
Proof.
  destruct (saveThread_remote_replaces samples.t2 "t2" samples.alice
              samples.remote_world) as (Hreturned & Hstored & _); try reflexivity.
  split; assumption.
Defined.

(** The loop of the bulk save, over threads the Remote Engine accepts. *)
Lemma save_each_ok user threads : ∀ w,
  currentUser w = Some user → faults w = [] →
  Forall (λ t, ∃ k, key_of t = Some k ∧ remoteStorage.valid_doc_id k = true) threads →
  ∃ w1, save_each threads w = (Ok (), w1)
        ∧ evolves w w1 ∧ idb_threads w1 = idb_threads w
        ∧ remote_threads w1
          = foldl (λ m t, <[(entry t).1 := saved user (server_now w) t]> m)
                  (remote_threads w) threads.
Proof.
  induction threads as [|t rest IH]; intros w Hu Hf Hvalid.
  - exists w. split; [done|]. split; [apply evolves_refl|done].
  - apply Forall_cons in Hvalid as [(k & Hk & Hv) Hvalid].
    cbn [save_each]. unfold_async.
    destruct (saveThread_remote_ok t k user w Hu Hf Hk Hv)
      as (w2 & -> & Hev & Hidb & Hrem).
    pose proof Hev as (Hu2 & _ & _ & Hsn & _ & Hfs).
    destruct (IH w2) as (w1 & -> & Hev2 & Hidb2 & Hrem2); [congruence|auto|done|].
    exists w1. split; [done|]. split; [by eapply evolves_trans|].
    split; [congruence|]. rewrite Hrem2, Hrem, Hsn. cbn [foldl].
    by rewrite (entry_key _ _ Hk).
Qed.

Lemma save_each_stops user good bad rest : ∀ w,
  currentUser w = Some user → faults w = [] →
  Forall (λ t, ∃ k, key_of t = Some k ∧ remoteStorage.valid_doc_id k = true) good →
  key_of bad = None →
  ∃ e w1, save_each (good ++ bad :: rest) w = (Err e, w1)
          ∧ evolves w w1 ∧ idb_threads w1 = idb_threads w
          ∧ remote_threads w1
            = foldl (λ m t, <[(entry t).1 := saved user (server_now w) t]> m)
                    (remote_threads w) good.
Proof.
  induction good as [|t good' IH]; intros w Hu Hf Hvalid Hbad.
  - cbn [app save_each]. unfold_async.
    destruct (saveThread_remote_refused bad user w Hu Hbad) as [e ->].
    exists e, w. split; [done|]. split; [apply evolves_refl|done].
  - apply Forall_cons in Hvalid as [(k & Hk & Hv) Hvalid].
    cbn [app save_each]. unfold_async.
    destruct (saveThread_remote_ok t k user w Hu Hf Hk Hv)
      as (w2 & -> & Hev & Hidb & Hrem).
    pose proof Hev as (Hu2 & _ & _ & Hsn & _ & Hfs).
    destruct (IH w2) as (e & w1 & -> & Hev2 & Hidb2 & Hrem2);
      [congruence|auto|done|done|].
    exists e, w1. split; [done|]. split; [by eapply evolves_trans|].
    split; [congruence|]. rewrite Hrem2, Hrem, Hsn. cbn [foldl].
    by rewrite (entry_key _ _ Hk).
Qed.

(** X17.  The bulk [saveThreads] of the facade is not atomic on the Remote Engine.
    With a session and no I/O failure, when the array holds threads the
    engine accepts (pairwise distinct ids), then one without a string id, the
    call answers false (it does not throw), and every thread before the
    refused one is stored all the same, as [saveThread] writes it; no other
    document is touched. *)
Theorem saveThreads_remote_not_atomic good bad rest user w :
  currentStorage w = UseRemote → currentUser w = Some user → faults w = [] →
  Forall (λ t, ∃ k, key_of t = Some k ∧ remoteStorage.valid_doc_id k = true) good →
  NoDup (key_of <$> good) → key_of bad = None →
  (saveThreads (VArr (good ++ bad :: rest)) w).1 = Ok false
  ∧ (∀ t k, t ∈ good → key_of t = Some k →
            remote_threads (saveThreads (VArr (good ++ bad :: rest)) w).2 !! k
            = Some (saved user (server_now w) t))
  ∧ (∀ k, Some k ∉ key_of <$> good →
          remote_threads (saveThreads (VArr (good ++ bad :: rest)) w).2 !! k
          = remote_threads w !! k).
Proof.
  intros Hcs Hu Hf Hvalid Hnd Hbad. unfold saveThreads. unfold_async.
  rewrite Hcs. cbn [iterate].
  destruct (save_each_stops user good bad rest w Hu Hf Hvalid Hbad)
    as (e & w1 & -> & _ & _ & Hrem).
  cbn [fst snd]. split; [done|]. rewrite Hrem.
  assert (Hsome : Forall (λ v, is_Some (key_of v)) good).
  { eapply Forall_impl; [done|]. intros v (k & -> & _). by eexists. }
  split.
  - intros t k Ht Hk.
    rewrite <- (sync_claims.foldl_insert_member (saved user (server_now w)) good
                  (remote_threads w) t); [|by apply save_claims.NoDup_entries|done].
    by rewrite (entry_key _ _ Hk).
  - intros k Hk. apply sync_claims.foldl_insert_other.
    intros Hin. apply Hk.
    apply list_elem_of_fmap in Hin as ([k' v] & -> & Hin).
    apply list_elem_of_fmap in Hin as (t & Het & Ht).
    apply list_elem_of_fmap. exists t. split; [|done].
    rewrite Forall_forall in Hsome. destruct (Hsome t Ht) as [k2 Hk2].
    rewrite (entry_key _ _ Hk2) in Het. by simplify_eq.
Qed.

Lemma saveThreads_remote_not_atomic_witness :
  (saveThreads (VArr ([samples.t2] ++ samples.good :: [samples.quoted]))
               samples.remote_world).1 = Ok false
  ∧ (∀ t k, t ∈ [samples.t2] → key_of t = Some k →
            remote_threads
              (saveThreads (VArr ([samples.t2] ++ samples.good :: [samples.quoted]))
                           samples.remote_world).2 !! k
            = Some (saved samples.alice (server_now samples.remote_world) t))
  ∧ (∀ k, Some k ∉ key_of <$> [samples.t2] →
          remote_threads
            (saveThreads (VArr ([samples.t2] ++ samples.good :: [samples.quoted]))
                         samples.remote_world).2 !! k
          = remote_threads samples.remote_world !! k).
Proof.
  apply (saveThreads_remote_not_atomic [samples.t2] samples.good [samples.quoted]
           samples.alice samples.remote_world); try reflexivity.
  - repeat constructor. exists "t2". split; reflexivity.
  - vm_compute. repeat constructor. intros Hin. inversion Hin.
Defined.

Lemma facade_importThreads_remote threads w :
  currentStorage w = UseRemote →
  importThreads threads w = remoteStorage.importThreads threads w.
Proof.
  intros Hcs. unfold importThreads. unfold_async. rewrite Hcs.
  by destruct (remoteStorage.importThreads threads w) as [[]].
Qed.

Lemma import_loop_stops user good bad rest : ∀ results w,
  faults w = [] →
  Forall (λ t, ∃ k, key_of t = Some k ∧ remoteStorage.valid_doc_id k = true) good →
  key_of bad = None →
  ∃ e w1, remoteStorage.import_loop user (good ++ bad :: rest) results w = (Err e, w1)
          ∧ evolves w w1 ∧ idb_threads w1 = idb_threads w
          ∧ remote_threads w1
            = foldl (λ m t, <[(entry t).1 := imported user (server_now w) t]> m)
                    (remote_threads w) good.
Proof.
  induction good as [|t good' IH]; intros results w Hf Hvalid Hbad.
  - cbn [app remoteStorage.import_loop].
    unfold prop, remoteStorage.doc, key_of in *.
    unfold_async.
    destruct (nullish bad).
    { exists TypeError, w. split; [done|]. split; [apply evolves_refl|done]. }
    exists TypeError, w.
    split; [by destruct (get "id" bad)|]. split; [apply evolves_refl|done].
  - apply Forall_cons in Hvalid as [(k & Hk & Hv) Hvalid].
    destruct (sync_claims.key_of_get _ _ Hk) as [Hid Hnn].
    cbn [app remoteStorage.import_loop].
    unfold prop, remoteStorage.doc.
    unfold_async. rewrite Hnn, Hid, Hv.
    destruct (remoteStorage.setDoc k _ w) as [o w2] eqn:E.
    apply setDoc_inv in E as (Hev & Hidb & _ & Hc & Hok).
    rewrite (Hok Hf) in *. destruct Hc as [[_ Hrem]|[[=] _]].
    pose proof Hev as (_ & _ & _ & Hsn & _ & Hfs).
    destruct (IH (results ++ [imported_with remoteStorage.serverTimestamp user t])
                w2 (Hfs Hf) Hvalid Hbad)
      as (e & w1 & Hloop & Hev2 & Hidb2 & Hrem2).
    exists e, w1. unfold imported_with in Hloop |- *. rewrite Hloop.
    split; [done|]. split; [by eapply evolves_trans|].
    split; [congruence|]. rewrite Hrem2, Hrem, Hsn. cbn [foldl].
    by rewrite (entry_key _ _ Hk).
Qed.

Lemma keys_of_entries threads k :
  Forall (λ v, is_Some (key_of v)) threads →
  k ∈ (entry <$> threads).*1 → Some k ∈ key_of <$> threads.
Proof.
  intros Hsome Hin.
  apply list_elem_of_fmap in Hin as ([k' v] & -> & Hin).
  apply list_elem_of_fmap in Hin as (t & Het & Ht).
  apply list_elem_of_fmap. exists t. split; [|done].
  rewrite Forall_forall in Hsome. destruct (Hsome t Ht) as [k2 Hk2].
  rewrite (entry_key _ _ Hk2) in Het. by simplify_eq.
Qed.

(** X18.  [importThreads] of the facade with the Remote Engine active, a session
    and no I/O failure, for threads whose ids Firestore accepts and are
    pairwise distinct.  Each thread is stored under its id, with the import
    stamps and the server time, whether or not a document was there before
    (the Remote Engine overwrites on import, where the Local Engine refuses);
    the other documents and the local store are untouched.  The call returns,
    in the order of the threads, the objects it built, which are not the
    stored documents: each holds the [serverTimestamp()] sentinel as
    [updatedAt] (and as [createdAt] when the thread has no truthy one) where
    the stored document holds the server time, and agrees with the stored
    document on every other field. *)
Theorem importThreads_remote_overwrites threads user w :
  currentStorage w = UseRemote → currentUser w = Some user → faults w = [] →
  Forall (λ t, ∃ k, key_of t = Some k ∧ remoteStorage.valid_doc_id k = true) threads →
  NoDup (key_of <$> threads) →
  let returned := imported_with remoteStorage.serverTimestamp user in
  let document := imported user (server_now w) in
  (importThreads threads w).1 = Ok (returned <$> threads)
  ∧ (∀ t k, t ∈ threads → key_of t = Some k →
            remote_threads (importThreads threads w).2 !! k = Some (document t))
  ∧ (∀ k, Some k ∉ key_of <$> threads →
          remote_threads (importThreads threads w).2 !! k = remote_threads w !! k)
  ∧ idb_threads (importThreads threads w).2 = idb_threads w
  ∧ (∀ t, get "updatedAt" (returned t) = remoteStorage.serverTimestamp
          ∧ get "updatedAt" (document t) = VStr (server_now w)
          ∧ get "createdAt" (returned t)
            = js_or (get "createdAt" t) remoteStorage.serverTimestamp
          ∧ get "createdAt" (document t)
            = js_or (get "createdAt" t) (VStr (server_now w))
          ∧ ∀ field, field ∉ ["updatedAt"; "createdAt"] →
                     get field (returned t) = get field (document t)).
Proof.
  intros Hcs Hu Hf Hvalid Hnd returned document.
  rewrite facade_importThreads_remote by done.
  unfold remoteStorage.importThreads. rewrite (authenticated_Some _ _ user) by done.
  unfold_async.
  destruct (sync_claims.import_loop_ok user threads [] w Hf Hvalid)
    as (w1 & -> & _ & Hidb & Hrem).
  cbn [fst snd app]. split; [done|]. rewrite Hrem.
  assert (Hsome : Forall (λ v, is_Some (key_of v)) threads).
  { eapply Forall_impl; [done|]. intros v (k & -> & _). by eexists. }
  split; [|split; [|split; [done|]]].
  - intros t k Ht Hk. unfold document.
    rewrite <- (sync_claims.foldl_insert_member (imported user (server_now w)) threads
                  (remote_threads w) t); [|by apply save_claims.NoDup_entries|done].
    by rewrite (entry_key _ _ Hk).
  - intros k Hk. apply sync_claims.foldl_insert_other.
    intros Hin. by apply Hk, keys_of_entries.
  - intros t. unfold returned, document, imported, imported_with.
    split; [by rewrite !annotation_claims.get_insert_ne, annotation_claims.get_insert_eq by done|].
    split; [by rewrite !annotation_claims.get_insert_ne, annotation_claims.get_insert_eq by done|].
    split; [by rewrite annotation_claims.get_insert_eq|].
    split; [by rewrite annotation_claims.get_insert_eq|].
    intros field Hfield.
    rewrite !(annotation_claims.get_insert_ne field "createdAt"),
            !(annotation_claims.get_insert_ne field "updatedAt");
      [done|..]; intros <-; apply Hfield; repeat constructor.
Qed.

Lemma importThreads_remote_overwrites_witness :
  (importThreads [samples.t1; samples.t2] samples.remote_world).1
  = Ok (imported_with remoteStorage.serverTimestamp samples.alice
          <$> [samples.t1; samples.t2])
  ∧ (∀ t k, t ∈ [samples.t1; samples.t2] → key_of t = Some k →
            remote_threads (importThreads [samples.t1; samples.t2]
                              samples.remote_world).2 !! k
            = Some (imported samples.alice (server_now samples.remote_world) t)).
Proof.
  destruct (importThreads_remote_overwrites [samples.t1; samples.t2] samples.alice
              samples.remote_world) as (Hreturned & Hstored & _); try reflexivity.
  - repeat constructor; eexists; (split; reflexivity).
  - vm_compute. repeat constructor; intros Hin; inversion Hin as [|? ? ? Hin']; subst;
      inversion Hin'.
  - split; assumption.
Defined.

(** X19.  [importThreads] of the Remote Engine is not atomic: when a thread without
    a string id follows threads the engine accepts, the call is rejected, and
    the threads before it have been written and stay written. *)
Theorem importThreads_remote_not_atomic good bad rest user w :
  currentStorage w = UseRemote → currentUser w = Some user → faults w = [] →
  Forall (λ t, ∃ k, key_of t = Some k ∧ remoteStorage.valid_doc_id k = true) good →
  NoDup (key_of <$> good) → key_of bad = None →
  (∃ e, (importThreads (good ++ bad :: rest) w).1 = Err e)
  ∧ (∀ t k, t ∈ good → key_of t = Some k →
            remote_threads (importThreads (good ++ bad :: rest) w).2 !! k
            = Some (imported user (server_now w) t))
  ∧ (∀ k, Some k ∉ key_of <$> good →
          remote_threads (importThreads (good ++ bad :: rest) w).2 !! k
          = remote_threads w !! k).
Proof.
  intros Hcs Hu Hf Hvalid Hnd Hbad. rewrite facade_importThreads_remote by done.
  unfold remoteStorage.importThreads. rewrite (authenticated_Some _ _ user) by done.
  unfold_async.
  destruct (import_loop_stops user good bad rest [] w Hf Hvalid Hbad)
    as (e & w1 & -> & _ & _ & Hrem).
  cbn [fst snd]. split; [by exists e|]. rewrite Hrem.
  assert (Hsome : Forall (λ v, is_Some (key_of v)) good).
  { eapply Forall_impl; [done|]. intros v (k & -> & _). by eexists. }
  split.
  - intros t k Ht Hk.
    rewrite <- (sync_claims.foldl_insert_member (imported user (server_now w)) good
                  (remote_threads w) t); [|by apply save_claims.NoDup_entries|done].
    by rewrite (entry_key _ _ Hk).
  - intros k Hk. apply sync_claims.foldl_insert_other.
    intros Hin. by apply Hk, keys_of_entries.
Qed.

Lemma importThreads_remote_not_atomic_witness :
  (∃ e, (importThreads ([samples.t2] ++ VNull :: []) samples.remote_world).1 = Err e)
  ∧ (∀ t k, t ∈ [samples.t2] → key_of t = Some k →
            remote_threads (importThreads ([samples.t2] ++ VNull :: [])
                              samples.remote_world).2 !! k
            = Some (imported samples.alice (server_now samples.remote_world) t))
  ∧ (∀ k, Some k ∉ key_of <$> [samples.t2] →
          remote_threads (importThreads ([samples.t2] ++ VNull :: [])
                            samples.remote_world).2 !! k
          = remote_threads samples.remote_world !! k).
Proof.
  apply (importThreads_remote_not_atomic [samples.t2] VNull [] samples.alice
           samples.remote_world); try reflexivity.
  - repeat constructor. exists "t2". split; reflexivity.
  - vm_compute. repeat constructor. intros Hin. inversion Hin.
Defined.

End remote_extra.

Module engine_extra.
Import IndexedDBStorage storageService storageService_rest.
Import async_facts remote_facts.

Lemma local_step_refl w : local_step w w.
Proof. split; [apply evolves_refl|done]. Qed.

Lemma local_step_trans w1 w2 w3 : local_step w1 w2 → local_step w2 w3 → local_step w1 w3.
Proof.
  intros (Hev1 & Hr1 & Hn1) (Hev2 & Hr2 & Hn2).
  split; [by eapply evolves_trans|]. split; congruence.
Qed.

Lemma remote_step_refl w : remote_step w w.
Proof. split; [apply evolves_refl|done]. Qed.

Lemma remote_step_trans w1 w2 w3 :
  remote_step w1 w2 → remote_step w2 w3 → remote_step w1 w3.
Proof.
  intros (Hev1 & Hr1 & Hn1) (Hev2 & Hr2 & Hn2).
  split; [by eapply evolves_trans|]. split; congruence.
Qed.

(** How the combinators of the facade compose such steps. *)
Section closure.
Variable engine : Backend.
Variable step : World → World → Prop.
Hypothesis step_refl : ∀ w, step w w.
Hypothesis step_trans : ∀ w1 w2 w3, step w1 w2 → step w2 w3 → step w1 w3.
Hypothesis step_evolves : ∀ w1 w2, step w1 w2 → evolves w1 w2.

Lemma step_engine w1 w2 : step w1 w2 → currentStorage w1 = engine → currentStorage w2 = engine.
Proof. intros (_ & Hcs & _)%step_evolves. congruence. Qed.

Lemma stays_ret {A} (a : A) : stays engine step (ret a).
Proof. intros w _. apply step_refl. Qed.

Lemma stays_throw {A} e : stays engine step (throw e : M A).
Proof. intros w _. apply step_refl. Qed.

Lemma stays_gets {A} (f : World → A) : stays engine step (gets f).
Proof. intros w _. apply step_refl. Qed.

Lemma stays_lift {A} (r : Result A) : stays engine step (lift r).
Proof. intros w _. apply step_refl. Qed.

Lemma stays_bind {A B} (m : M A) (k : A → M B) :
  stays engine step m → (∀ a, stays engine step (k a)) →
  stays engine step (m ≫= k).
Proof.
  intros Hm Hk w Hcs. specialize (Hm w Hcs). unfold_async.
  destruct (m w) as [[a|e] w1]; cbn [snd] in *; [|done].
  eapply step_trans; [done|]. apply Hk. by eapply step_engine.
Qed.

Lemma stays_try_catch {A} (body : M A) handler :
  stays engine step body → (∀ e, stays engine step (handler e)) →
  stays engine step (try_catch body handler).
Proof.
  intros Hm Hk w Hcs. specialize (Hm w Hcs). unfold_async.
  destruct (body w) as [[a|e] w1]; cbn [snd] in *; [done|].
  eapply step_trans; [done|]. apply Hk. by eapply step_engine.
Qed.

Lemma stays_if {A} (c : bool) (a b : M A) :
  stays engine step a → stays engine step b →
  stays engine step (if c then a else b).
Proof. by destruct c. Qed.

End closure.

(** The Local Engine stays local, the Remote Engine remote, in any world. *)
Lemma local_getThreads w : local_step w (IndexedDBStorage.getThreads w).2.
Proof.
  destruct (IndexedDBStorage.getThreads w) as [o w1] eqn:E.
  apply getThreads_inv in E as ((? & _ & ?) & ? & _). by split.
Qed.

Lemma local_getThreadById threadId w : local_step w (getThreadById threadId w).2.
Proof.
  destruct (getThreadById threadId w) as [o w1] eqn:E.
  apply getThreadById_inv in E as ((? & _ & ?) & ? & _). by split.
Qed.

Lemma local_saveThreads threads w :
  local_step w (IndexedDBStorage.saveThreads threads w).2.
Proof.
  destruct threads as [| | | | |ts|]; try apply local_step_refl.
  destruct (IndexedDBStorage.saveThreads (VArr ts) w) as [o w1] eqn:E.
  apply saveThreads_inv in E as (? & ? & ? & _). by split.
Qed.

Lemma remote_setDoc ref data w : remote_step w (remoteStorage.setDoc ref data w).2.
Proof.
  destruct (remoteStorage.setDoc ref data w) as [o w1] eqn:E.
  apply setDoc_inv in E as (? & ? & ? & _). by split.
Qed.

Lemma remote_request w : remote_step w (remoteStorage.request w).2.
Proof.
  destruct (remoteStorage.request w) as [o w1] eqn:E.
  apply request_inv in E as ((? & ? & _) & ? & _). by split.
Qed.

Lemma remote_getThread threadId w : remote_step w (remoteStorage.getThread threadId w).2.
Proof.
  destruct (remoteStorage.getThread threadId w) as [o w1] eqn:E.
  apply getThread_inv in E as ((? & ? & _) & ? & _). by split.
Qed.

Lemma remote_updateThread threadId updates w :
  remote_step w (remoteStorage.updateThread threadId updates w).2.
Proof.
  destruct (remoteStorage.updateThread threadId updates w) as [o w1] eqn:E.
  apply updateThread_inv in E as (? & ? & ? & _). by split.
Qed.

Lemma remote_deleteThread threadId w :
  remote_step w (remoteStorage.deleteThread threadId w).2.
Proof.
  destruct (remoteStorage.deleteThread threadId w) as [o w1] eqn:E.
  apply deleteThread_inv in E as (? & ? & ? & _). by split.
Qed.

Lemma local_evolves w1 w2 : local_step w1 w2 → evolves w1 w2.
Proof. by intros [? _]. Qed.

Lemma remote_evolves w1 w2 : remote_step w1 w2 → evolves w1 w2.
Proof. by intros [? _]. Qed.

Ltac compose engine step refl trans evolves :=
  repeat lazymatch goal with
  | |- stays _ _ (ret _) => apply (stays_ret engine step refl)
  | |- stays _ _ (throw _) => apply (stays_throw engine step refl)
  | |- stays _ _ (gets _) => apply (stays_gets engine step refl)
  | |- stays _ _ (lift _) => apply (stays_lift engine step refl)
  | |- stays _ _ (_ ≫= _) => apply (stays_bind engine step trans evolves)
  | |- stays _ _ (try_catch _ _) => apply (stays_try_catch engine step trans evolves)
  | |- stays _ _ (if _ then _ else _) => apply (stays_if engine step)
  | |- ∀ _, _ => intros ?
  end.

Ltac compose_local :=
  compose UseIndexedDB local_step local_step_refl local_step_trans local_evolves.

Ltac compose_remote :=
  compose UseRemote remote_step remote_step_refl remote_step_trans remote_evolves.

Lemma remote_authenticated : stays UseRemote remote_step remoteStorage.authenticated.
Proof.
  intros w _. unfold remoteStorage.authenticated. unfold_async.
  destruct (currentUser w); apply remote_step_refl.
Qed.

Lemma remote_doc id : stays UseRemote remote_step (remoteStorage.doc id).
Proof.
  intros w _. unfold remoteStorage.doc. unfold_async.
  destruct id as [| | | |s| |]; try apply remote_step_refl.
  destruct (remoteStorage.valid_doc_id s); apply remote_step_refl.
Qed.

Lemma remote_saveThread thread : stays UseRemote remote_step (remoteStorage.saveThread thread).
Proof.
  unfold remoteStorage.saveThread.
  apply (stays_bind _ _ remote_step_trans remote_evolves); [apply remote_authenticated|].
  intros user. compose_remote.
  - apply remote_doc.
  - intros w _. apply remote_setDoc.
Qed.

Lemma remote_getThreads : stays UseRemote remote_step remoteStorage.getThreads.
Proof.
  unfold remoteStorage.getThreads, remoteStorage.getDocs_by_updatedAt.
  apply (stays_bind _ _ remote_step_trans remote_evolves); [apply remote_authenticated|].
  intros user. compose_remote. intros w _. apply remote_request.
Qed.

Lemma remote_import_loop user threads : ∀ results,
  stays UseRemote remote_step (remoteStorage.import_loop user threads results).
Proof.
  induction threads as [|t rest IH]; intros results; cbn [remoteStorage.import_loop].
  - intros w _. apply remote_step_refl.
  - compose_remote.
    + apply remote_doc.
    + intros w _. apply remote_setDoc.
    + apply IH.
Qed.

Lemma remote_importThreads threads :
  stays UseRemote remote_step (remoteStorage.importThreads threads).
Proof.
  unfold remoteStorage.importThreads.
  apply (stays_bind _ _ remote_step_trans remote_evolves); [apply remote_authenticated|].
  intros user. compose_remote. apply remote_import_loop.
Qed.

Lemma remote_save_each threads : stays UseRemote remote_step (save_each threads).
Proof.
  induction threads as [|t rest IH]; cbn [save_each].
  - intros w _. apply remote_step_refl.
  - compose_remote; [apply remote_saveThread|apply IH].
Qed.

(** The dispatch on the engine pointer. *)
Lemma dispatch_local {A} (a b : M A) :
  stays UseIndexedDB local_step a →
  stays UseIndexedDB local_step
    (storage ← gets currentStorage;
     match storage with UseIndexedDB => a | UseRemote => b end).
Proof. intros Ha w Hcs. unfold_async. rewrite Hcs. by apply Ha. Qed.

Lemma dispatch_remote {A} (a b : M A) :
  stays UseRemote remote_step b →
  stays UseRemote remote_step
    (storage ← gets currentStorage;
     match storage with UseIndexedDB => a | UseRemote => b end).
Proof. intros Hb w Hcs. unfold_async. rewrite Hcs. by apply Hb. Qed.

Ltac local_call :=
  repeat lazymatch goal with
  | |- stays _ _ (gets currentStorage ≫= _) => apply dispatch_local
  | |- stays _ _ IndexedDBStorage.getThreads => intros ? _; apply local_getThreads
  | |- stays _ _ (getThreadById _) => intros ? _; apply local_getThreadById
  | |- stays _ _ (IndexedDBStorage.saveThreads _) => intros ? _; apply local_saveThreads
  | |- stays _ _ (let _ := _ in _) => cbv zeta
  | |- stays _ _ (ret _) => apply (stays_ret _ _ local_step_refl)
  | |- stays _ _ (throw _) => apply (stays_throw _ _ local_step_refl)
  | |- stays _ _ (gets _) => apply (stays_gets _ _ local_step_refl)
  | |- stays _ _ (lift _) => apply (stays_lift _ _ local_step_refl)
  | |- stays _ _ (_ ≫= _) => apply (stays_bind _ _ local_step_trans local_evolves)
  | |- stays _ _ (try_catch _ _) =>
      apply (stays_try_catch _ _ local_step_trans local_evolves)
  | |- stays _ _ (if _ then _ else _) => apply stays_if
  | |- ∀ _, _ => intros ?
  end.

Ltac remote_call :=
  repeat lazymatch goal with
  | |- stays _ _ (gets currentStorage ≫= _) => apply dispatch_remote
  | |- stays _ _ (remoteStorage.saveThread _) => apply remote_saveThread
  | |- stays _ _ remoteStorage.getThreads => apply remote_getThreads
  | |- stays _ _ (remoteStorage.getThread _) => intros ? _; apply remote_getThread
  | |- stays _ _ (remoteStorage.updateThread _ _) => intros ? _; apply remote_updateThread
  | |- stays _ _ (remoteStorage.deleteThread _) => intros ? _; apply remote_deleteThread
  | |- stays _ _ (remoteStorage.importThreads _) => apply remote_importThreads
  | |- stays _ _ (save_each _) => apply remote_save_each
  | |- stays _ _ (let _ := _ in _) => cbv zeta
  | |- stays _ _ (ret _) => apply (stays_ret _ _ remote_step_refl)
  | |- stays _ _ (throw _) => apply (stays_throw _ _ remote_step_refl)
  | |- stays _ _ (gets _) => apply (stays_gets _ _ remote_step_refl)
  | |- stays _ _ (lift _) => apply (stays_lift _ _ remote_step_refl)
  | |- stays _ _ (_ ≫= _) => apply (stays_bind _ _ remote_step_trans remote_evolves)
  | |- stays _ _ (try_catch _ _) =>
      apply (stays_try_catch _ _ remote_step_trans remote_evolves)
  | |- stays _ _ (if _ then _ else _) => apply stays_if
  | |- ∀ _, _ => intros ?
  end.

Lemma getThread_stays threadId :
  stays UseIndexedDB local_step (getThread threadId)
  ∧ stays UseRemote remote_step (getThread threadId).
Proof. unfold getThread. split; [by local_call|by remote_call]. Qed.

Lemma updateThread_stays threadId updates :
  stays UseIndexedDB local_step (updateThread threadId updates)
  ∧ stays UseRemote remote_step (updateThread threadId updates).
Proof. unfold updateThread. split; [by local_call|by remote_call]. Qed.

Lemma world_after_stays call w :
  (currentStorage w = UseIndexedDB → local_step w (world_after call w))
  ∧ (currentStorage w = UseRemote → remote_step w (world_after call w)).
Proof.
  assert (∀ A (m : M A),
            stays UseIndexedDB local_step m ∧ stays UseRemote remote_step m →
            (currentStorage w = UseIndexedDB → local_step w (m w).2)
            ∧ (currentStorage w = UseRemote → remote_step w (m w).2)) as Hboth.
  { intros A m [Hl Hr]. split; intros Hcs; [by apply Hl|by apply Hr]. }
  destruct call; cbn [world_after]; apply Hboth.
  - unfold getThreads. split; [by local_call|by remote_call].
  - apply getThread_stays.
  - unfold saveThread. split; [by local_call|by remote_call].
  - unfold saveThreads. split; [by local_call|by remote_call].
  - apply updateThread_stays.
  - unfold deleteThread. split; [by local_call|by remote_call].
  - unfold importThreads. split; [by local_call|by remote_call].
  - unfold updateAnnotation. split.
    + local_call; try apply getThread_stays; apply updateThread_stays.
    + remote_call; try apply getThread_stays; apply updateThread_stays.
  - unfold deleteAnnotation. split.
    + local_call; try apply getThread_stays; apply updateThread_stays.
    + remote_call; try apply getThread_stays; apply updateThread_stays.
  - unfold testStorage. split; [by local_call|by remote_call].
Qed.

(** X20.  Every call of the facade goes to the engine the facade points at, and
    only there, whatever its arguments and whichever I/O step fails.  With
    the Local Engine active no call changes a remote document or sends a
    request; with the Remote Engine active no call changes the local thread
    store or opens the local database. *)
Theorem facade_uses_active_engine_only call w :
  (currentStorage w = UseIndexedDB →
   remote_threads (world_after call w) = remote_threads w
   ∧ network_calls (world_after call w) = network_calls w)
  ∧ (currentStorage w = UseRemote →
     idb_threads (world_after call w) = idb_threads w
     ∧ db_handle (world_after call w) = db_handle w).
Proof.
  destruct (world_after_stays call w) as [Hl Hr]. split; intros Hcs.
  - by destruct (Hl Hcs) as (_ & ? & ?).
  - by destruct (Hr Hcs) as (_ & ? & ?).
Qed.

(** X21.  The engine follows the session.  Once the listener registered by
    [initStorage] has seen a sign-out, [getStorageType] names the Local
    Engine and no call of the facade sends a request or changes a remote
    document; once it has seen a user, [getStorageType] names the Remote
    Engine, [isAuthenticated] is true, and no call of the facade reads or
    changes the local thread store, so threads saved before signing in are
    not the ones the facade shows. *)
Theorem session_selects_engine user call w :
  (user = None →
   (getStorageType (onAuthStateChanged user w)).1 = Ok "Local Storage (IndexedDB)"
   ∧ (isAuthenticated (onAuthStateChanged user w)).1 = Ok false
   ∧ remote_threads (world_after call (onAuthStateChanged user w)) = remote_threads w
   ∧ network_calls (world_after call (onAuthStateChanged user w)) = network_calls w)
  ∧ (user ≠ None →
     (getStorageType (onAuthStateChanged user w)).1 = Ok "Remote Storage (Firebase)"
     ∧ (isAuthenticated (onAuthStateChanged user w)).1 = Ok true
     ∧ idb_threads (world_after call (onAuthStateChanged user w)) = idb_threads w
     ∧ db_handle (world_after call (onAuthStateChanged user w)) = db_handle w).
Proof.
  split.
  - intros ->. split; [done|]. split; [done|].
    destruct (world_after_stays call (onAuthStateChanged None w)) as [Hl _].
    by destruct (Hl eq_refl) as (_ & ? & ?).
  - intros Huser. destruct user as [u|]; [|done]. split; [done|]. split; [done|].
    destruct (world_after_stays call (onAuthStateChanged (Some u) w)) as [_ Hr].
    by destruct (Hr eq_refl) as (_ & ? & ?).
Qed.

Lemma session_selects_engine_witness :
  (getStorageType (onAuthStateChanged (Some samples.alice) samples.local_world)).1
  = Ok "Remote Storage (Firebase)"
  ∧ (isAuthenticated (onAuthStateChanged (Some samples.alice) samples.local_world)).1
    = Ok true
  ∧ idb_threads (world_after (CallDeleteThread "t1")
                   (onAuthStateChanged (Some samples.alice) samples.local_world))
    = idb_threads samples.local_world
  ∧ db_handle (world_after (CallDeleteThread "t1")
                 (onAuthStateChanged (Some samples.alice) samples.local_world))
    = db_handle samples.local_world.
Proof.
  apply (session_selects_engine (Some samples.alice) (CallDeleteThread "t1")
           samples.local_world).
  discriminate.
Defined.

End engine_extra.

Module test_extra.
Import IndexedDBStorage storageService storageService_rest.
Import async_facts store_facts facade_store_facts local_facade_facts remote_facts.
Import store_extra facade_extra remote_extra.

Lemma testId_not_empty ms : testId ms ≠ EmptyString.
Proof. done. Qed.

Lemma key_of_testRecord ms time : key_of (testRecord ms time) = Some (testId ms).
Proof. done. Qed.

Lemma findIndex_absent store k :
  store_wf store = true → store !! k = None → findIndex k (getAll store) = None.
Proof.
  intros Hwf Hfree. pose proof (findIndex_split k (getAll store)) as Hsplit.
  destruct (findIndex k (getAll store)) as [i|]; [|done].
  destruct Hsplit as (l1 & t & l2 & Hl & _ & Ht).
  assert (Hin : t ∈ getAll store) by (rewrite Hl; apply elem_of_app; right; by left).
  destruct (getAll_key _ _ Hwf Hin) as (k' & Hk' & _ & Hlk).
  rewrite (key_of_is_str _ _ _ Hk') in Ht. apply bool_decide_eq_true in Ht.
  congruence.
Qed.

(** What the probe finds when it looks for its record. *)
Lemma passed_found ms store :
  store_wf store = true → is_Some (store !! testId ms) →
  passed ms (find_by_id (testId ms) (getAll store)) = VBool true.
Proof.
  intros Hwf [v Hv]. unfold find_by_id.
  destruct (store_wf_lookup _ _ _ Hwf Hv) as [Hk Hne].
  assert (Hin : v ∈ filter (λ t, is_str (testId ms) (get "id" t) = true) (getAll store)).
  { apply list_elem_of_filter. split; [|apply getAll_elem; eauto].
    rewrite (key_of_is_str _ _ _ Hk). by apply bool_decide_eq_true_2. }
  destruct (filter _ (getAll store)) as [|r l] eqn:Hfilter.
  { by apply elem_of_nil in Hin. }
  cbn [head default].
  assert (Hr : r ∈ filter (λ t, is_str (testId ms) (get "id" t) = true) (getAll store))
    by (rewrite Hfilter; by left).
  apply list_elem_of_filter in Hr as [Hid Hr].
  destruct (getAll_key _ _ Hwf Hr) as (k & Hkr & Hner & _).
  destruct (idb_extra.key_of_truthy _ _ Hkr Hner) as [Htr _].
  unfold passed, js_and. cbn [id]. by rewrite Htr, Hid.
Qed.

(** X22.  [testStorage] of the facade never throws: every failure becomes a
    report.  Without I/O failures the probe cleans up after itself.  On the
    Local Engine, when the probe id is not in use, the report says passed and
    the thread store is exactly what it was.  On the Remote Engine (with a
    session) the report says passed and the collection is the old one without
    the probe id. *)
Theorem testStorage_cleans_up ms w :
  (∃ report, (testStorage ms w).1 = Ok report)
  ∧ (faults w = [] → currentStorage w = UseIndexedDB →
     store_wf (idb_threads w) = true → idb_threads w !! testId ms = None →
     (testStorage ms w).1
     = Ok {| isAvailable := true; testPassed := VBool true;
             isWorking := true; error := None |}
     ∧ idb_threads (testStorage ms w).2 = idb_threads w)
  ∧ (faults w = [] → currentStorage w = UseRemote → is_Some (currentUser w) →
     remoteStorage.valid_doc_id (testId ms) = true →
     (testStorage ms w).1
     = Ok {| isAvailable := true; testPassed := VBool true;
             isWorking := true; error := None |}
     ∧ remote_threads (testStorage ms w).2 = delete (testId ms) (remote_threads w)).
Proof.
  split; [|split].
  - unfold testStorage, try_catch.
    match goal with |- context [match ?body w with _ => _ end] =>
      destruct (body w) as [[report|e] w1] end; by eexists.
  - intros Hf Hcs Hwf Hfree. unfold testStorage. unfold_async. rewrite Hcs.
    destruct (getThreads_ok w Hf) as (w1 & -> & (Hev1 & Hidb1 & _) & Hf1 & _).
    pose proof (key_of_testRecord ms (now w)) as Hk.
    destruct (saved_push _ _ _ Hwf Hfree Hk (testId_not_empty ms)) as [Hclean Hadd].
    rewrite (findIndex_absent _ _ Hwf Hfree) in Hclean, Hadd. cbn [put_at] in *.
    destruct (saveThreads_clean_ok _ _ w1 Hf1 Hclean Hadd)
      as (w2 & -> & Hev2 & Hidb2 & _ & Hf2 & _).
    destruct (getThreads_ok w2 Hf2) as (w3 & -> & (Hev3 & Hidb3 & _) & Hf3 & _).
    rewrite Hidb2.
    assert (Hwf2 : store_wf (<[testId ms := testRecord ms (now w)]> (idb_threads w)) = true)
      by (by apply annotation_local_facts.store_wf_insert).
    destruct (saved_filter _ (testId ms) Hwf2) as (Hclean2 & Hadd2 & _).
    destruct (saveThreads_clean_ok _ _ w3 Hf3 Hclean2 Hadd2)
      as (w4 & -> & Hev4 & Hidb4 & _).
    cbn [fst snd]. rewrite passed_found; [|done|by rewrite lookup_insert_eq].
    split; [done|]. rewrite Hidb4, delete_insert_eq. by apply delete_id.
  - intros Hf Hcs [user Hu] Hv. unfold testStorage. unfold_async. rewrite Hcs.
    pose proof (key_of_testRecord ms (now w)) as Hk.
    destruct (saveThread_remote_ok _ _ user w Hu Hf Hk Hv)
      as (w1 & -> & Hev1 & _ & Hrem1).
    pose proof Hev1 as (Hu1 & _ & _ & _ & _ & Hfs1).
    destruct (remoteStorage.getThread (testId ms) w1) as [o2 w2] eqn:E2.
    apply getThread_inv in E2 as ((Hev2 & _ & Hrem2) & _ & _ & Hok2).
    assert (Hs1 : is_Some (currentUser w1)) by (rewrite Hu1, Hu; by eexists).
    specialize (Hok2 (Hfs1 Hf) Hs1 Hv). subst o2.
    pose proof Hev2 as (Hu2 & _ & _ & _ & _ & Hfs2).
    destruct (remoteStorage.deleteThread (testId ms) w2) as [o3 w3] eqn:E3.
    apply deleteThread_inv in E3 as (_ & _ & _ & Hc3 & Hok3).
    rewrite Hrem2, Hrem1, lookup_insert_eq in Hok3, Hc3.
    assert (Hs2 : is_Some (currentUser w2)) by (rewrite Hu2; done).
    specialize (Hok3 (Hfs2 (Hfs1 Hf)) Hs2 Hv). subst o3.
    destruct Hc3 as [[[e [=]] _]|(_ & _ & Hrem3)].
    rewrite Hrem1, lookup_insert_eq. cbn [default fst snd].
    split; [|by rewrite Hrem3, delete_insert_eq].
    do 2 f_equal. unfold passed, js_and, saved. cbn [id truthy].
    rewrite !annotation_claims.get_insert_ne by done.
    replace (get "id" (VObj (own_props (testRecord ms (now w)))))
      with (VStr (testId ms)) by done.
    cbn [is_str]. by rewrite String.eqb_refl.
Qed.

Lemma testStorage_cleans_up_witness :
  (testStorage 1714557600000 samples.local_world).1
  = Ok {| isAvailable := true; testPassed := VBool true;
          isWorking := true; error := None |}
  ∧ idb_threads (testStorage 1714557600000 samples.local_world).2
    = idb_threads samples.local_world.
Proof.
  apply (testStorage_cleans_up 1714557600000 samples.local_world); reflexivity.
Defined.

End test_extra.

Module read_extra.
Import IndexedDBStorage storageService storageService_rest.
Import async_facts store_facts facade_store_facts local_facade_facts remote_facts.
Import annotation_remote_facts store_extra thread_extra remote_extra.

Lemma add_all_keys records : ∀ store store',
  add_all store records = Ok store' → Forall (λ v, is_Some (key_of v)) records.
Proof.
  induction records as [|r rest IH]; intros store store'; [by constructor|].
  cbn [add_all]. unfold add. destruct (key_of r) as [kr|] eqn:Hkr; [|done].
  destruct (store !! kr); [done|]. cbn [mbind Result_bind].
  intros Hrest. constructor; [by eexists|]. by eapply IH.
Qed.

(** The records of a store filled from nothing are the records added. *)
Lemma getAll_add_all records store' :
  add_all ∅ records = Ok store' → getAll store' ≡ₚ records.
Proof.
  intros Hadd. pose proof (add_all_lookup _ _ _ Hadd) as Hlookup.
  destruct (add_all_NoDup _ _ _ Hadd) as [Hnd _].
  pose proof (add_all_keys _ _ _ Hadd) as Hkeys.
  unfold getAll. rewrite merge_sort_Permutation.
  apply NoDup_Permutation.
  - apply NoDup_fmap_2_strong; [|apply NoDup_map_to_list].
    intros [k1 v1] [k2 v2] H1%elem_of_map_to_list H2%elem_of_map_to_list Hv.
    cbn in Hv. subst v2.
    apply Hlookup in H1 as [[_ H1]|H1]; [|by rewrite lookup_empty in H1].
    apply Hlookup in H2 as [[_ H2]|H2]; [|by rewrite lookup_empty in H2].
    congruence.
  - by eapply NoDup_fmap_1.
  - intros v. rewrite list_elem_of_fmap. split.
    + intros ([k v'] & -> & Hin%elem_of_map_to_list).
      apply Hlookup in Hin as [[Hin _]|Hin]; [done|by rewrite lookup_empty in Hin].
    + intros Hin. rewrite Forall_forall in Hkeys. destruct (Hkeys v Hin) as [k Hk].
      exists (k, v). split; [done|]. apply elem_of_map_to_list, Hlookup. by left.
Qed.

(** X23.  Saving and listing on the Local Engine: when [saveThreads] of the facade
    has returned true for an array (no I/O failure), [getThreads] returns the
    records of the array that pass the filter of [saveThreads], all of them
    and nothing else, up to their order. *)
Theorem saveThreads_getThreads_round_trip threads w :
  currentStorage w = UseIndexedDB → faults w = [] →
  (saveThreads (VArr threads) w).1 = Ok true →
  ∃ listed, (getThreads (saveThreads (VArr threads) w).2).1 = Ok listed
            ∧ listed ≡ₚ filter (λ thread, storable thread = true) threads.
Proof.
  intros Hcs Hf. unfold saveThreads. unfold_async. rewrite Hcs.
  destruct (IndexedDBStorage.saveThreads (VArr threads) w) as [o w1] eqn:E.
  apply saveThreads_inv in E as (Hev & _ & _ & Hc & _).
  destruct o as [b|e]; cbn [fst snd]; [|done]. intros [= ->].
  destruct Hc as [(_ & _ & Hadd)|[([=] & _)|([e [=]] & _)]].
  pose proof Hev as (_ & Hcs1 & _ & _ & _ & Hfs).
  destruct (getThreads w1) as [o2 w2] eqn:E2.
  apply getThreads_local_inv in E2 as (_ & _ & _ & Hok); [|congruence].
  rewrite (Hok (Hfs Hf)). eexists. split; [done|]. by apply getAll_add_all.
Qed.

Lemma saveThreads_getThreads_round_trip_witness :
  ∃ listed,
    (getThreads (saveThreads (VArr [samples.quoted; VNull; samples.good])
                             samples.local_world).2).1 = Ok listed
    ∧ listed ≡ₚ filter (λ thread, storable thread = true)
                       [samples.quoted; VNull; samples.good].
Proof.
  apply (saveThreads_getThreads_round_trip [samples.quoted; VNull; samples.good]
           samples.local_world); reflexivity.
Defined.

(** X24.  [getThread] is a lookup in the active collection: without I/O failures
    it returns the thread stored under the id, or null when there is none (a
    missing id is not an error on either engine), and it changes neither
    collection. *)
Theorem getThread_reads_active threadId w :
  faults w = [] →
  (currentStorage w = UseIndexedDB → store_wf (idb_threads w) = true) →
  (currentStorage w = UseRemote →
   is_Some (currentUser w) ∧ remoteStorage.valid_doc_id threadId = true) →
  (getThread threadId w).1 = Ok (default VNull (active_threads w !! threadId))
  ∧ idb_threads (getThread threadId w).2 = idb_threads w
  ∧ remote_threads (getThread threadId w).2 = remote_threads w.
Proof.
  intros Hf Hlocal Hremote. unfold active_threads.
  destruct (getThread threadId w) as [o w1] eqn:E. cbn [fst snd].
  destruct (currentStorage w) eqn:Hcs.
  - specialize (Hlocal eq_refl).
    apply getThread_local_inv in E as ((_ & ? & ?) & _ & _ & Hok); [|done].
    rewrite (Hok Hf). split; [|done]. f_equal.
    destruct (idb_threads w !! threadId) as [t|] eqn:Ht.
    + by destruct (found_Some _ _ _ Hlocal Ht) as [-> _].
    + by rewrite found_None.
  - destruct (Hremote eq_refl) as [Hu Hv].
    apply getThread_remote_inv in E as ((_ & ? & ?) & _ & _ & Hok); [|done].
    by rewrite (Hok Hf Hu Hv).
Qed.

Lemma getThread_reads_active_witness :
  (getThread "t9" samples.remote_world).1
  = Ok (default VNull (active_threads samples.remote_world !! "t9"))
  ∧ idb_threads (getThread "t9" samples.remote_world).2
    = idb_threads samples.remote_world
  ∧ remote_threads (getThread "t9" samples.remote_world).2
    = remote_threads samples.remote_world.
Proof.
  apply (getThread_reads_active "t9" samples.remote_world).
  - reflexivity.
  - discriminate.
  - intros _. split; [eexists|]; reflexivity.
Defined.

(** X25.  [updateThread] on the Remote Engine for an id that is not stored: the
    call is rejected with the engine's not-found error and no document is
    created or changed.  And whenever the call ends in that error, whatever
    failed, the collection is what it was. *)
Theorem updateThread_remote_missing threadId updates w :
  currentStorage w = UseRemote →
  (faults w = [] → is_Some (currentUser w) →
   remoteStorage.valid_doc_id threadId = true →
   remote_threads w !! threadId = None →
   (updateThread threadId updates w).1 = Err RemoteThreadNotFound)
  ∧ ((updateThread threadId updates w).1 = Err RemoteThreadNotFound →
     remote_threads (updateThread threadId updates w).2 = remote_threads w
     ∧ idb_threads (updateThread threadId updates w).2 = idb_threads w).
Proof.
  intros Hcs. destruct (updateThread threadId updates w) as [o w1] eqn:E.
  cbn [fst snd].
  apply updateThread_remote_inv in E as (_ & Hidb & _ & Hc & Hok); [|done].
  split.
  - intros Hf Hu Hv Hnone. specialize (Hok Hf Hu Hv). by rewrite Hnone in Hok.
  - intros ->. split; [|done]. by destruct Hc as [[_ ?]|([=] & _)].
Qed.

Lemma updateThread_remote_missing_witness :
  (updateThread "t9" samples.good samples.remote_world).1 = Err RemoteThreadNotFound.
Proof.
  apply (updateThread_remote_missing "t9" samples.good samples.remote_world);
    try reflexivity.
  eexists. reflexivity.
Defined.

(** Every [setDoc] is one request, whether it goes through or not. *)
Lemma setDoc_calls ref data w :
  network_calls (remoteStorage.setDoc ref data w).2 = S (network_calls w).
Proof.
  unfold remoteStorage.setDoc, remoteStorage.request. unfold_async. cbn.
  destruct (io NetworkError _) as [[[]|e] w1] eqn:E;
    apply io_inv in E as (_ & _ & Hn & _); cbn in *; done.
Qed.

Lemma import_loop_calls user threads : ∀ results w,
  faults w = [] →
  Forall (λ t, ∃ k, key_of t = Some k ∧ remoteStorage.valid_doc_id k = true) threads →
  network_calls (remoteStorage.import_loop user threads results w).2
  = network_calls w + length threads.
Proof.
  induction threads as [|t rest IH]; intros results w Hf Hvalid.
  - cbn. lia.
  - apply Forall_cons in Hvalid as [(k & Hk & Hv) Hvalid].
    destruct (sync_claims.key_of_get _ _ Hk) as [Hid Hnn].
    cbn [remoteStorage.import_loop]. unfold prop,
      remoteStorage.doc. unfold_async. rewrite Hnn, Hid, Hv.
    match goal with |- context [remoteStorage.setDoc k ?data w] =>
      pose proof (setDoc_calls k data w) as Hn;
      destruct (remoteStorage.setDoc k data w) as [o w2] eqn:E end.
    apply setDoc_inv in E as (Hev & _ & _ & _ & Hok).
    rewrite (Hok Hf). pose proof Hev as (_ & _ & _ & _ & _ & Hfs).
    rewrite IH by auto. cbn [snd length] in *. lia.
Qed.

(** X26.  [syncToRemote] sends exactly one request for each thread of the Local
    Engine (with a session, no I/O failure, ids Firestore accepts); with an
    empty local store it sends none and leaves the remote collection alone. *)
Theorem syncToRemote_one_request_per_thread user w :
  currentUser w = Some user → faults w = [] →
  store_wf (idb_threads w) = true → syncable (idb_threads w) = true →
  network_calls (syncToRemote w).2 = network_calls w + size (idb_threads w)
  ∧ (idb_threads w = ∅ →
     (syncToRemote w).1 = Ok 0
     ∧ network_calls (syncToRemote w).2 = network_calls w
     ∧ remote_threads (syncToRemote w).2 = remote_threads w).
Proof.
  intros Hu Hf Hwf Hsync.
  unfold syncToRemote, isAuthenticated. unfold_async. rewrite Hu. cbn.
  destruct (getThreads_ok w Hf) as (w1 & -> & ((Hu1 & _) & Hidb1 & Hrem1) & Hf1 & Hn1).
  rewrite getAll_length. split.
  - case_bool_decide as Hsize.
    + unfold remoteStorage.importThreads.
      rewrite (authenticated_Some _ _ user) by congruence. unfold_async.
      assert (Hvalid : Forall (λ t, ∃ k, key_of t = Some k
                                ∧ remoteStorage.valid_doc_id k = true)
                         (getAll (idb_threads w))).
      { apply Forall_forall. intros v Hv.
        destruct (getAll_key _ _ Hwf Hv) as (k & Hk & _ & Hlk). exists k.
        split; [done|]. by eapply sync_claims.syncable_lookup. }
      pose proof (import_loop_calls user _ [] w1 Hf1 Hvalid) as Hcalls.
      destruct (sync_claims.import_loop_ok user _ [] w1 Hf1 Hvalid) as (w2 & E & _).
      rewrite E in Hcalls |- *. cbn [fst snd] in *.
      rewrite Hcalls, Hn1. by rewrite getAll_length.
    + cbn [snd]. assert (idb_threads w = ∅) as Hempty
        by (apply map_size_empty_iff; lia).
      by rewrite Hempty, map_size_empty, Hn1, Nat.add_0_r.
  - intros Hempty. rewrite Hempty, map_size_empty.
    rewrite bool_decide_eq_false_2 by lia. cbn [fst snd]. done.
Qed.

Lemma syncToRemote_one_request_per_thread_witness :
  network_calls (syncToRemote samples.remote_world).2
  = network_calls samples.remote_world + size (idb_threads samples.remote_world).
Proof.
  apply (syncToRemote_one_request_per_thread samples.alice samples.remote_world);
    reflexivity.
Defined.

Lemma facade_getThreads_remote w :
  currentStorage w = UseRemote → getThreads w = remoteStorage.getThreads w.
Proof.
  intros Hcs. unfold getThreads. unfold_async. rewrite Hcs.
  by destruct (remoteStorage.getThreads w) as [[]].
Qed.

(** X27.  A thread saved on the Remote Engine is listed: after [saveThread] of the
    facade (session, no I/O failure, an id Firestore accepts), [getThreads]
    returns a sequence that holds the document written, and holds nothing
    that is not a document of the collection. *)
Theorem saveThread_remote_listed thread k user w :
  currentStorage w = UseRemote → currentUser w = Some user → faults w = [] →
  key_of thread = Some k → remoteStorage.valid_doc_id k = true →
  ∃ listed,
    (getThreads (saveThread thread w).2).1 = Ok listed
    ∧ saved user (server_now w) thread ∈ listed
    ∧ ∀ document, document ∈ listed →
        ∃ id, remote_threads (saveThread thread w).2 !! id = Some document.
Proof.
  intros Hcs Hu Hf Hk Hv. rewrite facade_saveThread_remote by done.
  destruct (saveThread_remote_ok thread k user w Hu Hf Hk Hv)
    as (w1 & -> & Hev & _ & Hrem).
  cbn [snd]. pose proof Hev as (Hu1 & Hcs1 & _ & _ & _ & Hfs).
  rewrite facade_getThreads_remote by congruence. unfold remoteStorage.getThreads.
  rewrite (authenticated_Some _ _ user) by congruence.
  unfold remoteStorage.getDocs_by_updatedAt. unfold_async.
  destruct (remoteStorage.request w1) as [o w2] eqn:E.
  apply request_inv in E as ((_ & _ & Hrem2) & _ & _ & Hok).
  rewrite (Hok (Hfs Hf)). cbn [fst]. eexists. split; [done|].
  rewrite Hrem2. split.
  - rewrite merge_sort_Permutation. apply list_elem_of_filter. split.
    { unfold saved.
      by rewrite annotation_claims.get_insert_ne, annotation_claims.get_insert_eq. }
    apply list_elem_of_fmap. exists (k, saved user (server_now w) thread).
    split; [done|]. apply elem_of_map_to_list. by rewrite Hrem, lookup_insert_eq.
  - intros document. rewrite merge_sort_Permutation.
    intros [_ Hin]%list_elem_of_filter.
    apply list_elem_of_fmap in Hin as ([id d] & -> & Hin%elem_of_map_to_list).
    by exists id.
Qed.

Lemma saveThread_remote_listed_witness :
  ∃ listed,
    (getThreads (saveThread samples.t2 samples.remote_world).2).1 = Ok listed
    ∧ saved samples.alice (server_now samples.remote_world) samples.t2 ∈ listed
    ∧ ∀ document, document ∈ listed →
        ∃ id, remote_threads (saveThread samples.t2 samples.remote_world).2 !! id
              = Some document.
Proof.
  apply (saveThread_remote_listed samples.t2 "t2" samples.alice samples.remote_world);
    reflexivity.
Defined.

End read_extra.
